(** * Conversational honeypot: session lifecycle and decision engine

    A shallow embedding of [main.py] (the FastAPI honeypot service) and the
    properties of its session store, intelligence extractor, callback trigger
    and callback dispatcher.

    Modelling conventions.
    - A text (a Python [str]) is the string of its UTF-8 bytes.  [len]
      counts code points; [str.count] and [in] are searches for a byte
      string, which is what they are for code points since UTF-8 is
      self-synchronising; [str.lower] follows the Unicode database, which
      is no part of the service: it is a parameter ([Unicode]), with the two
      facts about it that the service relies on.
    - The character sets that the patterns spell out ([[a-zA-Z0-9.\-_]],
      [[a-zA-Z]], [[a-zA-Z0-9_-]]) are sets of 7-bit characters, on every
      text.  The classes [\d], [\w] (behind [\b]) and [\s] of the [re]
      module are modelled on 7-bit characters: what the bank-account and
      URL scans return is modelled for texts of 7-bit characters.
    - Clock readings ([datetime.now()]) are exact numbers of seconds in [Z];
      every reading is an input of the function that performs it.
    - [random.choice] is an input: the index it draws.
    - The network ([callback_client.post]) is an input: the outcome of every
      delivery attempt.
    - [sessions] (an [OrderedDict]) is an association list in dictionary
      order, oldest entry first; plain dictionaries are [gmap]s.
    - Code that may raise runs in a state-and-exception monad whose state
      survives a raise, as Python's does.
    - Once a request is validated no statement of the handler can raise by
      itself ([honeypot_closed] with [fault env = None]); to say what the
      [except] branch does, the environment may make the runtime raise at
      the start of one of the blocks of the handler, or behind either of
      the two statements that follow the trigger decision ([fault]).
    - The handler awaits nothing that suspends after reading the request
      ([extract_intelligence] awaits nothing), so one run of it is one
      step.  A dispatch suspends at every POST and at every sleep: a run
      may take it as one step or phase by phase, with any other steps in
      between ([step]).
    - The order of the effects on the event loop, the flag, the network and
      the timer is kept in a journal. *)

From Stdlib Require Import String Ascii List Arith ZArith Lia Bool.
From stdpp Require Import base option list sorting strings gmap.
Import ListNotations.

Local Open Scope string_scope.
Local Open Scope list_scope.
Local Open Scope nat_scope.

(* ===================================================================== *)
(** ** Text primitives *)
(* ===================================================================== *)

Module Text.

Definition code (c : ascii) : nat := nat_of_ascii c.

Definition in_range (lo hi : nat) (c : ascii) : bool :=
  (lo <=? code c) && (code c <=? hi).

Definition is_upper (c : ascii) : bool := in_range 65 90 c.
Definition is_lower (c : ascii) : bool := in_range 97 122 c.
Definition is_alpha (c : ascii) : bool := is_upper c || is_lower c.
(** [\d] *)
Definition is_digit (c : ascii) : bool := in_range 48 57 c.
(** [\w] *)
Definition is_word (c : ascii) : bool :=
  is_alpha c || is_digit c || (code c =? 95).
(** [\s]: tab, line feed, vertical tab, form feed, carriage return, the
    four information separators and the space. *)
Definition is_space (c : ascii) : bool :=
  in_range 9 13 c || in_range 28 31 c || (code c =? 32).

(** A text of 7-bit characters: every byte is below 128. *)
Fixpoint ascii_only (s : string) : bool :=
  match s with
  | EmptyString => true
  | String c s' => (code c <? 128) && ascii_only s'
  end.

(** [len(s)], the number of code points: in the UTF-8 bytes of a text
    every byte starts a code point but the continuation bytes, which are
    those from 128 to 191. *)
Fixpoint len (s : string) : nat :=
  match s with
  | EmptyString => 0
  | String c s' => if in_range 128 191 c then len s' else S (len s')
  end.

(** [str.lower] on one 7-bit character. *)
Definition lower_char (c : ascii) : ascii :=
  if is_upper c then ascii_of_nat (code c + 32) else c.

(** [str.lower] on a text of 7-bit characters. *)
Fixpoint ascii_lower (s : string) : string :=
  match s with
  | EmptyString => EmptyString
  | String c s' => String (lower_char c) (ascii_lower s')
  end.

(** [str.lower], which follows the case mappings of the Unicode database.
    Two facts about it matter to the service.  On a text of 7-bit
    characters it maps [A]-[Z] to [a]-[z] and leaves the rest.  And a
    stretch of text whose lower case consists of 7-bit characters is
    lowered the same wherever it stands (the one rule of [str.lower] that
    looks at the neighbours is that of the Greek capital sigma, whose lower
    case is no 7-bit character). *)
Class Unicode : Type := {
  lower : string -> string;
  lower_ascii : forall s, ascii_only s = true -> lower s = ascii_lower s;
  lower_within : forall before v after,
    ascii_only (lower v) = true ->
    exists b a,
      lower (before ++ v ++ after)%string = (b ++ lower v ++ a)%string
}.

(** [sub] occurs in [s] at its first position. *)
Fixpoint starts_with (sub s : string) : bool :=
  match sub, s with
  | EmptyString, _ => true
  | String a sub', String b s' => Ascii.eqb a b && starts_with sub' s'
  | String _ _, EmptyString => false
  end.

(** [sub in s] *)
Fixpoint contains (sub s : string) : bool :=
  starts_with sub s ||
  match s with
  | EmptyString => false
  | String _ s' => contains sub s'
  end.

(** The scan of [str.count]: left to right, and after an occurrence the
    scan resumes behind it, so that counted occurrences never overlap.
    [skip] is the number of characters still covered by the occurrence
    counted last. *)
Fixpoint count_from (sub : string) (skip : nat) (s : string) : nat :=
  match s with
  | EmptyString => 0
  | String _ s' =>
      match skip with
      | S k => count_from sub k s'
      | O =>
          if starts_with sub s
          then S (count_from sub (String.length sub - 1) s')
          else count_from sub 0 s'
      end
  end.

(** [s.count(sub)]; the empty [sub] occurs between all characters. *)
Definition str_count (s sub : string) : nat :=
  match sub with
  | EmptyString => S (len s)
  | _ => count_from sub 0 s
  end.

(** The number of positions of [s] at which [sub] occurs, overlapping or
    not: the reading of "raw substring occurrences". *)
Fixpoint occurrences (sub s : string) : nat :=
  match s with
  | EmptyString => 0
  | String _ s' =>
      (if starts_with sub s then 1 else 0) + occurrences sub s'
  end.

(** *** The fragment of regular expressions the service compiles

    A pattern is a sequence of atoms; repetition applies to character
    classes only, which is all the three patterns and the identifier check
    use.  Matching is the backtracking search of [re]: a repetition first
    takes as many characters as it can and gives them back one at a time
    while the rest of the pattern fails. *)
Inductive atom : Type :=
| Chr (c : ascii)                                       (* a literal *)
| Rep (cls : ascii -> bool) (lo : nat) (hi : option nat) (* cls{lo,hi} *)
| WordBoundary                                          (* \b *)
| EndAnchor.                                            (* $ *)

Definition regex : Type := list atom.

(** Length of the longest run of [cls] characters at the head of [s], no
    longer than [hi] when there is an upper bound. *)
Fixpoint span_upto (cls : ascii -> bool) (hi : option nat) (s : list ascii)
  : nat :=
  match hi, s with
  | Some O, _ => 0
  | _, [] => 0
  | _, c :: s' =>
      if cls c then S (span_upto cls (Nat.pred <$> hi) s') else 0
  end.

(** Greedy choice with backtracking: try [k], [k-1], ... down to [lo]. *)
Fixpoint backtrack (k lo : nat) (try : nat -> option nat) : option nat :=
  if k <? lo then None
  else match try k with
       | Some r => Some (k + r)
       | None =>
           match k with
           | O => None
           | S k' => backtrack k' lo try
           end
       end.

(** The character before the position reached after consuming [k]
    characters of [s], [prev] being the one before [s]. *)
Definition prev_after (prev : option ascii) (k : nat) (s : list ascii)
  : option ascii :=
  match k with
  | O => prev
  | S k' => s !! k'
  end.

Definition word_at (c : option ascii) : bool :=
  match c with
  | Some x => is_word x
  | None => false
  end.

(** [match_at r prev s]: the length of the match of [r] at the head of
    [s], if there is one; [prev] is the character before [s]. *)
Fixpoint match_at (r : regex) (prev : option ascii) (s : list ascii)
  : option nat :=
  match r with
  | [] => Some 0
  | Chr c :: r' =>
      match s with
      | x :: s' =>
          if Ascii.eqb x c then S <$> match_at r' (Some x) s' else None
      | [] => None
      end
  | Rep cls lo hi :: r' =>
      backtrack (span_upto cls hi s) lo
        (fun k => match_at r' (prev_after prev k s) (drop k s))
  | WordBoundary :: r' =>
      if xorb (word_at prev) (word_at (head s))
      then match_at r' prev s else None
  | EndAnchor :: r' =>
      match s with
      | [] => match_at r' prev s
      | [c] => if code c =? 10 then match_at r' prev s else None
      | _ => None
      end
  end.

(** The scan of [findall]: leftmost matches, none overlapping; [skip]
    counts the characters still covered by the match found last. *)
Fixpoint findall_from (r : regex) (prev : option ascii) (skip : nat)
  (s : list ascii) : list string :=
  match s with
  | [] =>
      match skip, match_at r prev [] with
      | O, Some _ => [EmptyString]
      | _, _ => []
      end
  | c :: s' =>
      match skip with
      | S k => findall_from r (Some c) k s'
      | O =>
          match match_at r prev s with
          | Some n =>
              string_of_list_ascii (take n s)
                :: findall_from r (Some c) (n - 1) s'
          | None => findall_from r (Some c) 0 s'
          end
      end
  end.

(** [pattern.findall(s)] for a pattern without groups. *)
Definition findall (r : regex) (s : string) : list string :=
  findall_from r None 0 (list_ascii_of_string s).

(** [re.match(pattern, s)] is not [None]. *)
Definition re_match (r : regex) (s : string) : bool :=
  bool_decide (is_Some (match_at r None (list_ascii_of_string s))).

Definition literal (s : string) : regex :=
  Chr <$> list_ascii_of_string s.

End Text.

Import Text.

(** The case mappings cut down to the 7-bit characters.  The concrete
    inputs of this development are texts of 7-bit characters, on which
    every [Unicode] agrees with this one ([lower_ascii]). *)
Definition seven_bit : Unicode.
Proof.
  refine {| lower := ascii_lower |}.
  - reflexivity.
  - intros before v after _.
    exists (ascii_lower before), (ascii_lower after).
    assert (H : forall a b,
               ascii_lower (a ++ b)%string
               = (ascii_lower a ++ ascii_lower b)%string).
    { induction a as [|c a IH]; intros b; [reflexivity|].
      change (String c a ++ b)%string with (String c (a ++ b)%string).
      cbn [ascii_lower]. rewrite IH. reflexivity. }
    rewrite !H. reflexivity.
Defined.

(* ===================================================================== *)
(** ** Configuration *)
(* ===================================================================== *)

Definition time : Type := Z.

Definition MAX_SESSIONS : nat := 500.
Definition SESSION_TTL_MINUTES : Z := 30.
Definition MAX_CONVERSATION_HISTORY : nat := 10.
Definition CLEANUP_INTERVAL_SECONDS : Z := 300.
Definition MAX_CALLBACK_RETRIES : nat := 3.
Definition CIRCUIT_BREAKER_THRESHOLD : nat := 5.
Definition CIRCUIT_BREAKER_TIMEOUT : Z := 300.

(** [[a-zA-Z0-9.\-_]{2,}@[a-zA-Z]{3,}] *)
Definition upi_local (c : ascii) : bool :=
  is_alpha c || is_digit c || (code c =? 46) || (code c =? 45)
  || (code c =? 95).

Definition UPI_PATTERN : regex :=
  [Rep upi_local 2 None; Chr "@"; Rep is_alpha 3 None].

(** [\b\d{9,18}\b] *)
Definition BANK_ACCOUNT_PATTERN : regex :=
  [WordBoundary; Rep is_digit 9 (Some 18); WordBoundary].

(** [http[s]?://[^\s]+] *)
Definition URL_PATTERN : regex :=
  literal "http" ++ [Rep (fun c => code c =? 115) 0 (Some 1)]
    ++ literal "://" ++ [Rep (fun c => negb (is_space c)) 1 None].

(** [^[a-zA-Z0-9_-]+$] *)
Definition SESSION_ID_PATTERN : regex :=
  [Rep (fun c => is_alpha c || is_digit c || (code c =? 95)
                 || (code c =? 45)) 1 None;
   EndAnchor].

Definition SCAM_KEYWORDS : list string :=
  ["urgent"; "verify"; "otp"; "cvv"; "block"; "suspend"; "winner"; "prize";
   "refund"; "account"; "password"; "confirm"].

(* ===================================================================== *)
(** ** Data model *)
(* ===================================================================== *)

Inductive category : Type := early | middle | late.

#[global] Instance category_eq_dec : EqDecision category.
Proof. solve_decision. Defined.

(** The three intelligence buckets ([intel], and the pattern part of an
    extraction result). *)
Record Buckets : Type := mkBuckets {
  upi : list string;
  accounts : list string;
  urls : list string
}.

(** What [extract_intelligence] returns. *)
Record Extracted : Type := mkExtracted {
  found : Buckets;
  keywords_found : gmap string nat
}.

(** One history entry, [{"scammer": ..., "agent": ...}]. *)
Record Exchange : Type := mkExchange {
  scammer : string;
  agent : string
}.

(** [SessionState]; the field [scam_score] is never read or written after
    construction and has no counterpart here. *)
Record SessionState : Type := mkSession {
  count : nat;
  intel : Buckets;
  history : list Exchange;
  callback_sent : bool;
  created_at : time;
  last_accessed : time;
  last_response_category : option category;
  keyword_counts : gmap string nat
}.

(** [SessionState()], its two timestamps read from the clock. *)
Definition new_SessionState (t_created t_accessed : time) : SessionState :=
  {| count := 0;
     intel := mkBuckets [] [] [];
     history := [];
     callback_sent := false;
     created_at := t_created;
     last_accessed := t_accessed;
     last_response_category := None;
     keyword_counts := ∅ |}.

(** [metrics]; [average_scam_score] is recomputed by the monitoring endpoint
    and never stored. *)
Record Metrics : Type := mkMetrics {
  active_sessions : nat;
  total_callbacks_sent : nat;
  total_callbacks_failed : nat;
  total_requests : nat;
  circuit_breaker_active : bool;
  circuit_breaker_until : option time
}.

(** The report posted to the collector. *)
Record Report : Type := mkReport {
  sessionId : string;
  scamDetected : bool;
  totalMessagesExchanged : nat;
  bankAccounts : list string;
  upiIds : list string;
  phishingLinks : list string;
  phoneNumbers : list string;
  suspiciousKeywords : list string;
  agentNotes : string
}.

Record FailedCallback : Type := mkFailed {
  failed_session_id : string;
  failed_payload : Report;
  failed_timestamp : time
}.

(** Effects whose order matters, in the order they happen. *)
Inductive effect : Type :=
| Scheduled (session_id : string)  (* asyncio.create_task(send_callback(..)) *)
| FlagSet (session_id : string)    (* session.callback_sent = True *)
| Posted (attempt : nat)           (* await callback_client.post(..) *)
| Slept (seconds : nat).           (* await asyncio.sleep(..) *)

#[global] Instance effect_eq_dec : EqDecision effect.
Proof. solve_decision. Defined.

(** The process-wide state. *)
Record World : Type := mkWorld {
  sessions : list (string * SessionState);
  metrics : Metrics;
  failed_callbacks : list FailedCallback;
  tasks : list string;      (* dispatches handed to the event loop *)
  journal : list effect
}.

Definition initial_metrics : Metrics :=
  {| active_sessions := 0; total_callbacks_sent := 0;
     total_callbacks_failed := 0; total_requests := 0;
     circuit_breaker_active := false; circuit_breaker_until := None |}.

Definition initial_world : World :=
  {| sessions := []; metrics := initial_metrics; failed_callbacks := [];
     tasks := []; journal := [] |}.

(* ===================================================================== *)
(** ** State and exceptions *)
(* ===================================================================== *)

(** Where a fault can be injected into the [try] block of the message
    handler: at each of its blocks, as its comments name them, in which case
    it is raised before the block does anything; and, when the trigger
    fires, behind the scheduling of the dispatch and behind the assignment
    of the flag. *)
Inductive stage : Type :=
| InSessionInit   (* INITIALIZE OR RETRIEVE SESSION *)
| InTouch         (* move to end, access time, count *)
| InExtract       (* EXTRACT INTELLIGENCE *)
| InRespond       (* GENERATE RESPONSE *)
| InHistory       (* STORE CONVERSATION HISTORY *)
| InTrigger       (* CALLBACK TRIGGER LOGIC *)
| AfterSchedule   (* behind asyncio.create_task(..), line 534 *)
| AfterFlag.      (* behind session.callback_sent = True, line 535 *)

#[global] Instance stage_eq_dec : EqDecision stage.
Proof. solve_decision. Defined.

Inductive exn : Type :=
| ValidationError
| KeyError
| IndexError
| TypeError
| RuntimeFault (at_stage : stage).

Inductive result (A : Type) : Type :=
| Ok (a : A)
| Raised (e : exn).
Arguments Ok {A} a.
Arguments Raised {A} e.

(** A computation over a state [S]: the state is returned also when the
    computation raises, with whatever was written before the raise. *)
Definition M (S A : Type) : Type := S -> result A * S.

Definition ret {S A} (a : A) : M S A := fun s => (Ok a, s).

Definition bind {S A B} (m : M S A) (k : A -> M S B) : M S B :=
  fun s =>
    match m s with
    | (Ok a, s') => k a s'
    | (Raised e, s') => (Raised e, s')
    end.

Definition raise {S A} (e : exn) : M S A := fun s => (Raised e, s).

(** [try: m  except Exception: h] *)
Definition try_except {S A} (m : M S A) (h : exn -> M S A) : M S A :=
  fun s =>
    match m s with
    | (Ok a, s') => (Ok a, s')
    | (Raised e, s') => h e s'
    end.

Definition get {S} : M S S := fun s => (Ok s, s).
Definition modify {S} (f : S -> S) : M S unit := fun s => (Ok tt, f s).

Notation "x <- m ;; k" := (bind m (fun x => k))
  (at level 100, m at level 99, k at level 200, right associativity).
Notation "m ;; k" := (bind m (fun _ => k))
  (at level 100, k at level 200, right associativity).

Section Service.

(** Everything below holds whatever the tables of [str.lower] are. *)
Context `{unicode : Unicode}.

(* ===================================================================== *)
(** ** Intelligence extraction *)
(* ===================================================================== *)

(** The first loop of [extract_intelligence]: the per-call keyword map and
    the per-call score. *)
Definition scan_keywords (message_lower : string) : gmap string nat * nat :=
  foldl (fun acc keyword =>
           let cnt := str_count message_lower keyword in
           if 0 <? cnt
           then (<[keyword := cnt]> (fst acc), snd acc + cnt)
           else acc)
        (∅, 0) SCAM_KEYWORDS.

(** The second loop: fold the per-call counts into the cumulative ones. *)
Definition accumulate (hits counts : gmap string nat) : gmap string nat :=
  map_fold (fun keyword cnt acc =>
              <[keyword := default 0 (acc !! keyword) + cnt]> acc)
           counts hits.

Definition set_keyword_counts (kc : gmap string nat) (s : SessionState)
  : SessionState :=
  {| count := count s; intel := intel s; history := history s;
     callback_sent := callback_sent s; created_at := created_at s;
     last_accessed := last_accessed s;
     last_response_category := last_response_category s;
     keyword_counts := kc |}.

Definition empty_extracted : Extracted :=
  {| found := mkBuckets [] [] []; keywords_found := ∅ |}.

Definition extract_intelligence (message : string) (session : SessionState)
  : Extracted * SessionState :=
  if len message <? 10 then (empty_extracted, session)
  else
    let message_lower := lower message in
    let '(hits, keyword_score) := scan_keywords message_lower in
    let session' :=
      set_keyword_counts (accumulate hits (keyword_counts session)) session in
    if 0 <? keyword_score
    then ({| found := {| upi := findall UPI_PATTERN message;
                         accounts := findall BANK_ACCOUNT_PATTERN message;
                         urls := findall URL_PATTERN message |};
             keywords_found := hits |}, session')
    else ({| found := mkBuckets [] [] []; keywords_found := hits |},
          session').

(* ===================================================================== *)
(** ** Response selection *)
(* ===================================================================== *)

Definition RESPONSES (c : category) : list string :=
  match c with
  | early =>
      ["Hello? Yes, I am here. What is this about?";
       "I don't understand. Can you explain slowly?";
       "Is this about my pension? I'm not good with phones.";
       "Who is calling? I can't hear you properly.";
       "Wait, let me put on my hearing aid."]
  | middle =>
      ["Oh no, is my account really blocked? I'm worried!";
       "What should I do? Please help me, I don't want to lose my money.";
       "Should I give you my card details? I trust you.";
       "My son told me to be careful, but you sound official.";
       "How much money do I need to pay to fix this?"]
  | late =>
      ["Wait, let me find my glasses. One minute please.";
       "My grandson is not home. Can you call back in 10 minutes?";
       "What is your name and company? I want to verify this.";
       "I need to write this down. Please speak slowly.";
       "Can you send me a letter instead? I don't trust phone calls."]
  end.

(** [random.choice(l)], [draw] being the random number behind it. *)
Definition random_choice {S A} (draw : nat) (l : list A) : M S A :=
  match l !! (draw mod length l) with
  | Some x => ret x
  | None => raise IndexError
  end.

Definition set_last_response_category (c : option category)
  (s : SessionState) : SessionState :=
  {| count := count s; intel := intel s; history := history s;
     callback_sent := callback_sent s; created_at := created_at s;
     last_accessed := last_accessed s;
     last_response_category := c;
     keyword_counts := keyword_counts s |}.

(** The response category of an interaction count. *)
Definition category_of (n : nat) : category :=
  if n <=? 5 then early
  else if n <=? 10 then middle
  else late.

Definition generate_response (draw : nat) : M SessionState string :=
  session <- get ;;
  let cat := category_of (count session) in
  let available_responses := RESPONSES cat in
  response <-
    (if bool_decide (last_response_category session = Some cat)
        && (1 <? length available_responses)
     then random_choice draw available_responses
     else random_choice draw available_responses) ;;
  modify (set_last_response_category (Some cat)) ;;
  ret response.

(* ===================================================================== *)
(** ** The session store *)
(* ===================================================================== *)

Definition store : Type := list (string * SessionState).

(** [sessions.get(sid)] *)
Fixpoint lookup_session (sid : string) (st : store) : option SessionState :=
  match st with
  | [] => None
  | (k, s) :: rest =>
      if String.eqb k sid then Some s else lookup_session sid rest
  end.

(** [del sessions[sid]] *)
Fixpoint del_session (sid : string) (st : store) : store :=
  match st with
  | [] => []
  | (k, s) :: rest =>
      if String.eqb k sid then del_session sid rest
      else (k, s) :: del_session sid rest
  end.

(** A write through the reference [sessions[sid]]: the entry keeps its place. *)
Fixpoint update_session (sid : string) (f : SessionState -> SessionState)
  (st : store) : store :=
  match st with
  | [] => []
  | (k, s) :: rest =>
      if String.eqb k sid then (k, f s) :: update_session sid f rest
      else (k, s) :: update_session sid f rest
  end.

Definition set_sessions (st : store) (w : World) : World :=
  {| sessions := st; metrics := metrics w;
     failed_callbacks := failed_callbacks w; tasks := tasks w;
     journal := journal w |}.

Definition set_metrics (m : Metrics) (w : World) : World :=
  {| sessions := sessions w; metrics := m;
     failed_callbacks := failed_callbacks w; tasks := tasks w;
     journal := journal w |}.

Definition log_effect (e : effect) (w : World) : World :=
  {| sessions := sessions w; metrics := metrics w;
     failed_callbacks := failed_callbacks w; tasks := tasks w;
     journal := journal w ++ [e] |}.

(** The loop of [enforce_session_limit]; every round deletes the first key
    of the dictionary, so [length st] rounds are always enough. *)
Fixpoint evict_loop (rounds : nat) (st : store) : store :=
  match rounds with
  | O => st
  | S n =>
      if MAX_SESSIONS <? length st then
        match st with
        | (oldest_sid, _) :: _ => evict_loop n (del_session oldest_sid st)
        | [] => st
        end
      else st
  end.

Definition enforce_session_limit : M World unit :=
  modify (fun w => set_sessions (evict_loop (length (sessions w)) (sessions w)) w).

(** [sessions.move_to_end(sid)] *)
Definition move_to_end (sid : string) : M World unit :=
  w <- get ;;
  match lookup_session sid (sessions w) with
  | Some s =>
      modify (set_sessions (del_session sid (sessions w) ++ [(sid, s)]))
  | None => raise KeyError
  end.

(** Run session-level code on the object [sessions[sid]]. *)
Definition on_session {A} (sid : string) (m : M SessionState A) : M World A :=
  fun w =>
    match lookup_session sid (sessions w) with
    | Some s =>
        let '(r, s') := m s in
        (r, set_sessions (update_session sid (fun _ => s') (sessions w)) w)
    | None => (Raised KeyError, w)
    end.

(** One cycle of [session_cleanup_task], after its sleep. *)
Definition cleanup_cycle (now : time) (w : World) : World :=
  let ttl_threshold := (now - SESSION_TTL_MINUTES * 60)%Z in
  let expired_sessions :=
    (filter (fun e => (last_accessed (snd e) < ttl_threshold)%Z)
            (sessions w)).*1 in
  let st := foldl (fun st sid => del_session sid st) (sessions w)
                  expired_sessions in
  let m := metrics w in
  set_metrics
    {| active_sessions := length st;
       total_callbacks_sent := total_callbacks_sent m;
       total_callbacks_failed := total_callbacks_failed m;
       total_requests := total_requests m;
       circuit_breaker_active := circuit_breaker_active m;
       circuit_breaker_until := circuit_breaker_until m |}
    (set_sessions st w).

(* ===================================================================== *)
(** ** Callback dispatch *)
(* ===================================================================== *)

Inductive Outcome : Type :=
| Http (status_code : nat)   (* a response arrived *)
| TransportError.            (* the call raised *)

(** What one run of [send_callback] reads from outside: the clock at the
    breaker gate, the outcome of each attempt, the clock when the breaker is
    opened and the clock when the failure is queued. *)
Record Net : Type := mkNet {
  gate_clock : time;
  outcome : nat -> Outcome;
  open_clock : time;
  queue_clock : time
}.

(** [sum(d.values())] *)
Definition sum_values (d : gmap string nat) : nat :=
  map_fold (fun _ v acc => v + acc) 0 d.

(** [list(set(l))] *)
Definition dedup (l : list string) : list string :=
  elements (list_to_set l : gset string).

Definition build_report (session_id : string) (session_data : SessionState)
  : Report :=
  {| sessionId := session_id;
     scamDetected := true;
     totalMessagesExchanged := count session_data;
     bankAccounts := dedup (accounts (intel session_data));
     upiIds := dedup (upi (intel session_data));
     phishingLinks := dedup (urls (intel session_data));
     phoneNumbers := [];
     suspiciousKeywords := (map_to_list (keyword_counts session_data)).*1;
     agentNotes :=
       "Used urgency and account-block threats to extract payment info" |}.

Definition set_breaker (active : bool) (until : option time) (failed : nat)
  (m : Metrics) : Metrics :=
  {| active_sessions := active_sessions m;
     total_callbacks_sent := total_callbacks_sent m;
     total_callbacks_failed := failed;
     total_requests := total_requests m;
     circuit_breaker_active := active;
     circuit_breaker_until := until |}.

Definition count_sent (m : Metrics) : Metrics :=
  {| active_sessions := active_sessions m;
     total_callbacks_sent := total_callbacks_sent m + 1;
     total_callbacks_failed := total_callbacks_failed m;
     total_requests := total_requests m;
     circuit_breaker_active := circuit_breaker_active m;
     circuit_breaker_until := circuit_breaker_until m |}.

(** The circuit-breaker check at the head of [send_callback]; [true] means
    the dispatch is skipped. *)
Definition breaker_gate (net : Net) : M World bool :=
  w <- get ;;
  let m := metrics w in
  if circuit_breaker_active m then
    match circuit_breaker_until m with
    | None => raise TypeError
    | Some until =>
        if (gate_clock net <? until)%Z then ret true
        else
          modify (set_metrics (set_breaker false (circuit_breaker_until m) 0 m)) ;;
          ret false
    end
  else ret false.

(** The retry loop, [for attempt in range(MAX_CALLBACK_RETRIES)], entered
    at [attempt] with [remaining] rounds to go; [true] is the early
    [return True]. *)
Fixpoint deliver (net : Net) (attempt remaining : nat) : M World bool :=
  match remaining with
  | O => ret false
  | S remaining' =>
      modify (log_effect (Posted attempt)) ;;
      match outcome net attempt with
      | Http status_code =>
          if status_code =? 200 then
            modify (fun w => set_metrics (count_sent (metrics w)) w) ;;
            ret true
          else deliver net (S attempt) remaining'
      | TransportError =>
          (if attempt <? MAX_CALLBACK_RETRIES - 1
           then modify (log_effect (Slept (2 ^ attempt)))
           else ret tt) ;;
          deliver net (S attempt) remaining'
      end
  end.

(** The code behind the loop: all retries failed. *)
Definition all_retries_failed (net : Net) (session_id : string)
  (payload : Report) : M World unit :=
  modify (fun w =>
            let m := metrics w in
            set_metrics
              (set_breaker (circuit_breaker_active m)
                 (circuit_breaker_until m) (total_callbacks_failed m + 1) m)
              w) ;;
  w <- get ;;
  let m := metrics w in
  (if CIRCUIT_BREAKER_THRESHOLD <=? total_callbacks_failed m
   then modify (set_metrics
                  (set_breaker true
                     (Some (open_clock net + CIRCUIT_BREAKER_TIMEOUT)%Z)
                     (total_callbacks_failed m) m))
   else ret tt) ;;
  modify (fun w =>
            {| sessions := sessions w; metrics := metrics w;
               failed_callbacks :=
                 failed_callbacks w
                   ++ [mkFailed session_id payload (queue_clock net)];
               tasks := tasks w; journal := journal w |}).

Definition send_callback (net : Net) (session_id : string)
  (session_data : SessionState) : M World bool :=
  skipped <- breaker_gate net ;;
  if skipped then ret false
  else
    let payload := build_report session_id session_data in
    delivered <- deliver net 0 MAX_CALLBACK_RETRIES ;;
    if delivered then ret true
    else
      all_retries_failed net session_id payload ;;
      ret false.

(* ===================================================================== *)
(** ** The message handler *)
(* ===================================================================== *)

(** The parsed request body, as far as the handler looks at it.
    - [NoMessage]: the body cannot be read as JSON, or is falsy ([null],
      [false], [0], an empty string, array or object), or is an object,
      array or string in which ["message"] does not occur.
    - [Scalar]: a number other than 0, or [true]; the test
      ["message" not in payload] raises [TypeError] on it.
    - [Untyped]: ["message"] occurs, but the construction of
      [MessageRequest] does not get the fields it needs, or gets them with
      the wrong types (also a string or an array in which ["message"]
      occurs).
    - [Fields]: an object with the fields of [MessageRequest]. *)
Inductive Payload : Type :=
| NoMessage
| Scalar
| Untyped
| Fields (session_id : string) (text : string).

Inductive Response : Type :=
| Unauthorized             (* status 401 *)
| Success (reply : string).

(** What one run of the handler reads from outside. *)
Record Env : Type := mkEnv {
  API_KEY : string;
  created_clock : time;    (* default of created_at *)
  accessed_clock : time;   (* default of last_accessed *)
  touch_clock : time;      (* the reading stored on every message *)
  draw : nat;              (* random.choice *)
  fault : option stage     (* where the runtime raises, if it does *)
}.

Definition suspicious_patterns : list string :=
  ["<script"; "javascript:"; "DROP TABLE"; "SELECT *"].

Definition validate_session_id (v : string) : bool :=
  re_match SESSION_ID_PATTERN v.

Definition validate_message (text : string) : bool :=
  negb (existsb (fun pattern => contains (lower pattern) (lower text))
          suspicious_patterns)
  && negb ((len text <? 1) || (1000 <? len text)).

(** The field constraints and the two validators of [MessageRequest]. *)
Definition valid_request (session_id text : string) : bool :=
  (1 <=? len session_id)
  && (len session_id <=? 64)
  && validate_session_id session_id
  && validate_message text.

(** The construction of [MessageRequest] from the payload: the validated
    identifier and text. *)
Definition MessageRequest (payload : Payload) : M World (string * string) :=
  match payload with
  | Fields session_id text =>
      if valid_request session_id text then ret (session_id, text)
      else raise ValidationError
  | _ => raise ValidationError
  end.

Definition checkpoint (env : Env) (st : stage) : M World unit :=
  if bool_decide (fault env = Some st) then raise (RuntimeFault st)
  else ret tt.

Definition touch (now : time) (s : SessionState) : SessionState :=
  {| count := count s + 1; intel := intel s; history := history s;
     callback_sent := callback_sent s; created_at := created_at s;
     last_accessed := now;
     last_response_category := last_response_category s;
     keyword_counts := keyword_counts s |}.

Definition extend_intel (b : Buckets) (s : SessionState) : SessionState :=
  {| count := count s;
     intel := {| upi := upi (intel s) ++ upi b;
                 accounts := accounts (intel s) ++ accounts b;
                 urls := urls (intel s) ++ urls b |};
     history := history s;
     callback_sent := callback_sent s; created_at := created_at s;
     last_accessed := last_accessed s;
     last_response_category := last_response_category s;
     keyword_counts := keyword_counts s |}.

(** [l[-n:]] for [n > 0] *)
Definition last_n {A} (n : nat) (l : list A) : list A :=
  drop (length l - n) l.

Definition store_history (scam_text reply : string) (s : SessionState)
  : SessionState :=
  let h := history s ++ [mkExchange scam_text reply] in
  {| count := count s; intel := intel s;
     history := if MAX_CONVERSATION_HISTORY <? length h
                then last_n MAX_CONVERSATION_HISTORY h else h;
     callback_sent := callback_sent s; created_at := created_at s;
     last_accessed := last_accessed s;
     last_response_category := last_response_category s;
     keyword_counts := keyword_counts s |}.

Definition set_callback_sent (b : bool) (s : SessionState) : SessionState :=
  {| count := count s; intel := intel s; history := history s;
     callback_sent := b; created_at := created_at s;
     last_accessed := last_accessed s;
     last_response_category := last_response_category s;
     keyword_counts := keyword_counts s |}.

Definition nonempty {A} (l : list A) : bool :=
  match l with [] => false | _ => true end.

(** The decision of the callback trigger. *)
Definition should_callback (session : SessionState) (intel : Extracted)
  : bool :=
  let total_keyword_score := sum_values (keyword_counts session) in
  let has_sensitive_data :=
    nonempty (upi (found intel)) || nonempty (accounts (found intel))
    || nonempty (urls (found intel)) in
  let scam_confirmed := (3 <=? total_keyword_score) && has_sensitive_data in
  ((15 <=? count session) || scam_confirmed) && negb (callback_sent session).

(** [asyncio.create_task(send_callback(session_id, session))] *)
Definition create_task (session_id : string) : M World unit :=
  modify (fun w =>
            {| sessions := sessions w; metrics := metrics w;
               failed_callbacks := failed_callbacks w;
               tasks := tasks w ++ [session_id];
               journal := journal w ++ [Scheduled session_id] |}).

(** [session.callback_sent = True] *)
Definition mark_callback_sent (session_id : string) : M World unit :=
  on_session session_id (modify (set_callback_sent true)) ;;
  modify (log_effect (FlagSet session_id)).

Definition fallback_reply : string :=
  "I’m not sure what you mean. Can you explain?".

Definition honeypot (env : Env) (x_api_key : option string)
  (payload : Payload) : M World Response :=
  if negb (bool_decide (x_api_key = Some (API_KEY env))) then
    ret Unauthorized
  else
    match payload with
    | NoMessage => ret (Success "Hello? Who is this?")
    | Scalar => raise TypeError
    | _ =>
        try_except
          (data <- MessageRequest payload ;;
           let session_id := fst data in
           let scam_text := snd data in
           checkpoint env InSessionInit ;;
           w <- get ;;
           (if negb (bool_decide
                       (is_Some (lookup_session session_id (sessions w))))
            then
              modify (set_sessions
                        (sessions w ++
                           [(session_id,
                             new_SessionState (created_clock env)
                               (accessed_clock env))])) ;;
              enforce_session_limit
            else ret tt) ;;
           checkpoint env InTouch ;;
           move_to_end session_id ;;
           on_session session_id (modify (touch (touch_clock env))) ;;
           checkpoint env InExtract ;;
           intel <- on_session session_id
                      (fun s => let '(x, s') := extract_intelligence scam_text s
                                in (Ok x, s')) ;;
           on_session session_id (modify (extend_intel (found intel))) ;;
           checkpoint env InRespond ;;
           reply <- on_session session_id (generate_response (draw env)) ;;
           checkpoint env InHistory ;;
           on_session session_id (modify (store_history scam_text reply)) ;;
           checkpoint env InTrigger ;;
           session <- on_session session_id get ;;
           (if should_callback session intel then
              create_task session_id ;;
              checkpoint env AfterSchedule ;;
              mark_callback_sent session_id ;;
              checkpoint env AfterFlag
            else ret tt) ;;
           ret (Success reply))
          (fun _ => ret (Success fallback_reply))
    end.

(* ===================================================================== *)
(** ** Runs of the service *)
(* ===================================================================== *)

(** What the event loop can do next: handle a request, run one cycle of the
    cleanup task, or go on with a dispatch.  A dispatch suspends at every
    POST and at every sleep, so the loop runs it in phases, and anything
    may run between two of them: the check of the breaker (with the report
    built behind it), the arrival of the answer to one POST, the end of one
    sleep, and the bookkeeping behind the last failed attempt.  [Dispatch]
    is a dispatch that is not interrupted.  The phases come in any order
    here: a run need not go through them as one dispatch would, which makes
    the runs more, not fewer. *)
Inductive step : Type :=
| Message (env : Env) (x_api_key : option string) (payload : Payload)
| Cleanup (now : time)
| Dispatch (net : Net) (session_id : string) (session_data : SessionState)
| DispatchGate (net : Net)                         (* lines 373-405 *)
| DispatchPost (net : Net) (attempt : nat)         (* lines 410-424 *)
| DispatchSleep (attempt : nat)                    (* line 428 *)
| DispatchFailed (net : Net) (session_id : string)
    (payload : Report).                            (* lines 431-442 *)

(** The answer to the POST of [attempt] has arrived. *)
Definition post_attempt (net : Net) (attempt : nat) (w : World) : World :=
  let w1 := log_effect (Posted attempt) w in
  match outcome net attempt with
  | Http status_code =>
      if status_code =? 200 then set_metrics (count_sent (metrics w1)) w1
      else w1
  | TransportError => w1
  end.

(** Line 535 assigns [True] to a declared field of the session, which
    cannot raise by itself: in a run no fault separates the scheduling of a
    dispatch from the flag.  (The fault [AfterSchedule] serves to say what
    the [except] branch would do there.) *)
Definition in_run (env : Env) : Env :=
  if bool_decide (fault env = Some AfterSchedule)
  then {| API_KEY := API_KEY env; created_clock := created_clock env;
          accessed_clock := accessed_clock env;
          touch_clock := touch_clock env; draw := draw env;
          fault := None |}
  else env.

Definition do_step (e : step) (w : World) : World :=
  match e with
  | Message env x_api_key payload =>
      snd (honeypot (in_run env) x_api_key payload w)
  | Cleanup now => cleanup_cycle now w
  | Dispatch net session_id session_data =>
      snd (send_callback net session_id session_data w)
  | DispatchGate net => snd (breaker_gate net w)
  | DispatchPost net attempt => post_attempt net attempt w
  | DispatchSleep attempt => log_effect (Slept (2 ^ attempt)) w
  | DispatchFailed net session_id payload =>
      snd (all_retries_failed net session_id payload w)
  end.

Definition run (steps : list step) (w : World) : World :=
  foldl (fun w e => do_step e w) w steps.

(** A step that is no phase of an interrupted dispatch. *)
Definition whole (e : step) : bool :=
  match e with
  | Message _ _ _ | Cleanup _ | Dispatch _ _ _ => true
  | _ => false
  end.

(** The phases that the retry loop goes through from [attempt] with
    [remaining] rounds to go, and whether it ends in the early
    [return True]. *)
Fixpoint loop_phases (net : Net) (attempt remaining : nat)
  : list step * bool :=
  match remaining with
  | O => ([], false)
  | S remaining' =>
      match outcome net attempt with
      | Http status_code =>
          if status_code =? 200 then ([DispatchPost net attempt], true)
          else
            let (l, delivered) := loop_phases net (S attempt) remaining' in
            (DispatchPost net attempt :: l, delivered)
      | TransportError =>
          let (l, delivered) := loop_phases net (S attempt) remaining' in
          (DispatchPost net attempt
             :: (if attempt <? MAX_CALLBACK_RETRIES - 1
                 then [DispatchSleep attempt] else []) ++ l,
           delivered)
      end
  end.

(** The phases of the dispatch for [session_id] whose check of the breaker
    runs in [w]. *)
Definition phases (net : Net) (session_id : string)
  (session_data : SessionState) (w : World) : list step :=
  DispatchGate net
    :: match fst (breaker_gate net w) with
       | Ok false =>
           let (l, delivered) := loop_phases net 0 MAX_CALLBACK_RETRIES in
           l ++ (if delivered then []
                 else [DispatchFailed net session_id
                         (build_report session_id session_data)])
       | _ => []
       end.

(** *** Observations on a world *)

Definition alive (sid : string) (w : World) : bool :=
  bool_decide (is_Some (lookup_session sid (sessions w))).

(** The flag of the session stored under [sid]; [false] when there is none. *)
Definition flag (sid : string) (w : World) : bool :=
  match lookup_session sid (sessions w) with
  | Some s => callback_sent s
  | None => false
  end.

(** 1 when [sid] has a session that has not sent its callback yet. *)
Definition pending (sid : string) (w : World) : nat :=
  if alive sid w && negb (flag sid w) then 1 else 0.

(** Number of dispatches ever scheduled for [sid]. *)
Definition scheduled (sid : string) (w : World) : nat :=
  length (filter (fun x => x = sid) (tasks w)).

(** 1 when the step from [w] to [w'] starts a session under [sid]. *)
Definition born (sid : string) (w w' : World) : nat :=
  if negb (alive sid w) && alive sid w' then 1 else 0.

(** 1 when the flag of [sid] goes from false to true between [w] and [w']. *)
Definition rise (sid : string) (w w' : World) : nat :=
  if negb (flag sid w) && flag sid w' then 1 else 0.

(** Sessions started under [sid], and false-to-true transitions of its
    flag, along a run from [w]. *)
Fixpoint births (sid : string) (steps : list step) (w : World) : nat :=
  match steps with
  | [] => 0
  | e :: rest => born sid w (do_step e w) + births sid rest (do_step e w)
  end.

Fixpoint rises (sid : string) (steps : list step) (w : World) : nat :=
  match steps with
  | [] => 0
  | e :: rest => rise sid w (do_step e w) + rises sid rest (do_step e w)
  end.

(** *** The handler in closed form

    The states a session goes through while one message is handled, and the
    world the handler leaves behind; [honeypot_closed] below shows that this
    is what [honeypot] computes. *)

Definition ensure_session (env : Env) (sid : string) (st : store) : store :=
  if bool_decide (is_Some (lookup_session sid st)) then st
  else
    let st' :=
      st ++ [(sid, new_SessionState (created_clock env) (accessed_clock env))]
    in evict_loop (length st') st'.

Definition current (env : Env) (sid : string) (st : store) : SessionState :=
  default (new_SessionState (created_clock env) (accessed_clock env))
          (lookup_session sid (ensure_session env sid st)).

Definition others (env : Env) (sid : string) (st : store) : store :=
  del_session sid (ensure_session env sid st).

Definition after_touch (env : Env) (s : SessionState) : SessionState :=
  touch (touch_clock env) s.

Definition extraction (env : Env) (text : string) (s : SessionState)
  : Extracted :=
  fst (extract_intelligence text (after_touch env s)).

Definition after_extract (env : Env) (text : string) (s : SessionState)
  : SessionState :=
  extend_intel (found (extraction env text s))
    (snd (extract_intelligence text (after_touch env s))).

Definition reply_for (env : Env) (text : string) (s : SessionState) : string :=
  let l := RESPONSES (category_of (count (after_extract env text s))) in
  default "" (l !! (draw env mod length l)).

Definition after_respond (env : Env) (text : string) (s : SessionState)
  : SessionState :=
  set_last_response_category
    (Some (category_of (count (after_extract env text s))))
    (after_extract env text s).

Definition after_history (env : Env) (text : string) (s : SessionState)
  : SessionState :=
  store_history text (reply_for env text s) (after_respond env text s).

Definition fires (env : Env) (text : string) (s : SessionState) : bool :=
  should_callback (after_history env text s) (extraction env text s).

Definition after_message (env : Env) (text : string) (s : SessionState)
  : SessionState :=
  if fires env text s then set_callback_sent true (after_history env text s)
  else after_history env text s.

Definition handled (env : Env) (sid text : string) (w : World)
  : Response * World :=
  let s0 := current env sid (sessions w) in
  let rest := others env sid (sessions w) in
  match fault env with
  | Some InSessionInit => (Success fallback_reply, w)
  | Some InTouch =>
      (Success fallback_reply, set_sessions (ensure_session env sid (sessions w)) w)
  | Some InExtract =>
      (Success fallback_reply,
       set_sessions (rest ++ [(sid, after_touch env s0)]) w)
  | Some InRespond =>
      (Success fallback_reply,
       set_sessions (rest ++ [(sid, after_extract env text s0)]) w)
  | Some InHistory =>
      (Success fallback_reply,
       set_sessions (rest ++ [(sid, after_respond env text s0)]) w)
  | Some InTrigger =>
      (Success fallback_reply,
       set_sessions (rest ++ [(sid, after_history env text s0)]) w)
  | Some AfterSchedule =>
      if fires env text s0 then
        (Success fallback_reply,
         {| sessions := rest ++ [(sid, after_history env text s0)];
            metrics := metrics w;
            failed_callbacks := failed_callbacks w;
            tasks := tasks w ++ [sid];
            journal := journal w ++ [Scheduled sid] |})
      else
        (Success (reply_for env text s0),
         set_sessions (rest ++ [(sid, after_message env text s0)]) w)
  | Some AfterFlag =>
      if fires env text s0 then
        (Success fallback_reply,
         {| sessions := rest ++ [(sid, after_message env text s0)];
            metrics := metrics w;
            failed_callbacks := failed_callbacks w;
            tasks := tasks w ++ [sid];
            journal := journal w ++ [Scheduled sid; FlagSet sid] |})
      else
        (Success (reply_for env text s0),
         set_sessions (rest ++ [(sid, after_message env text s0)]) w)
  | None =>
      (Success (reply_for env text s0),
       if fires env text s0 then
         {| sessions := rest ++ [(sid, after_message env text s0)];
            metrics := metrics w;
            failed_callbacks := failed_callbacks w;
            tasks := tasks w ++ [sid];
            journal := journal w ++ [Scheduled sid; FlagSet sid] |}
       else set_sessions (rest ++ [(sid, after_message env text s0)]) w)
  end.


(** [a] happens before [b] in the journal [j]. *)
Definition precedes (a b : effect) (j : list effect) : Prop :=
  exists i k, i < k /\ j !! i = Some a /\ j !! k = Some b.

(* ===================================================================== *)
(** ** Concrete inputs *)
(* ===================================================================== *)

Definition demo_env : Env :=
  {| API_KEY := "buildathon-secret-2026";
     created_clock := 100%Z; accessed_clock := 100%Z;
     touch_clock := 100%Z;
     draw := 7; fault := None |}.

Definition demo_key : option string := Some "buildathon-secret-2026".

(** Three keyword occurrences and a URL: enough to confirm a scam. *)
Definition scam_text : string := "urgent verify otp http://pay.example/x".

(** No keyword at all. *)
Definition small_talk : string := "hello there, how are you".

Definition scam_message (sid : string) : step :=
  Message demo_env demo_key (Fields sid scam_text).

Definition chat_message (sid : string) : step :=
  Message demo_env demo_key (Fields sid small_talk).

(** *** Frame conditions *)

(** A computation that leaves the session store and the task list alone. *)
Definition keeps_sessions {A} (m : M World A) : Prop :=
  forall w, sessions (snd (m w)) = sessions w /\ tasks (snd (m w)) = tasks w.

(** A step that schedules nothing for [sid] and leaves its session as it
    is, or removes it. *)
Definition quiet (sid : string) (w w' : World) : Prop :=
  scheduled sid w' = scheduled sid w
  /\ (lookup_session sid (sessions w') = lookup_session sid (sessions w)
      \/ lookup_session sid (sessions w') = None).

(** A session that has waited through one message without keywords, then
    three messages that each confirm a scam. *)
Definition waiting_world : World := run [chat_message "s1"] initial_world.

Definition three_scams : list step :=
  [scam_message "s1"; scam_message "s1"; scam_message "s1"].

(** A collector that answers every attempt with status 500, and one that
    cannot be reached at all. *)
Definition net_http_500 : Net :=
  {| gate_clock := 1000%Z; outcome := fun _ => Http 500;
     open_clock := 1000%Z; queue_clock := 1000%Z |}.

Definition net_unreachable : Net :=
  {| gate_clock := 1000%Z; outcome := fun _ => TransportError;
     open_clock := 1000%Z; queue_clock := 1000%Z |}.

(** The world after [n] failed dispatches, the breaker still closed, and
    the world with the breaker open until [until]. *)
Definition world_failed (n : nat) : World :=
  set_metrics (set_breaker false None n initial_metrics) initial_world.

Definition world_open (until : time) : World :=
  set_metrics (set_breaker true (Some until) 5 initial_metrics) initial_world.

Definition blank_session : SessionState := new_SessionState 0%Z 0%Z.

(** Dispatches for [ids] that overlap, the collector out of reach: all of
    them pass the check of the breaker before any has failed; the answers
    to their first and second POST and the ends of their sleeps come in
    turn; then the answer to the third POST of each comes, with the
    bookkeeping of the failure right behind it. *)
Definition overlapping (ids : list string) : list step :=
  let net := net_unreachable in
  ((fun _ => DispatchGate net) <$> ids)
    ++ ((fun _ => DispatchPost net 0) <$> ids)
    ++ ((fun _ => DispatchSleep 0) <$> ids)
    ++ ((fun _ => DispatchPost net 1) <$> ids)
    ++ ((fun _ => DispatchSleep 1) <$> ids)
    ++ (ids ≫= fun sid =>
          [DispatchPost net 2;
           DispatchFailed net sid (build_report sid blank_session)]).


(** The interaction count stored under [sid]; 0 when there is no session. *)
Definition count_of (sid : string) (w : World) : nat :=
  match lookup_session sid (sessions w) with
  | Some s => count s
  | None => 0
  end.

(** The history stored under [sid]; empty when there is no session. *)
Definition history_of (sid : string) (w : World) : list Exchange :=
  match lookup_session sid (sessions w) with
  | Some s => history s
  | None => []
  end.

(** Ten messages to one session, and the world they leave. *)
Definition ten_messages : list step := replicate 10 (chat_message "s1").
Definition ten_deep_world : World := run ten_messages initial_world.

(** A store entry whose history is within the bound. *)
Definition short_history (e : string * SessionState) : Prop :=
  length (history (snd e)) <= MAX_CONVERSATION_HISTORY.

(** 500 distinct session identifiers, [aa], [ab], ..., and a store that
    holds one session for each, oldest first. *)
Definition name_of (i : nat) : string :=
  String (ascii_of_nat (97 + i / 26))
    (String (ascii_of_nat (97 + i mod 26)) EmptyString).

Definition full_world : World :=
  set_sessions ((fun i => (name_of i, blank_session)) <$> seq 0 MAX_SESSIONS)
    initial_world.

(* ===================================================================== *)
(** ** Notions about keywords *)
(* ===================================================================== *)

(** [s[n:]] *)
Fixpoint sdrop (n : nat) (s : string) : string :=
  match n, s with
  | O, _ => s
  | S n', String _ s' => sdrop n' s'
  | S _, EmptyString => EmptyString
  end.

(** No proper suffix of [sub] is a prefix of it, so two occurrences of
    [sub] cannot overlap. *)
Definition unbordered (sub : string) : bool :=
  forallb (fun j => negb (starts_with (sdrop j sub) sub))
          (seq 1 (String.length sub - 1)).

Definition plain_keyword (sub : string) : bool :=
  unbordered sub && negb (String.eqb sub "").

(** The per-call keyword score: all counts of the vocabulary added up. *)
Definition per_call_score (message : string) : nat :=
  foldr (fun keyword acc => str_count (lower message) keyword + acc) 0
        SCAM_KEYWORDS.

(* ===================================================================== *)
(** ** Recency by the clock *)
(* ===================================================================== *)

(** [a] was last accessed no later than [b]. *)
Definition accessed_before (a b : string * SessionState) : Prop :=
  (last_accessed (snd a) <= last_accessed (snd b))%Z.

(** The store lists its sessions from the least to the most recently
    accessed. *)
Definition by_recency (st : store) : Prop :=
  StronglySorted accessed_before st.

Definition not_after (t : time) (e : string * SessionState) : Prop :=
  (last_accessed (snd e) <= t)%Z.

(** The clock never goes backwards along the steps of a run that starts at
    time [t]. *)
Fixpoint clocks_from (t : time) (steps : list step) : Prop :=
  match steps with
  | [] => True
  | Message env _ _ :: rest =>
      (t <= accessed_clock env <= touch_clock env)%Z
      /\ clocks_from (touch_clock env) rest
  | _ :: rest => clocks_from t rest
  end.

(* ===================================================================== *)
(** ** Rate limiting *)
(* ===================================================================== *)

Definition RATE_LIMIT_REQUESTS : nat := 10.
Definition RATE_LIMIT_WINDOW : Z := 60.

(** [check_rate_limit], [now] being the clock reading it takes: the answer
    and the store it leaves. *)
Definition check_rate_limit (now : time) (session_id : string)
  (rate_limit_store : gmap string (list time))
  : bool * gmap string (list time) :=
  let store1 :=
    match rate_limit_store !! session_id with
    | Some _ => rate_limit_store
    | None => <[session_id := []]> rate_limit_store
    end in
  let recent :=
    filter (fun ts => (now - ts < RATE_LIMIT_WINDOW)%Z)
           (default [] (store1 !! session_id)) in
  let store2 := <[session_id := recent]> store1 in
  if RATE_LIMIT_REQUESTS <=? length recent then (false, store2)
  else (true, <[session_id := recent ++ [now]]> store2).

(** Successive calls, each with its clock reading and its identifier: the
    answers in order and the final store. *)
Fixpoint rate_calls (calls : list (time * string))
  (rate_limit_store : gmap string (list time))
  : list bool * gmap string (list time) :=
  match calls with
  | [] => ([], rate_limit_store)
  | (now, session_id) :: rest =>
      let '(allowed, store') :=
        check_rate_limit now session_id rate_limit_store in
      let '(answers, store'') := rate_calls rest store' in
      (allowed :: answers, store'')
  end.

(* ===================================================================== *)
(** ** Notions for the further properties *)
(* ===================================================================== *)

(** The cut-off of one cleanup cycle run at [now]. *)
Definition ttl_threshold (now : time) : time :=
  (now - SESSION_TTL_MINUTES * 60)%Z.

(** The breaker is either closed with fewer failures than the threshold, or
    open with a deadline and exactly the threshold on the counter. *)
Definition breaker_ok (m : Metrics) : Prop :=
  if circuit_breaker_active m
  then is_Some (circuit_breaker_until m)
       /\ total_callbacks_failed m = CIRCUIT_BREAKER_THRESHOLD
  else total_callbacks_failed m < CIRCUIT_BREAKER_THRESHOLD.

(** The breaker is open exactly when the counter has reached the
    threshold, and an open breaker has a deadline. *)
Definition breaker_sound (m : Metrics) : Prop :=
  if circuit_breaker_active m
  then is_Some (circuit_breaker_until m)
       /\ CIRCUIT_BREAKER_THRESHOLD <= total_callbacks_failed m
  else total_callbacks_failed m < CIRCUIT_BREAKER_THRESHOLD.

(** Posts and seconds slept recorded in a journal. *)
Fixpoint posts (j : list effect) : nat :=
  match j with
  | [] => 0
  | Posted _ :: rest => S (posts rest)
  | _ :: rest => posts rest
  end.

Fixpoint seconds_slept (j : list effect) : nat :=
  match j with
  | [] => 0
  | Slept n :: rest => n + seconds_slept rest
  | _ :: rest => seconds_slept rest
  end.

(** The character before the position reached after the characters [l],
    [prev] being the one before [l]. *)
Definition prev_of (prev : option ascii) (l : list ascii) : option ascii :=
  match last l with
  | Some c => Some c
  | None => prev
  end.

(** What a pattern matches: [derives r prev l rest] reads "[r] matches the
    characters [l], the character before them being [prev] and the input
    going on with [rest]".  A literal matches itself; a repetition matches a
    run of characters of its class within its bounds; a word boundary holds
    where exactly one of the two neighbours is a word character; the end
    anchor holds at the end of the input or before a final line feed. *)
Inductive derives : regex -> option ascii -> list ascii -> list ascii -> Prop :=
| derives_nil prev rest : derives [] prev [] rest
| derives_chr c r prev l rest :
    derives r (Some c) l rest ->
    derives (Chr c :: r) prev (c :: l) rest
| derives_rep cls lo hi r prev l1 l2 rest :
    Forall (fun c => cls c = true) l1 ->
    lo <= length l1 ->
    (forall h, hi = Some h -> length l1 <= h) ->
    derives r (prev_of prev l1) l2 rest ->
    derives (Rep cls lo hi :: r) prev (l1 ++ l2) rest
| derives_boundary r prev l rest :
    xorb (word_at prev) (word_at (head (l ++ rest))) = true ->
    derives r prev l rest ->
    derives (WordBoundary :: r) prev l rest
| derives_anchor r prev l rest :
    l ++ rest = [] \/ (exists c, l ++ rest = [c] /\ code c = 10) ->
    derives r prev l rest ->
    derives (EndAnchor :: r) prev l rest.

(** [x] is found in [s] as a match of [r]: it stands between [before] and
    [after] there, and [r] matches it in that place. *)
Definition found_in (r : regex) (s x : string) : Prop :=
  exists before after,
    list_ascii_of_string s = before ++ list_ascii_of_string x ++ after
    /\ derives r (last before) (list_ascii_of_string x) after.

(** The clock readings of the calls for [session_id] that were allowed. *)
Fixpoint granted (session_id : string) (calls : list (time * string))
  (answers : list bool) : list time :=
  match calls, answers with
  | (now, sid) :: calls', allowed :: answers' =>
      if allowed && bool_decide (sid = session_id)
      then now :: granted session_id calls' answers'
      else granted session_id calls' answers'
  | _, _ => []
  end.

(** The readings of [l] that lie in the window ending at [now]. *)
Definition in_window (now : time) (l : list time) : list time :=
  filter (fun ts => (now - ts < RATE_LIMIT_WINDOW)%Z) l.

(** The characters a session identifier may consist of. *)
Definition id_char (c : ascii) : bool :=
  is_alpha c || is_digit c || (code c =? 95) || (code c =? 45).

Definition line_feed : ascii := ascii_of_nat 10.

(** The buckets and the cumulative keyword score stored under [sid]; empty
    and 0 when there is no session. *)
Definition intel_of (sid : string) (w : World) : Buckets :=
  match lookup_session sid (sessions w) with
  | Some s => intel s
  | None => mkBuckets [] [] []
  end.

Definition score_of (sid : string) (w : World) : nat :=
  match lookup_session sid (sessions w) with
  | Some s => sum_values (keyword_counts s)
  | None => 0
  end.

(** The creation time stored under [sid]; [t] when there is no session. *)
Definition created_of (t : time) (sid : string) (w : World) : time :=
  match lookup_session sid (sessions w) with
  | Some s => created_at s
  | None => t
  end.
(* ===================================================================== *)
(** ** Facts about the session store *)
(* ===================================================================== *)

Section StoreFacts.

Implicit Types (st : store) (sid k : string) (s : SessionState).

Lemma eqb_false_ne k sid : String.eqb k sid = false <-> k <> sid.
Proof. apply String.eqb_neq. Qed.

Lemma lookup_app sid st1 st2 :
  lookup_session sid (st1 ++ st2) =
  match lookup_session sid st1 with
  | Some s => Some s
  | None => lookup_session sid st2
  end.
Proof.
  induction st1 as [|[k s] st1 IH]; simpl; [reflexivity|].
  destruct (String.eqb k sid); [reflexivity|apply IH].
Qed.

Lemma lookup_del sid k st :
  lookup_session sid (del_session k st) =
  if String.eqb k sid then None else lookup_session sid st.
Proof.
  induction st as [|[k' s] st IH]; simpl.
  - destruct (String.eqb k sid); reflexivity.
  - destruct (String.eqb k' k) eqn:Ek.
    + apply String.eqb_eq in Ek. subst k'. rewrite IH.
      destruct (String.eqb k sid); reflexivity.
    + simpl. rewrite IH.
      destruct (String.eqb k' sid) eqn:Es; [|reflexivity].
      apply String.eqb_eq in Es. subst k'.
      rewrite String.eqb_sym, Ek. reflexivity.
Qed.

Lemma lookup_del_same sid st : lookup_session sid (del_session sid st) = None.
Proof. rewrite lookup_del, String.eqb_refl. reflexivity. Qed.

Lemma del_app k st1 st2 :
  del_session k (st1 ++ st2) = del_session k st1 ++ del_session k st2.
Proof.
  induction st1 as [|[k' s] st1 IH]; simpl; [reflexivity|].
  destruct (String.eqb k' k); simpl; rewrite IH; reflexivity.
Qed.

Lemma del_absent k st :
  lookup_session k st = None -> del_session k st = st.
Proof.
  induction st as [|[k' s] st IH]; simpl; [reflexivity|].
  destruct (String.eqb k' k); [discriminate|].
  intros H. rewrite IH by exact H. reflexivity.
Qed.

Lemma length_del_le k st : length (del_session k st) <= length st.
Proof.
  induction st as [|[k' s] st IH]; simpl; [lia|].
  destruct (String.eqb k' k); simpl; lia.
Qed.

Lemma length_del_present k st :
  is_Some (lookup_session k st) -> length (del_session k st) < length st.
Proof.
  induction st as [|[k' s] st IH]; simpl.
  - intros [? H]; discriminate.
  - destruct (String.eqb k' k).
    + intros _. pose proof (length_del_le k st). lia.
    + intros H. apply IH in H. simpl. lia.
Qed.

Lemma update_absent sid f st :
  lookup_session sid st = None -> update_session sid f st = st.
Proof.
  induction st as [|[k s] st IH]; simpl; [reflexivity|].
  destruct (String.eqb k sid); [discriminate|].
  intros H. rewrite IH by exact H. reflexivity.
Qed.

Lemma update_app sid f st1 st2 :
  update_session sid f (st1 ++ st2) =
  update_session sid f st1 ++ update_session sid f st2.
Proof.
  induction st1 as [|[k s] st1 IH]; simpl; [reflexivity|].
  destruct (String.eqb k sid); simpl; rewrite IH; reflexivity.
Qed.

Lemma lookup_last sid s st :
  lookup_session sid st = None ->
  lookup_session sid (st ++ [(sid, s)]) = Some s.
Proof.
  intros H. rewrite lookup_app, H. simpl. rewrite String.eqb_refl.
  reflexivity.
Qed.

Lemma update_last sid f s st :
  lookup_session sid st = None ->
  update_session sid f (st ++ [(sid, s)]) = st ++ [(sid, f s)].
Proof.
  intros H. rewrite update_app, update_absent by exact H. simpl.
  rewrite String.eqb_refl. reflexivity.
Qed.

(** The eviction loop stops within the bound. *)
Lemma evict_loop_bound n st :
  length st <= MAX_SESSIONS + n ->
  length (evict_loop n st) <= MAX_SESSIONS.
Proof.
  revert st. induction n as [|n IH]; intros st H; simpl.
  - lia.
  - destruct (Nat.ltb_spec MAX_SESSIONS (length st)) as [Hlt|Hge]; [|lia].
    destruct st as [|[k s] st]; [simpl in *; lia|].
    apply IH. simpl. rewrite String.eqb_refl.
    pose proof (length_del_le k st). simpl in H. lia.
Qed.

Lemma evict_loop_length_le n st : length (evict_loop n st) <= length st.
Proof.
  revert st. induction n as [|n IH]; intros st; simpl; [lia|].
  destruct (MAX_SESSIONS <? length st); [|lia].
  destruct st as [|[k s] st]; [lia|].
  etransitivity; [apply IH|]. apply length_del_le.
Qed.

(** Eviction either keeps a session as it is or removes it. *)
Lemma evict_loop_lookup n st sid :
  lookup_session sid (evict_loop n st) = lookup_session sid st
  \/ lookup_session sid (evict_loop n st) = None.
Proof.
  revert st. induction n as [|n IH]; intros st; simpl; [by left|].
  destruct (MAX_SESSIONS <? length st); [|by left].
  destruct st as [|[k s] st]; [by left|].
  destruct (IH (del_session k ((k, s) :: st))) as [H|H]; [|by right].
  rewrite H, lookup_del.
  destruct (String.eqb k sid) eqn:E; [by right|left].
  simpl. rewrite E. reflexivity.
Qed.

(** A session appended to a store that lacks its key survives eviction. *)
Lemma evict_loop_keeps_new n st sid s :
  lookup_session sid st = None ->
  exists st', evict_loop n (st ++ [(sid, s)]) = st' ++ [(sid, s)]
              /\ lookup_session sid st' = None.
Proof.
  revert st. induction n as [|n IH]; intros st H; simpl; [by exists st|].
  destruct (Nat.ltb_spec MAX_SESSIONS (length (st ++ [(sid, s)])));
    [|by exists st].
  destruct st as [|[k s'] st].
  - simpl in *. unfold MAX_SESSIONS in *. lia.
  - simpl in H. simpl. rewrite String.eqb_refl.
    destruct (String.eqb k sid) eqn:E; [discriminate|].
    rewrite del_app. simpl. rewrite String.eqb_sym, E.
    apply IH. rewrite lookup_del, E. exact H.
Qed.

(** With distinct keys the loop drops exactly the oldest entries in
    excess of the bound. *)
Lemma evict_loop_drop n st :
  NoDup st.*1 ->
  evict_loop n st = drop (Nat.min n (length st - MAX_SESSIONS)) st.
Proof.
  revert st. induction n as [|n IH]; intros st Hnd; [reflexivity|].
  cbn [evict_loop].
  destruct (Nat.ltb_spec MAX_SESSIONS (length st)) as [Hlt|Hge].
  - destruct st as [|[k s] st]; [simpl in Hlt; lia|].
    rewrite fmap_cons in Hnd. apply NoDup_cons in Hnd as [Hk Hnd].
    assert (Hd : del_session k ((k, s) :: st) = st).
    { simpl. rewrite String.eqb_refl. apply del_absent.
      clear -Hk. induction st as [|[k' s'] st IH]; simpl; [reflexivity|].
      rewrite fmap_cons in Hk. apply not_elem_of_cons in Hk as [Hne Hk].
      destruct (String.eqb_spec k' k) as [->|_]; [done|].
      apply IH, Hk. }
    rewrite Hd, IH by exact Hnd.
    replace (Nat.min (S n) (length ((k, s) :: st) - MAX_SESSIONS))
      with (S (Nat.min n (length st - MAX_SESSIONS)))
      by (simpl length in *; lia).
    reflexivity.
  - replace (length st - MAX_SESSIONS) with 0 by lia.
    rewrite Nat.min_0_r. reflexivity.
Qed.

End StoreFacts.
(* ===================================================================== *)
(** ** The handler computes its closed form *)
(* ===================================================================== *)

Section HandlerFacts.

Implicit Types (st : store) (sid text : string) (s : SessionState)
  (w : World) (env : Env).

Lemma set_sessions_id w : set_sessions (sessions w) w = w.
Proof. destruct w; reflexivity. Qed.

Lemma choice_total cat d :
  is_Some (RESPONSES cat !! (d mod length (RESPONSES cat))).
Proof.
  apply lookup_lt_is_Some_2.
  destruct cat; cbn [RESPONSES length]; apply Nat.mod_upper_bound; lia.
Qed.

Lemma generate_response_run d s :
  generate_response d s =
  (Ok (default ""
         (RESPONSES (category_of (count s))
            !! (d mod length (RESPONSES (category_of (count s)))))),
   set_last_response_category (Some (category_of (count s))) s).
Proof.
  unfold generate_response, bind, get, random_choice.
  destruct (choice_total (category_of (count s)) d) as [r Hr].
  rewrite Hr.
  destruct (_ && _); reflexivity.
Qed.

Lemma ensure_session_lookup env sid st :
  lookup_session sid (ensure_session env sid st) = Some (current env sid st).
Proof.
  unfold current, ensure_session.
  destruct (lookup_session sid st) as [s|] eqn:E.
  - rewrite bool_decide_eq_true_2 by eauto. rewrite E. reflexivity.
  - rewrite bool_decide_eq_false_2 by (intros [? ?]; congruence).
    cbv zeta.
    destruct (evict_loop_keeps_new
                (length (st ++ [(sid, new_SessionState (created_clock env)
                                        (accessed_clock env))]))
                st sid
                (new_SessionState (created_clock env) (accessed_clock env)) E)
      as (st' & -> & Hst').
    rewrite lookup_last by exact Hst'. reflexivity.
Qed.

Lemma bind_ok {S A B} (m : M S A) (k : A -> M S B) x a x' :
  m x = (Ok a, x') -> bind m k x = k a x'.
Proof. intros H. unfold bind. rewrite H. reflexivity. Qed.

Lemma bind_raised {S A B} (m : M S A) (k : A -> M S B) x e x' :
  m x = (Raised e, x') -> bind m k x = (Raised e, x').
Proof. intros H. unfold bind. rewrite H. reflexivity. Qed.

Lemma bind_get {S B} (k : S -> M S B) x : bind get k x = k x x.
Proof. reflexivity. Qed.

Lemma checkpoint_pass env f w :
  fault env <> Some f -> checkpoint env f w = (Ok tt, w).
Proof.
  intros H. unfold checkpoint.
  rewrite bool_decide_eq_false_2 by exact H. reflexivity.
Qed.

Lemma checkpoint_fail env f w :
  fault env = Some f -> checkpoint env f w = (Raised (RuntimeFault f), w).
Proof.
  intros H. unfold checkpoint.
  rewrite bool_decide_eq_true_2 by exact H. reflexivity.
Qed.

Lemma init_block env sid w :
  (if negb (bool_decide (is_Some (lookup_session sid (sessions w))))
   then
     modify (set_sessions
               (sessions w ++
                  [(sid, new_SessionState (created_clock env)
                           (accessed_clock env))])) ;;
     enforce_session_limit
   else ret tt) w
  = (Ok tt, set_sessions (ensure_session env sid (sessions w)) w).
Proof.
  unfold ensure_session.
  destruct (bool_decide (is_Some (lookup_session sid (sessions w)))); cbn.
  - rewrite set_sessions_id. reflexivity.
  - reflexivity.
Qed.

Lemma move_to_end_run sid st s w :
  lookup_session sid st = Some s ->
  move_to_end sid (set_sessions st w) =
  (Ok tt, set_sessions (del_session sid st ++ [(sid, s)]) w).
Proof.
  intros H. unfold move_to_end, bind, get. cbn. rewrite H. reflexivity.
Qed.

Lemma on_session_last {A} sid (m : M SessionState A) st s w :
  lookup_session sid st = None ->
  on_session sid m (set_sessions (st ++ [(sid, s)]) w) =
  (fst (m s), set_sessions (st ++ [(sid, snd (m s))]) w).
Proof.
  intros H. unfold on_session. cbn.
  rewrite lookup_last by exact H.
  destruct (m s) as [r s']. cbn.
  rewrite update_last by exact H. reflexivity.
Qed.

Lemma on_session_modify sid f st s w :
  lookup_session sid st = None ->
  on_session sid (modify f) (set_sessions (st ++ [(sid, s)]) w) =
  (Ok tt, set_sessions (st ++ [(sid, f s)]) w).
Proof. intros H. rewrite on_session_last by exact H. reflexivity. Qed.

Lemma on_session_get sid st s w :
  lookup_session sid st = None ->
  on_session sid get (set_sessions (st ++ [(sid, s)]) w) =
  (Ok s, set_sessions (st ++ [(sid, s)]) w).
Proof. intros H. rewrite on_session_last by exact H. reflexivity. Qed.

Lemma on_session_extract sid text st s w :
  lookup_session sid st = None ->
  on_session sid
    (fun s => let '(x, s') := extract_intelligence text s in (Ok x, s'))
    (set_sessions (st ++ [(sid, s)]) w) =
  (Ok (fst (extract_intelligence text s)),
   set_sessions (st ++ [(sid, snd (extract_intelligence text s))]) w).
Proof.
  intros H. rewrite on_session_last by exact H.
  destruct (extract_intelligence text s). reflexivity.
Qed.

Lemma on_session_generate sid d st s w :
  lookup_session sid st = None ->
  on_session sid (generate_response d)
    (set_sessions (st ++ [(sid, s)]) w) =
  (Ok (default ""
         (RESPONSES (category_of (count s))
            !! (d mod length (RESPONSES (category_of (count s)))))),
   set_sessions
     (st ++ [(sid, set_last_response_category
                     (Some (category_of (count s))) s)]) w).
Proof.
  intros H. rewrite on_session_last by exact H.
  rewrite generate_response_run. reflexivity.
Qed.

(** The statements behind the trigger decision, when it fires. *)
Lemma trigger_fire env sid st s w :
  lookup_session sid st = None ->
  (create_task sid ;;
   checkpoint env AfterSchedule ;;
   mark_callback_sent sid ;;
   checkpoint env AfterFlag)
    (set_sessions (st ++ [(sid, s)]) w) =
  if bool_decide (fault env = Some AfterSchedule) then
    (Raised (RuntimeFault AfterSchedule),
     {| sessions := st ++ [(sid, s)];
        metrics := metrics w;
        failed_callbacks := failed_callbacks w;
        tasks := tasks w ++ [sid];
        journal := journal w ++ [Scheduled sid] |})
  else
    (if bool_decide (fault env = Some AfterFlag)
     then Raised (RuntimeFault AfterFlag) else Ok tt,
     {| sessions := st ++ [(sid, set_callback_sent true s)];
        metrics := metrics w;
        failed_callbacks := failed_callbacks w;
        tasks := tasks w ++ [sid];
        journal := journal w ++ [Scheduled sid; FlagSet sid] |}).
Proof.
  intros H. unfold bind, create_task, checkpoint, mark_callback_sent, modify,
    bind, on_session, raise, ret.
  cbn. destruct (bool_decide (fault env = Some AfterSchedule)); [reflexivity|].
  cbn. rewrite lookup_last by exact H. cbn.
  rewrite update_last by exact H.
  unfold log_effect. cbn. rewrite <- app_assoc.
  destruct (bool_decide (fault env = Some AfterFlag)); reflexivity.
Qed.

Lemma honeypot_closed env sid text w :
  valid_request sid text = true ->
  honeypot env (Some (API_KEY env)) (Fields sid text) w =
  (Ok (fst (handled env sid text w)), snd (handled env sid text w)).
Proof.
  intros Hv. unfold honeypot.
  rewrite bool_decide_eq_true_2 by reflexivity. cbn [negb].
  unfold try_except, MessageRequest. rewrite Hv.
  erewrite (bind_ok (ret (sid, text))) by reflexivity. cbn [fst snd].
  pose proof (lookup_del_same sid (ensure_session env sid (sessions w))) as Hrest.
  pose proof (ensure_session_lookup env sid (sessions w)) as Hcur.
  pose proof (init_block env sid w) as Hinit.
  unfold handled, others.
  destruct (fault env) as [f|] eqn:Hf; [destruct f|].
  all: repeat first
    [ erewrite bind_raised by (apply checkpoint_fail; exact Hf)
    | erewrite bind_ok by (apply checkpoint_pass; rewrite Hf; discriminate)
    | rewrite bind_get
    | erewrite bind_ok by exact Hinit
    | erewrite bind_ok by (apply move_to_end_run; exact Hcur)
    | erewrite bind_ok by (apply on_session_modify; exact Hrest)
    | erewrite bind_ok by (apply on_session_extract; exact Hrest)
    | erewrite bind_ok by (apply on_session_generate; exact Hrest)
    | erewrite bind_ok by (apply on_session_get; exact Hrest) ].
  all: try reflexivity.
  all: unfold after_message;
    change (should_callback _ _)
      with (fires env text (current env sid (sessions w)));
    destruct (fires env text (current env sid (sessions w)));
    [|reflexivity].
  all: unfold bind at 1; rewrite trigger_fire by exact Hrest; rewrite Hf.
  - rewrite bool_decide_eq_true_2 by reflexivity. reflexivity.
  - rewrite bool_decide_eq_false_2 by discriminate.
    rewrite bool_decide_eq_true_2 by reflexivity. reflexivity.
  - rewrite !bool_decide_eq_false_2 by discriminate. reflexivity.
Qed.

(** Requests that do not reach the session store. *)
Lemma honeypot_unauthorized env key payload w :
  key <> Some (API_KEY env) ->
  honeypot env key payload w = (Ok Unauthorized, w).
Proof.
  intros H. unfold honeypot.
  rewrite bool_decide_eq_false_2 by exact H. reflexivity.
Qed.

Lemma honeypot_no_message env w :
  honeypot env (Some (API_KEY env)) NoMessage w =
  (Ok (Success "Hello? Who is this?"), w).
Proof.
  unfold honeypot. rewrite bool_decide_eq_true_2 by reflexivity.
  reflexivity.
Qed.

Lemma honeypot_untyped env w :
  honeypot env (Some (API_KEY env)) Untyped w =
  (Ok (Success fallback_reply), w).
Proof.
  unfold honeypot. rewrite bool_decide_eq_true_2 by reflexivity.
  reflexivity.
Qed.

Lemma honeypot_scalar env w :
  honeypot env (Some (API_KEY env)) Scalar w = (Raised TypeError, w).
Proof.
  unfold honeypot. rewrite bool_decide_eq_true_2 by reflexivity.
  reflexivity.
Qed.

Lemma honeypot_invalid env sid text w :
  valid_request sid text = false ->
  honeypot env (Some (API_KEY env)) (Fields sid text) w =
  (Ok (Success fallback_reply), w).
Proof.
  intros Hv. unfold honeypot. rewrite bool_decide_eq_true_2 by reflexivity.
  cbn [negb]. unfold try_except, MessageRequest. rewrite Hv. reflexivity.
Qed.

(** Every request is one of the six cases above. *)
Lemma honeypot_cases env key payload w :
  honeypot env key payload w = (Ok Unauthorized, w)
  \/ honeypot env key payload w = (Ok (Success "Hello? Who is this?"), w)
  \/ honeypot env key payload w = (Ok (Success fallback_reply), w)
  \/ honeypot env key payload w = (Raised TypeError, w)
  \/ exists sid text,
       key = Some (API_KEY env) /\ payload = Fields sid text
       /\ valid_request sid text = true
       /\ honeypot env key payload w =
          (Ok (fst (handled env sid text w)),
           snd (handled env sid text w)).
Proof.
  destruct (decide (key = Some (API_KEY env))) as [->|Hk].
  - destruct payload as [| | |sid text].
    + right; left. apply honeypot_no_message.
    + right; right; right; left. apply honeypot_scalar.
    + right; right; left. apply honeypot_untyped.
    + destruct (valid_request sid text) eqn:Hv.
      * right; right; right; right. exists sid, text.
        repeat split; [exact Hv|]. apply honeypot_closed, Hv.
      * right; right; left. apply honeypot_invalid, Hv.
  - left. apply honeypot_unauthorized, Hk.
Qed.

End HandlerFacts.
(* ===================================================================== *)
(** ** What a message changes in its session *)
(* ===================================================================== *)

Section SessionFacts.

Implicit Types (st : store) (sid text : string) (s : SessionState)
  (w : World) (env : Env).

Lemma set_keyword_counts_id s : set_keyword_counts (keyword_counts s) s = s.
Proof. destruct s; reflexivity. Qed.

(** Extraction writes the cumulative keyword map and nothing else. *)
Lemma extract_session text s :
  snd (extract_intelligence text s) =
  set_keyword_counts (keyword_counts (snd (extract_intelligence text s))) s.
Proof.
  unfold extract_intelligence.
  destruct (len text <? 10); cbn [snd].
  - symmetry. apply set_keyword_counts_id.
  - destruct (scan_keywords (lower text)) as [hits score].
    destruct (0 <? score); reflexivity.
Qed.

(** The extraction result does not depend on the session. *)
Lemma extract_result_indep text s1 s2 :
  fst (extract_intelligence text s1) = fst (extract_intelligence text s2).
Proof.
  unfold extract_intelligence.
  destruct (len text <? 10); [reflexivity|].
  destruct (scan_keywords (lower text)) as [hits score].
  destruct (0 <? score); reflexivity.
Qed.

Lemma after_history_count env text s :
  count (after_history env text s) = count s + 1.
Proof.
  unfold after_history, after_respond, after_extract, after_touch.
  cbn. rewrite extract_session. reflexivity.
Qed.

Lemma after_history_flag env text s :
  callback_sent (after_history env text s) = callback_sent s.
Proof.
  unfold after_history, after_respond, after_extract, after_touch.
  cbn. rewrite extract_session. reflexivity.
Qed.

Lemma after_history_keywords env text s :
  keyword_counts (after_history env text s) =
  keyword_counts (snd (extract_intelligence text (after_touch env s))).
Proof. reflexivity. Qed.

Lemma after_message_count env text s :
  count (after_message env text s) = count s + 1.
Proof.
  unfold after_message. destruct (fires env text s); cbn;
    apply after_history_count.
Qed.

Lemma after_message_keywords env text s :
  keyword_counts (after_message env text s) =
  keyword_counts (after_history env text s).
Proof. unfold after_message. destruct (fires env text s); reflexivity. Qed.

Lemma after_message_flag env text s :
  callback_sent (after_message env text s) =
  callback_sent s || fires env text s.
Proof.
  unfold after_message. destruct (fires env text s) eqn:E; cbn.
  - rewrite orb_true_r. reflexivity.
  - rewrite orb_false_r. apply after_history_flag.
Qed.

(** A session whose flag is set never fires. *)
Lemma fires_needs_clear_flag env text s :
  fires env text s = true -> callback_sent s = false.
Proof.
  unfold fires, should_callback. rewrite after_history_flag.
  intros H. apply andb_true_iff in H as [_ H].
  destruct (callback_sent s); [discriminate|reflexivity].
Qed.

Lemma nonempty_true {A} (l : list A) : nonempty l = true <-> l <> [].
Proof. destruct l; simpl; split; congruence. Qed.

(** The session a message is handled on: the stored one, or a fresh one. *)
Lemma current_stored env sid st s :
  lookup_session sid st = Some s -> current env sid st = s.
Proof.
  intros H. unfold current, ensure_session.
  rewrite bool_decide_eq_true_2 by eauto. rewrite H. reflexivity.
Qed.

Lemma current_fresh env sid st :
  lookup_session sid st = None ->
  current env sid st =
  new_SessionState (created_clock env) (accessed_clock env).
Proof.
  intros H. pose proof (ensure_session_lookup env sid st) as Ha.
  unfold ensure_session in Ha.
  rewrite bool_decide_eq_false_2 in Ha by (intros [? ?]; congruence).
  cbv zeta in Ha.
  destruct (evict_loop_keeps_new
              (length (st ++ [(sid, new_SessionState (created_clock env)
                                      (accessed_clock env))]))
              st sid
              (new_SessionState (created_clock env) (accessed_clock env)) H)
    as (st' & Hst' & Hno).
  rewrite Hst', lookup_last in Ha by exact Hno. congruence.
Qed.

Lemma current_flag env sid w :
  callback_sent (current env sid (sessions w)) = flag sid w.
Proof.
  unfold flag. destruct (lookup_session sid (sessions w)) as [s|] eqn:E.
  - rewrite (current_stored _ _ _ _ E). reflexivity.
  - rewrite (current_fresh _ _ _ E). reflexivity.
Qed.

(** After an accepted message the session is the last entry of the store. *)
Lemma handled_sessions env sid text w :
  fault env = None ->
  sessions (snd (handled env sid text w)) =
  others env sid (sessions w)
    ++ [(sid, after_message env text (current env sid (sessions w)))].
Proof.
  intros Hf. unfold handled. rewrite Hf. cbn [snd].
  destruct (fires _ _ _); reflexivity.
Qed.

Lemma handled_tasks env sid text w :
  fault env = None ->
  tasks (snd (handled env sid text w)) =
  tasks w ++ (if fires env text (current env sid (sessions w))
              then [sid] else []).
Proof.
  intros Hf. unfold handled. rewrite Hf. cbn [snd].
  destruct (fires _ _ _); cbn; [reflexivity|].
  rewrite app_nil_r. reflexivity.
Qed.

Lemma handled_journal env sid text w :
  fault env = None ->
  journal (snd (handled env sid text w)) =
  journal w ++ (if fires env text (current env sid (sessions w))
                then [Scheduled sid; FlagSet sid] else []).
Proof.
  intros Hf. unfold handled. rewrite Hf. cbn [snd].
  destruct (fires _ _ _); cbn; [reflexivity|].
  rewrite app_nil_r. reflexivity.
Qed.

Lemma others_lookup env sid st :
  lookup_session sid (others env sid st) = None.
Proof. apply lookup_del_same. Qed.

Lemma handled_lookup env sid text w :
  fault env = None ->
  lookup_session sid (sessions (snd (handled env sid text w))) =
  Some (after_message env text (current env sid (sessions w))).
Proof.
  intros Hf. rewrite handled_sessions by exact Hf.
  apply lookup_last, others_lookup.
Qed.

End SessionFacts.

(* ===================================================================== *)
(** ** The callback trigger *)
(* ===================================================================== *)

(** C2. For an accepted message the trigger fires (a dispatch is appended to
    the scheduled tasks) exactly when the flag of the session was false and
    either the interaction count has reached 15 or the cumulative keyword
    score is at least 3 and this call's extraction found a UPI identifier,
    an account number or a URL; otherwise nothing is scheduled. *)
Theorem C2_trigger_iff env sid text w :
  valid_request sid text = true ->
  fault env = None ->
  let w' := snd (honeypot env (Some (API_KEY env)) (Fields sid text) w) in
  let x := extraction env text (current env sid (sessions w)) in
  exists s',
    lookup_session sid (sessions w') = Some s'
    /\ let condition :=
         ((3 <= sum_values (keyword_counts s')
           /\ (upi (found x) <> [] \/ accounts (found x) <> []
               \/ urls (found x) <> []))
          \/ 15 <= count s')
         /\ flag sid w = false in
       (tasks w' = tasks w ++ [sid] <-> condition)
       /\ (tasks w' = tasks w <-> ~ condition).
Proof.
  intros Hv Hf. cbv zeta.
  rewrite honeypot_closed by exact Hv. cbn [snd].
  exists (after_message env text (current env sid (sessions w))).
  split; [apply handled_lookup, Hf|].
  rewrite handled_tasks by exact Hf.
  rewrite after_message_keywords, after_message_count.
  rewrite <- (after_history_count env text).
  rewrite <- current_flag with (env := env).
  rewrite <- (after_history_flag env text).
  set (s := current env sid (sessions w)).
  assert (Hiff : fires env text s = true <->
    ((3 <= sum_values (keyword_counts (after_history env text s))
      /\ (upi (found (extraction env text s)) <> []
          \/ accounts (found (extraction env text s)) <> []
          \/ urls (found (extraction env text s)) <> []))
     \/ 15 <= count (after_history env text s))
    /\ callback_sent (after_history env text s) = false).
  { unfold fires, should_callback.
    rewrite andb_true_iff, orb_true_iff, andb_true_iff, !orb_true_iff.
    rewrite !nonempty_true, !Nat.leb_le, negb_true_iff. tauto. }
  destruct (fires env text s) eqn:E.
  - split; split; intros H.
    + apply Hiff. reflexivity.
    + reflexivity.
    + apply (f_equal length) in H. rewrite length_app in H. simpl in H. lia.
    + exfalso. apply H, Hiff. reflexivity.
  - rewrite app_nil_r. split; split; intros H.
    + apply (f_equal length) in H. rewrite length_app in H. simpl in H. lia.
    + apply Hiff in H. discriminate.
    + intros Hc. apply Hiff in Hc. discriminate.
    + reflexivity.
Qed.

(** C3, amended. When the trigger fires, the handler schedules the dispatch
    and sets the flag next, in this order and with nothing in between, as
    its last two effects; the flag is true in the state the handler
    returns. *)
Theorem C3_schedule_then_flag env sid text w :
  valid_request sid text = true ->
  fault env = None ->
  let w' := snd (honeypot env (Some (API_KEY env)) (Fields sid text) w) in
  tasks w' = tasks w ++ [sid] ->
  journal w' = journal w ++ [Scheduled sid; FlagSet sid]
  /\ flag sid w' = true.
Proof.
  intros Hv Hf. cbv zeta.
  rewrite honeypot_closed by exact Hv. cbn [snd].
  rewrite handled_tasks, handled_journal by exact Hf.
  unfold flag. rewrite handled_lookup by exact Hf.
  rewrite after_message_flag.
  destruct (fires env text (current env sid (sessions w))).
  - intros _. split; [reflexivity|]. apply orb_true_r.
  - rewrite app_nil_r. intros H.
    apply (f_equal length) in H. rewrite length_app in H. simpl in H. lia.
Qed.
(* ===================================================================== *)
(** ** Steps of a run, seen from one session *)
(* ===================================================================== *)

Section RunFacts.

Implicit Types (st : store) (sid text : string) (s : SessionState)
  (w : World) (env : Env).

Lemma keeps_ret {A} (a : A) : keeps_sessions (ret a).
Proof. intros w. split; reflexivity. Qed.

Lemma keeps_raise {A} e : keeps_sessions (@raise World A e).
Proof. intros w. split; reflexivity. Qed.

Lemma keeps_bind {A B} (m : M World A) (k : A -> M World B) :
  keeps_sessions m -> (forall a, keeps_sessions (k a)) ->
  keeps_sessions (bind m k).
Proof.
  intros Hm Hk w. unfold bind. specialize (Hm w).
  destruct (m w) as [[a|e] w1]; cbn [snd] in *.
  - destruct (Hk a w1) as [H1 H2]. rewrite H1, H2. exact Hm.
  - exact Hm.
Qed.

Lemma keeps_modify (f : World -> World) :
  (forall w, sessions (f w) = sessions w /\ tasks (f w) = tasks w) ->
  keeps_sessions (modify f).
Proof. intros H w. apply H. Qed.

Lemma keeps_get : keeps_sessions (@get World).
Proof. intros w. split; reflexivity. Qed.

(** The dispatcher touches neither the session store nor the task list. *)
Lemma deliver_keeps net attempt remaining :
  keeps_sessions (deliver net attempt remaining).
Proof.
  revert attempt. induction remaining as [|n IH]; intros attempt;
    cbn [deliver]; [apply keeps_ret|].
  apply keeps_bind; [apply keeps_modify; intros; split; reflexivity|].
  intros _. destruct (outcome net attempt) as [status_code|].
  - destruct (status_code =? 200); [|apply IH].
    apply keeps_bind; [|intros; apply keeps_ret].
    apply keeps_modify; intros; split; reflexivity.
  - apply keeps_bind; [|intros; apply IH].
    destruct (attempt <? MAX_CALLBACK_RETRIES - 1); [|apply keeps_ret].
    apply keeps_modify; intros; split; reflexivity.
Qed.

Lemma breaker_gate_keeps net : keeps_sessions (breaker_gate net).
Proof.
  unfold breaker_gate. apply keeps_bind; [apply keeps_get|]. intros w0.
  destruct (circuit_breaker_active (metrics w0)); [|apply keeps_ret].
  destruct (circuit_breaker_until (metrics w0)); [|apply keeps_raise].
  destruct (_ <? _)%Z; [apply keeps_ret|].
  apply keeps_bind; [|intros; apply keeps_ret].
  apply keeps_modify; intros; split; reflexivity.
Qed.

Lemma all_retries_failed_keeps net sid payload :
  keeps_sessions (all_retries_failed net sid payload).
Proof.
  unfold all_retries_failed.
  apply keeps_bind; [apply keeps_modify; intros; split; reflexivity|].
  intros _. apply keeps_bind; [apply keeps_get|]. intros w0.
  apply keeps_bind.
  - destruct (_ <=? _); [|apply keeps_ret].
    apply keeps_modify; intros; split; reflexivity.
  - intros _. apply keeps_modify; intros; split; reflexivity.
Qed.

Lemma post_attempt_keeps net attempt w :
  sessions (post_attempt net attempt w) = sessions w
  /\ tasks (post_attempt net attempt w) = tasks w.
Proof.
  unfold post_attempt. cbv zeta.
  destruct (outcome net attempt) as [status_code|]; [|split; reflexivity].
  destruct (status_code =? 200); split; reflexivity.
Qed.

Lemma send_callback_keeps net sid s : keeps_sessions (send_callback net sid s).
Proof.
  unfold send_callback.
  apply keeps_bind; [apply breaker_gate_keeps|]. intros [|]; [apply keeps_ret|].
  apply keeps_bind; [apply deliver_keeps|]. intros [|]; [apply keeps_ret|].
  apply keeps_bind; [apply all_retries_failed_keeps|].
  intros; apply keeps_ret.
Qed.

Lemma foldl_del_lookup sid l st :
  lookup_session sid (foldl (fun st k => del_session k st) st l)
    = lookup_session sid st
  \/ lookup_session sid (foldl (fun st k => del_session k st) st l) = None.
Proof.
  revert st. induction l as [|k l IH]; intros st; cbn; [by left|].
  destruct (IH (del_session k st)) as [H|H]; [|by right].
  rewrite H, lookup_del. destruct (String.eqb k sid); [by right|by left].
Qed.

Lemma foldl_del_length l st :
  length (foldl (fun st k => del_session k st) st l) <= length st.
Proof.
  revert st. induction l as [|k l IH]; intros st; cbn; [lia|].
  etransitivity; [apply IH|apply length_del_le].
Qed.

(** Admission keeps or removes the other sessions, never alters them. *)
Lemma ensure_session_lookup_other env sid0 sid st :
  sid <> sid0 ->
  lookup_session sid (ensure_session env sid0 st) = lookup_session sid st
  \/ lookup_session sid (ensure_session env sid0 st) = None.
Proof.
  intros Hne. unfold ensure_session.
  destruct (bool_decide (is_Some (lookup_session sid0 st))); [by left|].
  cbv zeta.
  match goal with |- context [evict_loop ?n ?x] =>
    destruct (evict_loop_lookup n x sid) as [H|H] end; [|by right].
  left. rewrite H, lookup_app. destruct (lookup_session sid st); [done|].
  cbn. apply String.eqb_neq in Hne. rewrite String.eqb_sym, Hne. done.
Qed.

Lemma others_lookup_other env sid0 sid st s :
  sid <> sid0 ->
  lookup_session sid (others env sid0 st ++ [(sid0, s)])
  = lookup_session sid (ensure_session env sid0 st).
Proof.
  intros Hne. unfold others. rewrite lookup_app, lookup_del.
  apply String.eqb_neq in Hne. rewrite String.eqb_sym, Hne.
  destruct (lookup_session sid (ensure_session env sid0 st)); [done|].
  cbn. rewrite String.eqb_sym, Hne. done.
Qed.

(** The environment of a run. *)
Lemma in_run_fault env : fault (in_run env) <> Some AfterSchedule.
Proof.
  unfold in_run. case_bool_decide as H; cbn [fault]; [discriminate|exact H].
Qed.

Lemma in_run_clocks env :
  accessed_clock (in_run env) = accessed_clock env
  /\ touch_clock (in_run env) = touch_clock env.
Proof. unfold in_run. case_bool_decide; split; reflexivity. Qed.

(** What handling an accepted request for [sid0] does: whether it fired,
    what it leaves under [sid0], and that other sessions are kept as they
    are or evicted. *)
Lemma handled_shape env sid0 text w :
  fault env <> Some AfterSchedule ->
  exists fired : bool,
    tasks (snd (handled env sid0 text w))
      = tasks w ++ (if fired then [sid0] else [])
    /\ (fired = true -> flag sid0 w = false)
    /\ (snd (handled env sid0 text w) = w
        \/ exists s, lookup_session sid0
                       (sessions (snd (handled env sid0 text w))) = Some s
                     /\ callback_sent s = flag sid0 w || fired)
    /\ (forall sid, sid <> sid0 ->
          lookup_session sid (sessions (snd (handled env sid0 text w)))
            = lookup_session sid (sessions w)
          \/ lookup_session sid (sessions (snd (handled env sid0 text w)))
            = None).
Proof.
  intros Hrun.
  pose proof (ensure_session_lookup env sid0 (sessions w)) as Hcur.
  pose proof (others_lookup env sid0 (sessions w)) as Hrest.
  pose proof (current_flag env sid0 w) as Hflag.
  assert (Hoth : forall s sid, sid <> sid0 ->
    lookup_session sid (others env sid0 (sessions w) ++ [(sid0, s)])
      = lookup_session sid (sessions w)
    \/ lookup_session sid (others env sid0 (sessions w) ++ [(sid0, s)])
      = None).
  { intros s sid Hne. rewrite others_lookup_other by exact Hne.
    apply ensure_session_lookup_other, Hne. }
  unfold handled.
  destruct (fault env) as [[]|] eqn:Hf; cbn [snd].
  - exists false. rewrite app_nil_r. repeat split; [discriminate|by left|].
    intros; by left.
  - exists false. rewrite app_nil_r. repeat split; [discriminate| |].
    + right. eexists. split; [exact Hcur|]. rewrite orb_false_r. exact Hflag.
    + intros sid Hne. apply ensure_session_lookup_other, Hne.
  - exists false. rewrite app_nil_r. repeat split; [discriminate| |].
    + right. eexists. split; [apply lookup_last, Hrest|].
      rewrite orb_false_r. exact Hflag.
    + apply Hoth.
  - exists false. rewrite app_nil_r. repeat split; [discriminate| |].
    + right. eexists. split; [apply lookup_last, Hrest|].
      rewrite orb_false_r, <- Hflag.
      unfold after_extract, after_touch. cbn. rewrite extract_session.
      reflexivity.
    + apply Hoth.
  - exists false. rewrite app_nil_r. repeat split; [discriminate| |].
    + right. eexists. split; [apply lookup_last, Hrest|].
      rewrite orb_false_r, <- Hflag.
      unfold after_respond, after_extract, after_touch. cbn.
      rewrite extract_session. reflexivity.
    + apply Hoth.
  - exists false. rewrite app_nil_r. repeat split; [discriminate| |].
    + right. eexists. split; [apply lookup_last, Hrest|].
      rewrite orb_false_r, <- Hflag. apply after_history_flag.
    + apply Hoth.
  - contradiction.
  - exists (fires env text (current env sid0 (sessions w))).
    destruct (fires env text (current env sid0 (sessions w))) eqn:E;
      cbn [tasks sessions set_sessions snd].
    + repeat split.
      * intros _. rewrite <- Hflag. eapply fires_needs_clear_flag, E.
      * right. eexists. split; [apply lookup_last, Hrest|].
        rewrite after_message_flag, E, Hflag. reflexivity.
      * apply Hoth.
    + rewrite app_nil_r. repeat split; [discriminate| |].
      * right. eexists. split; [apply lookup_last, Hrest|].
        rewrite after_message_flag, E, Hflag. reflexivity.
      * apply Hoth.
  - exists (fires env text (current env sid0 (sessions w))).
    destruct (fires env text (current env sid0 (sessions w))) eqn:E;
      cbn [tasks sessions set_sessions snd].
    + repeat split.
      * intros _. rewrite <- Hflag. eapply fires_needs_clear_flag, E.
      * right. eexists. split; [apply lookup_last, Hrest|].
        rewrite after_message_flag, E, Hflag. reflexivity.
      * apply Hoth.
    + rewrite app_nil_r. repeat split; [discriminate| |].
      * right. eexists. split; [apply lookup_last, Hrest|].
        rewrite after_message_flag, E, Hflag. reflexivity.
      * apply Hoth.
Qed.

Lemma quiet_balance sid w w' :
  quiet sid w w' ->
  scheduled sid w' = scheduled sid w + rise sid w w'
  /\ rise sid w w' + pending sid w' <= pending sid w + born sid w w'.
Proof.
  intros [Ht Hl]. unfold rise, pending, born, alive, flag.
  rewrite Ht.
  destruct Hl as [-> | ->].
  - destruct (lookup_session sid (sessions w)) as [s|]; cbn.
    + destruct (callback_sent s); cbn; lia.
    + lia.
  - destruct (lookup_session sid (sessions w)) as [s|]; cbn; [|lia].
    destruct (callback_sent s); cbn; lia.
Qed.

Lemma alive_true sid w s :
  lookup_session sid (sessions w) = Some s -> alive sid w = true.
Proof. intros H. unfold alive. rewrite H. reflexivity. Qed.

Lemma scheduled_app sid w l :
  length (filter (fun x => x = sid) (tasks w ++ l))
  = scheduled sid w + length (filter (fun x => x = sid) l).
Proof. unfold scheduled. rewrite filter_app, length_app. reflexivity. Qed.

Lemma quiet_refl sid w : quiet sid w w.
Proof. split; [reflexivity|by left]. Qed.

(** The balance of one step: the dispatches scheduled for [sid] grow by
    exactly the rises of its flag, and a rise uses up a pending session
    or a session born in this very step. *)
Lemma step_balance sid e w :
  scheduled sid (do_step e w) = scheduled sid w + rise sid w (do_step e w)
  /\ rise sid w (do_step e w) + pending sid (do_step e w)
     <= pending sid w + born sid w (do_step e w).
Proof.
  destruct e as [env0 key payload|now|net sid' s'|net|net attempt|attempt
                 |net sid' report]; cbn [do_step].
  - set (env := in_run env0).
    destruct (honeypot_cases env key payload w)
      as [H|[H|[H|[H|(sid0 & text & _ & _ & _ & H)]]]];
      rewrite H; cbn [snd]; try (apply quiet_balance, quiet_refl).
    destruct (handled_shape env sid0 text w (in_run_fault env0))
      as (fired & Ht & Hfl & Hsame & Hoth).
    destruct (decide (sid = sid0)) as [->|Hne].
    + destruct Hsame as [->|(s & Hs & Hcs)];
        [apply quiet_balance, quiet_refl|].
      assert (Hfw : flag sid0 (snd (handled env sid0 text w))
                    = flag sid0 w || fired)
        by (unfold flag at 1; rewrite Hs; exact Hcs).
      assert (Hlen : length (filter (fun x => x = sid0)
                               (if fired then [sid0] else []))
                     = if fired then 1 else 0).
      { destruct fired; [rewrite filter_cons_True by reflexivity|];
          reflexivity. }
      assert (Haf : alive sid0 w = false -> flag sid0 w = false).
      { unfold alive, flag.
        destruct (lookup_session sid0 (sessions w)); [discriminate|done]. }
      unfold scheduled at 1. rewrite Ht, scheduled_app, Hlen.
      unfold rise, pending, born.
      rewrite (alive_true _ _ _ Hs), Hfw.
      destruct (alive sid0 w), (flag sid0 w), fired; cbn;
        first [lia | specialize (Hfl eq_refl); discriminate
              | specialize (Haf eq_refl); discriminate].
    + apply quiet_balance. split; [|apply Hoth, Hne].
      unfold scheduled at 1. rewrite Ht, scheduled_app.
      destruct fired; [rewrite filter_cons_False by congruence|];
        cbn; lia.
  - apply quiet_balance. split; [reflexivity|].
    unfold cleanup_cycle. cbn. apply foldl_del_lookup.
  - apply quiet_balance.
    destruct (send_callback_keeps net sid' s' w) as [H1 H2].
    split; [unfold scheduled; rewrite H2; reflexivity|].
    left. rewrite H1. reflexivity.
  - apply quiet_balance.
    destruct (breaker_gate_keeps net w) as [H1 H2].
    split; [unfold scheduled; rewrite H2; reflexivity|].
    left. rewrite H1. reflexivity.
  - apply quiet_balance.
    destruct (post_attempt_keeps net attempt w) as [H1 H2].
    split; [unfold scheduled; rewrite H2; reflexivity|].
    left. rewrite H1. reflexivity.
  - apply quiet_balance. split; [reflexivity|]. left. reflexivity.
  - apply quiet_balance.
    destruct (all_retries_failed_keeps net sid' report w) as [H1 H2].
    split; [unfold scheduled; rewrite H2; reflexivity|].
    left. rewrite H1. reflexivity.
Qed.

Lemma pending_le_1 sid w : pending sid w <= 1.
Proof. unfold pending. destruct (_ && _); lia. Qed.

Lemma run_cons e steps w : run (e :: steps) w = run steps (do_step e w).
Proof. reflexivity. Qed.

End RunFacts.

(** C1. Along every run of the service and for every session identifier,
    the number of dispatches scheduled grows exactly by the number of
    false-to-true transitions of the flag, and each such transition uses up
    either the session that was waiting at the start or a session created
    during the run.  So within the lifetime of one session (no session is
    created under the identifier during the run) the flag rises at most once
    and at most one dispatch is scheduled, whatever the messages are. *)
Theorem C1_callback_at_most_once sid steps w :
  scheduled sid (run steps w) = scheduled sid w + rises sid steps w
  /\ rises sid steps w + pending sid (run steps w)
     <= pending sid w + births sid steps w
  /\ (births sid steps w = 0 ->
      rises sid steps w <= 1
      /\ scheduled sid (run steps w) <= scheduled sid w + 1).
Proof.
  assert (H : scheduled sid (run steps w) = scheduled sid w + rises sid steps w
              /\ rises sid steps w + pending sid (run steps w)
                 <= pending sid w + births sid steps w).
  { revert w. induction steps as [|e steps IH]; intros w.
    - cbn. lia.
    - rewrite run_cons. cbn [rises births].
      destruct (IH (do_step e w)) as [H1 H2].
      destruct (step_balance sid e w) as [H3 H4]. lia. }
  destruct H as [H1 H2]. split; [exact H1|]. split; [exact H2|].
  intros Hb. pose proof (pending_le_1 sid w). lia.
Qed.
(* ===================================================================== *)
(** ** The callback dispatcher *)
(* ===================================================================== *)

Section DispatchFacts.

Implicit Types (net : Net) (w : World) (sid : string) (s : SessionState).

(** A retry loop in which no attempt is answered with status 200 returns
    [false] and leaves the metrics and the failure queue alone. *)
Lemma deliver_all_fail net attempt remaining w :
  (forall a, attempt <= a < attempt + remaining -> outcome net a <> Http 200) ->
  fst (deliver net attempt remaining w) = Ok false
  /\ metrics (snd (deliver net attempt remaining w)) = metrics w
  /\ failed_callbacks (snd (deliver net attempt remaining w))
     = failed_callbacks w
  /\ sessions (snd (deliver net attempt remaining w)) = sessions w
  /\ tasks (snd (deliver net attempt remaining w)) = tasks w.
Proof.
  revert attempt w. induction remaining as [|n IH]; intros attempt w H.
  - repeat split; reflexivity.
  - cbn [deliver]. unfold bind at 1. cbn [modify].
    assert (Hn : forall a, S attempt <= a < S attempt + n ->
                           outcome net a <> Http 200)
      by (intros a Ha; apply H; lia).
    assert (H0 : outcome net attempt <> Http 200) by (apply H; lia).
    destruct (outcome net attempt) as [status_code|].
    + destruct (Nat.eqb_spec status_code 200) as [->|_]; [congruence|].
      apply (IH (S attempt) (log_effect (Posted attempt) w) Hn).
    + unfold bind at 1.
      destruct (attempt <? MAX_CALLBACK_RETRIES - 1); cbn [modify ret].
      * apply (IH (S attempt)
                 (log_effect (Slept (2 ^ attempt))
                    (log_effect (Posted attempt) w)) Hn).
      * apply (IH (S attempt) (log_effect (Posted attempt) w) Hn).
Qed.

(** A dispatch that meets an open breaker before its deadline does
    nothing at all. *)
Lemma send_callback_skipped net sid s w deadline :
  circuit_breaker_active (metrics w) = true ->
  circuit_breaker_until (metrics w) = Some deadline ->
  (gate_clock net < deadline)%Z ->
  send_callback net sid s w = (Ok false, w).
Proof.
  intros Ha Hu Hlt.
  unfold send_callback, bind at 1, breaker_gate, bind at 1, get.
  rewrite Ha, Hu.
  destruct (Z.ltb_spec (gate_clock net) deadline); [reflexivity|lia].
Qed.

(** A dispatch that meets an open breaker past its deadline closes it,
    zeroes the counter and goes on as from that state. *)
Lemma send_callback_reopened net sid s w deadline :
  circuit_breaker_active (metrics w) = true ->
  circuit_breaker_until (metrics w) = Some deadline ->
  (deadline <= gate_clock net)%Z ->
  send_callback net sid s w =
  send_callback net sid s
    (set_metrics (set_breaker false (Some deadline) 0 (metrics w)) w).
Proof.
  intros Ha Hu Hge.
  unfold send_callback, bind at 1 3, breaker_gate, bind at 1 3, get.
  rewrite Ha, Hu. cbn [set_metrics metrics set_breaker
                         circuit_breaker_active].
  destruct (Z.ltb_spec (gate_clock net) deadline); [lia|]. reflexivity.
Qed.

(** A dispatch through a closed breaker whose attempts all fail counts one
    failure, and opens the breaker when the count has reached the
    threshold; the count is not reset. *)
Lemma send_callback_exhausted net sid s w :
  circuit_breaker_active (metrics w) = false ->
  (forall a, a < MAX_CALLBACK_RETRIES -> outcome net a <> Http 200) ->
  let w' := snd (send_callback net sid s w) in
  fst (send_callback net sid s w) = Ok false
  /\ total_callbacks_failed (metrics w')
     = total_callbacks_failed (metrics w) + 1
  /\ (if CIRCUIT_BREAKER_THRESHOLD <=? total_callbacks_failed (metrics w) + 1
      then circuit_breaker_active (metrics w') = true
           /\ circuit_breaker_until (metrics w')
              = Some (open_clock net + CIRCUIT_BREAKER_TIMEOUT)%Z
      else circuit_breaker_active (metrics w') = false
           /\ circuit_breaker_until (metrics w')
              = circuit_breaker_until (metrics w)).
Proof.
  intros Ha Hfail. cbv zeta.
  assert (Hgate : breaker_gate net w = (Ok false, w)).
  { unfold breaker_gate, bind, get. rewrite Ha. reflexivity. }
  destruct (deliver_all_fail net 0 MAX_CALLBACK_RETRIES w)
    as (Hr & Hm & _); [intros a Ha'; apply Hfail; lia|].
  assert (Hdel : deliver net 0 MAX_CALLBACK_RETRIES w
                 = (Ok false, snd (deliver net 0 MAX_CALLBACK_RETRIES w))).
  { destruct (deliver net 0 MAX_CALLBACK_RETRIES w) as [r w1].
    cbn [fst snd] in *. subst r. reflexivity. }
  remember (send_callback net sid s w) as res eqn:E.
  unfold send_callback in E.
  erewrite bind_ok in E by exact Hgate. cbv beta iota zeta in E.
  erewrite bind_ok in E by exact Hdel. cbv beta iota zeta in E.
  unfold all_retries_failed, bind, modify, get, ret in E.
  cbn [set_metrics metrics set_breaker total_callbacks_failed
         circuit_breaker_active circuit_breaker_until fst snd] in E.
  rewrite Hm in E. subst res.
  destruct (CIRCUIT_BREAKER_THRESHOLD <=? total_callbacks_failed (metrics w) + 1);
    cbn; rewrite ?Ha; repeat split; reflexivity.
Qed.

Lemma breaker_gate_closed net w :
  circuit_breaker_active (metrics w) = false ->
  breaker_gate net w = (Ok false, w).
Proof. intros Ha. unfold breaker_gate, bind, get. rewrite Ha. reflexivity. Qed.

Lemma all_retries_failed_journal net sid payload w :
  fst (all_retries_failed net sid payload w) = Ok tt
  /\ journal (snd (all_retries_failed net sid payload w)) = journal w.
Proof.
  unfold all_retries_failed, bind, modify, get, ret.
  cbn [set_metrics metrics set_breaker total_callbacks_failed].
  destruct (CIRCUIT_BREAKER_THRESHOLD <=? _); split; reflexivity.
Qed.

(** The journal of a dispatch through the closed breaker whose retry loop
    returns [false] is the journal of that loop. *)
Lemma send_callback_journal net sid s w w1 :
  circuit_breaker_active (metrics w) = false ->
  deliver net 0 MAX_CALLBACK_RETRIES w = (Ok false, w1) ->
  journal (snd (send_callback net sid s w)) = journal w1.
Proof.
  intros Ha Hd. unfold send_callback.
  erewrite bind_ok by (apply breaker_gate_closed, Ha). cbv beta iota zeta.
  erewrite bind_ok by exact Hd. cbv beta iota zeta.
  destruct (all_retries_failed_journal net sid (build_report sid s) w1)
    as [H1 H2].
  unfold bind at 1.
  destruct (all_retries_failed net sid (build_report sid s) w1) as [r w2].
  cbn [fst snd] in *. subst r. exact H2.
Qed.

(** Attempts answered with a status other than 200 are repeated at once:
    three posts and no sleep. *)
Lemma http_failures_retried_at_once net sid s w :
  circuit_breaker_active (metrics w) = false ->
  (forall a, a < MAX_CALLBACK_RETRIES ->
             exists c, outcome net a = Http c /\ c <> 200) ->
  journal (snd (send_callback net sid s w))
  = journal w ++ [Posted 0; Posted 1; Posted 2].
Proof.
  intros Ha H.
  destruct (H 0) as (c0 & E0 & N0); [unfold MAX_CALLBACK_RETRIES; lia|].
  destruct (H 1) as (c1 & E1 & N1); [unfold MAX_CALLBACK_RETRIES; lia|].
  destruct (H 2) as (c2 & E2 & N2); [unfold MAX_CALLBACK_RETRIES; lia|].
  apply Nat.eqb_neq in N0, N1, N2.
  rewrite (send_callback_journal net sid s w
             (log_effect (Posted 2)
                (log_effect (Posted 1) (log_effect (Posted 0) w))) Ha).
  - cbn [journal log_effect]. rewrite <- !app_assoc. reflexivity.
  - cbn [deliver MAX_CALLBACK_RETRIES]. unfold bind, modify.
    rewrite E0, N0, E1, N1, E2, N2. reflexivity.
Qed.

(** Attempts that raise are separated by sleeps of 1 and 2 seconds. *)
Lemma transport_errors_backed_off net sid s w :
  circuit_breaker_active (metrics w) = false ->
  (forall a, a < MAX_CALLBACK_RETRIES -> outcome net a = TransportError) ->
  journal (snd (send_callback net sid s w))
  = journal w ++ [Posted 0; Slept 1; Posted 1; Slept 2; Posted 2].
Proof.
  intros Ha H.
  pose proof (H 0 ltac:(unfold MAX_CALLBACK_RETRIES; lia)) as E0.
  pose proof (H 1 ltac:(unfold MAX_CALLBACK_RETRIES; lia)) as E1.
  pose proof (H 2 ltac:(unfold MAX_CALLBACK_RETRIES; lia)) as E2.
  rewrite (send_callback_journal net sid s w
             (log_effect (Posted 2)
                (log_effect (Slept 2)
                   (log_effect (Posted 1)
                      (log_effect (Slept 1) (log_effect (Posted 0) w)))))
             Ha).
  - cbn [journal log_effect]. rewrite <- !app_assoc. reflexivity.
  - cbn [deliver MAX_CALLBACK_RETRIES]. unfold bind, modify.
    rewrite E0, E1, E2. reflexivity.
Qed.

End DispatchFacts.

(** C4, as stated, fails: the dispatch that brings the failure counter to 5
    opens the breaker for 300 seconds but does not reset the counter. *)
Lemma C4_counter_kept_when_breaker_opens :
  let w' := snd (send_callback net_http_500 "s1" blank_session
                   (world_failed 4)) in
  circuit_breaker_active (metrics w') = true
  /\ circuit_breaker_until (metrics w') = Some 1300%Z
  /\ total_callbacks_failed (metrics w') = 5
  /\ total_callbacks_failed (metrics w') <> 0.
Proof. vm_compute. repeat split; discriminate. Qed.

(** C4, amended. A dispatch through the closed breaker whose attempts all
    fail brings the failure counter from 4 to 5 (or beyond the threshold in
    general), opens the breaker until 300 seconds after that moment and
    leaves the counter at the value reached.  While the breaker is open and
    its deadline has not passed, a dispatch is skipped: it returns [false]
    and changes nothing, neither the counter nor the journal of delivery
    attempts.  At or after the deadline, a dispatch first closes the
    breaker and sets the counter to zero and then proceeds exactly as a
    dispatch started in that state. *)
Theorem C4_circuit_breaker net sid s w :
  (circuit_breaker_active (metrics w) = false ->
   (forall a, a < MAX_CALLBACK_RETRIES -> outcome net a <> Http 200) ->
   CIRCUIT_BREAKER_THRESHOLD <= total_callbacks_failed (metrics w) + 1 ->
   let w' := snd (send_callback net sid s w) in
   fst (send_callback net sid s w) = Ok false
   /\ circuit_breaker_active (metrics w') = true
   /\ circuit_breaker_until (metrics w') = Some (open_clock net + 300)%Z
   /\ total_callbacks_failed (metrics w')
      = total_callbacks_failed (metrics w) + 1)
  /\ (forall deadline,
        circuit_breaker_active (metrics w) = true ->
        circuit_breaker_until (metrics w) = Some deadline ->
        (gate_clock net < deadline)%Z ->
        send_callback net sid s w = (Ok false, w))
  /\ (forall deadline,
        circuit_breaker_active (metrics w) = true ->
        circuit_breaker_until (metrics w) = Some deadline ->
        (deadline <= gate_clock net)%Z ->
        let closed :=
          set_metrics (set_breaker false (Some deadline) 0 (metrics w)) w in
        circuit_breaker_active (metrics closed) = false
        /\ total_callbacks_failed (metrics closed) = 0
        /\ send_callback net sid s w = send_callback net sid s closed).
Proof.
  split; [|split].
  - intros Ha Hfail Hth. cbv zeta.
    destruct (send_callback_exhausted net sid s w Ha Hfail) as (Hr & Hc & Hb).
    apply Nat.leb_le in Hth. rewrite Hth in Hb. destruct Hb as [Hb1 Hb2].
    repeat split; assumption.
  - intros deadline. apply send_callback_skipped.
  - intros deadline Ha Hu Hge. cbv zeta.
    split; [reflexivity|]. split; [reflexivity|].
    apply send_callback_reopened; assumption.
Qed.

Lemma C4_circuit_breaker_witness :
  (circuit_breaker_active
     (metrics (snd (send_callback net_http_500 "s1" blank_session
                      (world_failed 4)))) = true
   /\ total_callbacks_failed
        (metrics (snd (send_callback net_http_500 "s1" blank_session
                         (world_failed 4)))) = 5)
  /\ send_callback net_http_500 "s1" blank_session (world_open 1300%Z)
     = (Ok false, world_open 1300%Z)
  /\ send_callback net_http_500 "s1" blank_session (world_open 1000%Z)
     = send_callback net_http_500 "s1" blank_session
         (set_metrics
            (set_breaker false (Some 1000%Z) 0 (metrics (world_open 1000%Z)))
            (world_open 1000%Z)).
Proof.
  split; [|split].
  - destruct (C4_circuit_breaker net_http_500 "s1" blank_session
                (world_failed 4)) as (H & _ & _).
    destruct H as (_ & Ha & _ & Hc).
    + reflexivity.
    + intros a _. discriminate.
    + vm_compute. lia.
    + split; [exact Ha|exact Hc].
  - destruct (C4_circuit_breaker net_http_500 "s1" blank_session
                (world_open 1300%Z)) as (_ & H & _).
    apply (H 1300%Z); [reflexivity|reflexivity|reflexivity].
  - destruct (C4_circuit_breaker net_http_500 "s1" blank_session
                (world_open 1000%Z)) as (_ & _ & H).
    apply (H 1000%Z); [reflexivity|reflexivity|cbn; lia].
Defined.

(** C5. The code at the failing input: when the three attempts are
    answered with status 500 the dispatcher posts three times and never
    sleeps, whereas three transport errors make it sleep 1 and then 2
    seconds between the attempts. *)
Theorem C5_no_backoff_after_http_failure :
  journal (snd (send_callback net_http_500 "s1" blank_session
                  initial_world))
  = [Posted 0; Posted 1; Posted 2]
  /\ journal (snd (send_callback net_unreachable "s1" blank_session
                     initial_world))
     = [Posted 0; Slept 1; Posted 1; Slept 2; Posted 2].
Proof. split; vm_compute; reflexivity. Qed.
(* ===================================================================== *)
(** ** Fault containment *)
(* ===================================================================== *)

Section FaultFacts.

Implicit Types (st : store) (sid text : string) (s : SessionState)
  (w : World) (env : Env).

Lemma current_count env sid w :
  count (current env sid (sessions w)) = count_of sid w.
Proof.
  unfold count_of. destruct (lookup_session sid (sessions w)) as [s|] eqn:E.
  - rewrite (current_stored _ _ _ _ E). reflexivity.
  - rewrite (current_fresh _ _ _ E). reflexivity.
Qed.

Lemma current_history env sid w :
  history (current env sid (sessions w)) = history_of sid w.
Proof.
  unfold history_of. destruct (lookup_session sid (sessions w)) as [s|] eqn:E.
  - rewrite (current_stored _ _ _ _ E). reflexivity.
  - rewrite (current_fresh _ _ _ E). reflexivity.
Qed.

Lemma after_extract_count env text s :
  count (after_extract env text s) = count s + 1.
Proof.
  unfold after_extract, after_touch. cbn. rewrite extract_session.
  reflexivity.
Qed.

Lemma after_extract_history env text s :
  history (after_extract env text s) = history s.
Proof.
  unfold after_extract, after_touch. cbn. rewrite extract_session.
  reflexivity.
Qed.

(** The handler raises on a scalar body and on nothing else. *)
Lemma honeypot_never_raises env key payload w :
  payload <> Scalar ->
  exists r, fst (honeypot env key payload w) = Ok r.
Proof.
  intros Hp. destruct (decide (key = Some (API_KEY env))) as [->|Hk].
  - destruct payload as [| | |sid text]; [| contradiction| |].
    + rewrite honeypot_no_message. eauto.
    + rewrite honeypot_untyped. eauto.
    + destruct (valid_request sid text) eqn:Hv.
      * rewrite honeypot_closed by exact Hv. eauto.
      * rewrite honeypot_invalid by exact Hv. eauto.
  - rewrite honeypot_unauthorized by exact Hk. eauto.
Qed.

End FaultFacts.


(* ===================================================================== *)
(** ** The conversation history *)
(* ===================================================================== *)

Section HistoryFacts.

Implicit Types (st : store) (sid text : string) (s : SessionState)
  (w : World) (env : Env).

Lemma length_last_n {A} n (l : list A) :
  length (last_n n l) = Nat.min n (length l).
Proof. unfold last_n. rewrite length_drop. lia. Qed.

Lemma store_history_length text reply s :
  length (history (store_history text reply s)) <= MAX_CONVERSATION_HISTORY.
Proof.
  unfold store_history. cbn [history].
  destruct (Nat.ltb_spec MAX_CONVERSATION_HISTORY
              (length (history s ++ [mkExchange text reply]))) as [H|H].
  - rewrite length_last_n. lia.
  - exact H.
Qed.

(** Appending to a full history drops its first entry. *)
Lemma store_history_full text reply s :
  length (history s) = MAX_CONVERSATION_HISTORY ->
  history (store_history text reply s)
  = drop 1 (history s) ++ [mkExchange text reply].
Proof.
  intros H. unfold store_history. cbn [history].
  rewrite length_app. cbn [length]. rewrite H.
  replace (MAX_CONVERSATION_HISTORY <? MAX_CONVERSATION_HISTORY + 1)
    with true by (symmetry; apply Nat.ltb_lt; lia).
  unfold last_n. rewrite length_app. cbn [length]. rewrite H.
  replace (MAX_CONVERSATION_HISTORY + 1 - MAX_CONVERSATION_HISTORY) with 1
    by lia.
  rewrite drop_app_le by (rewrite H; unfold MAX_CONVERSATION_HISTORY; lia).
  reflexivity.
Qed.

Lemma store_history_room text reply s :
  length (history s) < MAX_CONVERSATION_HISTORY ->
  history (store_history text reply s)
  = history s ++ [mkExchange text reply].
Proof.
  intros H. unfold store_history. cbn [history].
  rewrite length_app. cbn [length].
  replace (MAX_CONVERSATION_HISTORY <? length (history s) + 1)
    with false by (symmetry; apply Nat.ltb_ge; lia).
  reflexivity.
Qed.

Lemma after_history_history env text s :
  history (after_history env text s)
  = history (store_history text (reply_for env text s) s).
Proof.
  unfold after_history, store_history. cbn [history].
  unfold after_respond. cbn [history set_last_response_category].
  rewrite after_extract_history. reflexivity.
Qed.

Lemma after_message_history env text s :
  history (after_message env text s) = history (after_history env text s).
Proof. unfold after_message. destruct (fires env text s); reflexivity. Qed.

Lemma Forall_del (P : string * SessionState -> Prop) k st :
  Forall P st -> Forall P (del_session k st).
Proof.
  induction 1 as [|[k' s] st HP _ IH]; cbn; [constructor|].
  destruct (String.eqb k' k); [exact IH|constructor; assumption].
Qed.

Lemma Forall_evict (P : string * SessionState -> Prop) n st :
  Forall P st -> Forall P (evict_loop n st).
Proof.
  revert st. induction n as [|n IH]; intros st H; cbn [evict_loop];
    [exact H|].
  destruct (MAX_SESSIONS <? length st); [|exact H].
  destruct st as [|[k s] st]; [exact H|].
  apply IH, Forall_del, H.
Qed.

Lemma Forall_lookup_session (P : string * SessionState -> Prop) sid st s :
  Forall P st -> lookup_session sid st = Some s -> P (sid, s).
Proof.
  induction 1 as [|[k' s'] st HP _ IH]; cbn; [discriminate|].
  destruct (String.eqb_spec k' sid) as [->|_]; [|exact IH].
  intros [= ->]. exact HP.
Qed.

Lemma Forall_ensure (P : string * SessionState -> Prop) env sid st :
  Forall P st ->
  P (sid, new_SessionState (created_clock env) (accessed_clock env)) ->
  Forall P (ensure_session env sid st).
Proof.
  intros H Hnew. unfold ensure_session.
  destruct (bool_decide _); [exact H|]. cbv zeta.
  apply Forall_evict, Forall_app. split; [exact H|].
  constructor; [exact Hnew|constructor].
Qed.

Lemma Forall_foldl_del (P : string * SessionState -> Prop) l st :
  Forall P st -> Forall P (foldl (fun st k => del_session k st) st l).
Proof.
  revert st. induction l as [|k l IH]; intros st H; cbn; [exact H|].
  apply IH, Forall_del, H.
Qed.

(** Every state of every stored session has a short history, whatever the
    handler did and wherever it was interrupted. *)
Lemma handled_short env sid text w :
  Forall short_history (sessions w) ->
  Forall short_history (sessions (snd (handled env sid text w))).
Proof.
  intros H.
  assert (Hnew : short_history
            (sid, new_SessionState (created_clock env) (accessed_clock env)))
    by (unfold short_history; cbn; unfold MAX_CONVERSATION_HISTORY; lia).
  pose proof (Forall_ensure _ env sid _ H Hnew) as He.
  pose proof (Forall_del _ sid _ He) as Hd.
  fold (others env sid (sessions w)) in Hd.
  pose proof (Forall_lookup_session _ _ _ _ He
                (ensure_session_lookup env sid (sessions w))) as Hcur.
  unfold short_history in Hcur. cbn [snd] in Hcur.
  assert (Hlast : forall s, length (history s) <= MAX_CONVERSATION_HISTORY ->
            Forall short_history (others env sid (sessions w) ++ [(sid, s)])).
  { intros s Hs. apply Forall_app. split; [exact Hd|].
    constructor; [exact Hs|constructor]. }
  assert (Hh : length (history (after_history env text
                                  (current env sid (sessions w))))
               <= MAX_CONVERSATION_HISTORY)
    by (rewrite after_history_history; apply store_history_length).
  assert (Hm : length (history (after_message env text
                                  (current env sid (sessions w))))
               <= MAX_CONVERSATION_HISTORY)
    by (rewrite after_message_history; exact Hh).
  unfold handled.
  destruct (fault env) as [[]|]; cbn [snd sessions set_sessions].
  - exact H.
  - exact He.
  - apply Hlast. exact Hcur.
  - apply Hlast. rewrite after_extract_history. exact Hcur.
  - apply Hlast. unfold after_respond. cbn [history set_last_response_category].
    rewrite after_extract_history. exact Hcur.
  - apply Hlast. rewrite after_history_history. apply store_history_length.
  - destruct (fires _ _ _); cbn [snd sessions set_sessions];
      apply Hlast; assumption.
  - destruct (fires _ _ _); cbn [snd sessions set_sessions];
      apply Hlast; assumption.
  - destruct (fires _ _ _); cbn [snd sessions set_sessions];
      apply Hlast; assumption.
Qed.

Lemma step_short e w :
  Forall short_history (sessions w) ->
  Forall short_history (sessions (do_step e w)).
Proof.
  intros H.
  destruct e as [env key payload|now|net sid' s'|net|net attempt|attempt
                 |net sid' report]; cbn [do_step].
  - destruct (honeypot_cases (in_run env) key payload w)
      as [E|[E|[E|[E|(sid & text & _ & _ & _ & E)]]]]; rewrite E; cbn [snd];
      try exact H.
    apply handled_short, H.
  - unfold cleanup_cycle. cbn. apply Forall_foldl_del, H.
  - destruct (send_callback_keeps net sid' s' w) as [-> _]. exact H.
  - destruct (breaker_gate_keeps net w) as [-> _]. exact H.
  - destruct (post_attempt_keeps net attempt w) as [-> _]. exact H.
  - exact H.
  - destruct (all_retries_failed_keeps net sid' report w) as [-> _]. exact H.
Qed.

Lemma run_short steps w :
  Forall short_history (sessions w) ->
  Forall short_history (sessions (run steps w)).
Proof.
  revert w. induction steps as [|e steps IH]; intros w H; [exact H|].
  rewrite run_cons. apply IH, step_short, H.
Qed.

Lemma lookup_session_elem sid st s :
  lookup_session sid st = Some s -> (sid, s) ∈ st.
Proof.
  induction st as [|[k s'] st IH]; cbn; [discriminate|].
  destruct (String.eqb_spec k sid) as [->|_].
  - intros [= ->]. left.
  - intros H. right. apply IH, H.
Qed.

End HistoryFacts.

(** C9. In every state the service can reach, the history of every session
    has at most 10 entries; an accepted message appends its (incoming,
    reply) pair at the end, and when the history already holds 10 entries
    its first, oldest entry is dropped and the others keep their order. *)
Theorem C9_history_bounded :
  (forall steps sid s,
      lookup_session sid (sessions (run steps initial_world)) = Some s ->
      length (history s) <= 10)
  /\ (forall env sid text w,
        valid_request sid text = true ->
        fault env = None ->
        let res := honeypot env (Some (API_KEY env)) (Fields sid text) w in
        exists reply,
          fst res = Ok (Success reply)
          /\ length (history_of sid (snd res)) <= 10
          /\ (length (history_of sid w) < 10 ->
              history_of sid (snd res)
              = history_of sid w ++ [mkExchange text reply])
          /\ (length (history_of sid w) = 10 ->
              history_of sid (snd res)
              = drop 1 (history_of sid w) ++ [mkExchange text reply])).
Proof.
  split.
  - intros steps sid s H.
    assert (Hall : Forall short_history (sessions (run steps initial_world)))
      by (apply run_short; constructor).
    apply lookup_session_elem in H.
    rewrite Forall_forall in Hall. apply (Hall _ H).
  - intros env sid text w Hv Hf. cbv zeta.
    rewrite honeypot_closed by exact Hv. cbn [fst snd].
    exists (reply_for env text (current env sid (sessions w))).
    split; [unfold handled; rewrite Hf; reflexivity|].
    assert (Hh : history_of sid (snd (handled env sid text w))
                 = history (store_history text
                              (reply_for env text
                                 (current env sid (sessions w)))
                              (current env sid (sessions w)))).
    { unfold history_of. rewrite handled_lookup by exact Hf.
      rewrite after_message_history. apply after_history_history. }
    rewrite Hh, <- (current_history env sid w).
    split; [apply store_history_length|]. split; intros H.
    + apply store_history_room, H.
    + apply store_history_full, H.
Qed.
(* ===================================================================== *)
(** ** Capacity and recency of the session store *)
(* ===================================================================== *)

Section CapacityFacts.

Implicit Types (st : store) (sid text k : string) (s : SessionState)
  (w : World) (env : Env).

Lemma lookup_None_keys sid st :
  lookup_session sid st = None <-> sid ∉ st.*1.
Proof.
  induction st as [|[k s] st IH]; cbn.
  - split; [intros _; apply not_elem_of_nil|reflexivity].
  - rewrite not_elem_of_cons.
    destruct (String.eqb_spec k sid) as [->|Hne].
    + split; [discriminate|intros [H _]; congruence].
    + rewrite IH. split; [intros H; split; [congruence|exact H]|tauto].
Qed.

Lemma keys_del k k' st :
  k' ∈ (del_session k st).*1 -> k' ∈ st.*1.
Proof.
  induction st as [|[k0 s] st IH]; cbn; [done|].
  destruct (String.eqb k0 k); cbn.
  - intros H. right. apply IH, H.
  - rewrite !elem_of_cons. intros [->|H]; [by left|right; apply IH, H].
Qed.

Lemma NoDup_del k st : NoDup st.*1 -> NoDup (del_session k st).*1.
Proof.
  induction st as [|[k0 s] st IH]; cbn; [done|].
  rewrite NoDup_cons. intros [Hk Hnd].
  destruct (String.eqb k0 k); cbn; [apply IH, Hnd|].
  apply NoDup_cons. split; [|apply IH, Hnd].
  intros H. apply Hk. eapply keys_del, H.
Qed.

Lemma NoDup_evict n st : NoDup st.*1 -> NoDup (evict_loop n st).*1.
Proof.
  revert st. induction n as [|n IH]; intros st H; cbn [evict_loop];
    [exact H|].
  destruct (MAX_SESSIONS <? length st); [|exact H].
  destruct st as [|[k s] st]; [exact H|].
  apply IH, NoDup_del, H.
Qed.

Lemma NoDup_snoc_key sid s st :
  NoDup st.*1 -> lookup_session sid st = None -> NoDup (st ++ [(sid, s)]).*1.
Proof.
  intros Hnd Hno. rewrite fmap_app. apply NoDup_app. split; [exact Hnd|].
  split; [|cbn; apply NoDup_singleton].
  intros k Hk. cbn. rewrite list_elem_of_singleton. intros ->.
  apply lookup_None_keys in Hno. contradiction.
Qed.

Lemma NoDup_ensure env sid st :
  NoDup st.*1 -> NoDup (ensure_session env sid st).*1.
Proof.
  intros H. unfold ensure_session.
  destruct (lookup_session sid st) as [s|] eqn:E.
  - rewrite bool_decide_eq_true_2 by eauto. exact H.
  - rewrite bool_decide_eq_false_2 by (intros [? ?]; congruence).
    cbv zeta. apply NoDup_evict, NoDup_snoc_key; assumption.
Qed.

Lemma NoDup_foldl_del l st :
  NoDup st.*1 -> NoDup (foldl (fun st k => del_session k st) st l).*1.
Proof.
  revert st. induction l as [|k l IH]; intros st H; cbn; [exact H|].
  apply IH, NoDup_del, H.
Qed.

Lemma handled_NoDup env sid text w :
  NoDup (sessions w).*1 ->
  NoDup (sessions (snd (handled env sid text w))).*1.
Proof.
  intros H.
  pose proof (NoDup_ensure env sid _ H) as He.
  assert (Hlast : forall s,
            NoDup (others env sid (sessions w) ++ [(sid, s)]).*1).
  { intros s. apply NoDup_snoc_key; [|apply others_lookup].
    apply NoDup_del, He. }
  unfold handled.
  destruct (fault env) as [[]|]; cbn [snd sessions set_sessions];
    try apply Hlast; try assumption.
  all: destruct (fires _ _ _); cbn [snd sessions set_sessions]; apply Hlast.
Qed.

Lemma step_NoDup e w :
  NoDup (sessions w).*1 -> NoDup (sessions (do_step e w)).*1.
Proof.
  intros H.
  destruct e as [env key payload|now|net sid' s'|net|net attempt|attempt
                 |net sid' report]; cbn [do_step].
  - destruct (honeypot_cases (in_run env) key payload w)
      as [E|[E|[E|[E|(sid & text & _ & _ & _ & E)]]]]; rewrite E; cbn [snd];
      try exact H.
    apply handled_NoDup, H.
  - unfold cleanup_cycle. cbn. apply NoDup_foldl_del, H.
  - destruct (send_callback_keeps net sid' s' w) as [-> _]. exact H.
  - destruct (breaker_gate_keeps net w) as [-> _]. exact H.
  - destruct (post_attempt_keeps net attempt w) as [-> _]. exact H.
  - exact H.
  - destruct (all_retries_failed_keeps net sid' report w) as [-> _]. exact H.
Qed.

Lemma run_NoDup steps w :
  NoDup (sessions w).*1 -> NoDup (sessions (run steps w)).*1.
Proof.
  revert w. induction steps as [|e steps IH]; intros w H; [exact H|].
  rewrite run_cons. apply IH, step_NoDup, H.
Qed.

Lemma ensure_length env sid st :
  length st <= MAX_SESSIONS ->
  length (ensure_session env sid st) <= MAX_SESSIONS.
Proof.
  intros H. unfold ensure_session.
  destruct (bool_decide _); [exact H|]. cbv zeta.
  apply evict_loop_bound. lia.
Qed.

Lemma handled_length env sid text w :
  length (sessions w) <= MAX_SESSIONS ->
  length (sessions (snd (handled env sid text w))) <= MAX_SESSIONS.
Proof.
  intros H.
  pose proof (ensure_length env sid _ H) as He.
  assert (Hlast : forall s,
            length (others env sid (sessions w) ++ [(sid, s)])
            <= MAX_SESSIONS).
  { intros s. rewrite length_app. cbn [length]. unfold others.
    pose proof (length_del_present sid (ensure_session env sid (sessions w)))
      as Hd.
    rewrite ensure_session_lookup in Hd. specialize (Hd ltac:(eauto)). lia. }
  unfold handled.
  destruct (fault env) as [[]|]; cbn [snd sessions set_sessions];
    try apply Hlast; try assumption.
  all: destruct (fires _ _ _); cbn [snd sessions set_sessions]; apply Hlast.
Qed.

Lemma step_length e w :
  length (sessions w) <= MAX_SESSIONS ->
  length (sessions (do_step e w)) <= MAX_SESSIONS.
Proof.
  intros H.
  destruct e as [env key payload|now|net sid' s'|net|net attempt|attempt
                 |net sid' report]; cbn [do_step].
  - destruct (honeypot_cases (in_run env) key payload w)
      as [E|[E|[E|[E|(sid & text & _ & _ & _ & E)]]]]; rewrite E; cbn [snd];
      try exact H.
    apply handled_length, H.
  - unfold cleanup_cycle. cbn.
    etransitivity; [apply foldl_del_length|exact H].
  - destruct (send_callback_keeps net sid' s' w) as [-> _]. exact H.
  - destruct (breaker_gate_keeps net w) as [-> _]. exact H.
  - destruct (post_attempt_keeps net attempt w) as [-> _]. exact H.
  - exact H.
  - destruct (all_retries_failed_keeps net sid' report w) as [-> _]. exact H.
Qed.

Lemma run_length steps w :
  length (sessions w) <= MAX_SESSIONS ->
  length (sessions (run steps w)) <= MAX_SESSIONS.
Proof.
  revert w. induction steps as [|e steps IH]; intros w H; [exact H|].
  rewrite run_cons. apply IH, step_length, H.
Qed.

Lemma lookup_drop_None sid n st :
  lookup_session sid st = None -> lookup_session sid (drop n st) = None.
Proof.
  revert n. induction st as [|[k s] st IH]; intros [|n]; cbn; try done.
  destruct (String.eqb k sid); [discriminate|]. apply IH.
Qed.

(** Admission of a new identifier: the new session goes to the end and the
    oldest entries in excess of the bound are dropped. *)
Lemma ensure_new env sid st :
  NoDup st.*1 ->
  lookup_session sid st = None ->
  ensure_session env sid st =
  drop (length st + 1 - MAX_SESSIONS) st
    ++ [(sid, new_SessionState (created_clock env) (accessed_clock env))].
Proof.
  intros Hnd Hno. unfold ensure_session.
  rewrite bool_decide_eq_false_2 by (intros [? ?]; congruence). cbv zeta.
  rewrite evict_loop_drop by (apply NoDup_snoc_key; assumption).
  rewrite length_app. cbn [length].
  replace (Nat.min (length st + 1) (length st + 1 - MAX_SESSIONS))
    with (length st + 1 - MAX_SESSIONS) by lia.
  apply drop_app_le. unfold MAX_SESSIONS. lia.
Qed.

End CapacityFacts.

Section RecencyFacts.

Implicit Types (st : store) (sid text k : string) (s : SessionState)
  (w : World) (env : Env) (t : time).

Lemma sorted_del k st : by_recency st -> by_recency (del_session k st).
Proof.
  unfold by_recency.
  induction st as [|[k0 s] st IH]; cbn [del_session]; [done|].
  rewrite StronglySorted_cons. intros [Hall Hst].
  destruct (String.eqb k0 k); [apply IH, Hst|].
  apply StronglySorted_cons. split; [apply Forall_del, Hall|apply IH, Hst].
Qed.

Lemma sorted_evict n st : by_recency st -> by_recency (evict_loop n st).
Proof.
  revert st. induction n as [|n IH]; intros st H; cbn [evict_loop];
    [exact H|].
  destruct (MAX_SESSIONS <? length st); [|exact H].
  destruct st as [|[k s] st]; [exact H|].
  apply IH, sorted_del, H.
Qed.

Lemma sorted_foldl_del l st :
  by_recency st -> by_recency (foldl (fun st k => del_session k st) st l).
Proof.
  revert st. induction l as [|k l IH]; intros st H; cbn; [exact H|].
  apply IH, sorted_del, H.
Qed.

(** A session accessed at [t] or later may be put behind sessions that were
    all accessed at [t] or earlier. *)
Lemma sorted_snoc t sid s st :
  by_recency st -> Forall (not_after t) st ->
  (t <= last_accessed s)%Z ->
  by_recency (st ++ [(sid, s)]).
Proof.
  intros Hst Hall Ht. apply StronglySorted_app.
  split; [|split; [exact Hst|]].
  - intros x1 x2 H1 H2. apply list_elem_of_singleton in H2. subst x2.
    rewrite Forall_forall in Hall. specialize (Hall _ H1).
    unfold accessed_before, not_after in *. cbn [snd]. lia.
  - apply StronglySorted_cons. split; constructor.
Qed.

Lemma not_after_mono t t' st :
  (t <= t')%Z -> Forall (not_after t) st -> Forall (not_after t') st.
Proof.
  intros Ht H. eapply Forall_impl; [exact H|].
  intros e He. unfold not_after in *. lia.
Qed.

Lemma sorted_ensure t env sid st :
  by_recency st -> Forall (not_after t) st ->
  (t <= accessed_clock env)%Z ->
  by_recency (ensure_session env sid st).
Proof.
  intros Hst Hall Ht. unfold ensure_session.
  destruct (bool_decide _); [exact Hst|]. cbv zeta.
  apply sorted_evict, (sorted_snoc t); [assumption..|exact Ht].
Qed.

Lemma after_extract_accessed env text s :
  last_accessed (after_extract env text s) = touch_clock env.
Proof.
  unfold after_extract, after_touch. cbn. rewrite extract_session.
  reflexivity.
Qed.

Lemma after_history_accessed env text s :
  last_accessed (after_history env text s) = touch_clock env.
Proof.
  unfold after_history, after_respond. cbn. apply after_extract_accessed.
Qed.

Lemma after_message_accessed env text s :
  last_accessed (after_message env text s) = touch_clock env.
Proof.
  unfold after_message. destruct (fires env text s); cbn;
    apply after_history_accessed.
Qed.

(** One handled request keeps the store in recency order, whatever the
    handler did and wherever it was interrupted. *)
Lemma handled_recency t env sid text w :
  (t <= accessed_clock env <= touch_clock env)%Z ->
  by_recency (sessions w) -> Forall (not_after t) (sessions w) ->
  by_recency (sessions (snd (handled env sid text w)))
  /\ Forall (not_after (touch_clock env))
            (sessions (snd (handled env sid text w))).
Proof.
  intros [Ht1 Ht2] Hst Hall.
  assert (Hall' : Forall (not_after (touch_clock env)) (sessions w))
    by (apply (not_after_mono t); [lia|exact Hall]).
  assert (Hnew : not_after (touch_clock env)
            (sid, new_SessionState (created_clock env) (accessed_clock env)))
    by (unfold not_after; cbn; lia).
  pose proof (sorted_ensure t env sid _ Hst Hall Ht1) as He.
  pose proof (Forall_ensure _ env sid _ Hall' Hnew) as Hae.
  pose proof (sorted_del sid _ He) as Hd.
  pose proof (Forall_del _ sid _ Hae) as Had.
  fold (others env sid (sessions w)) in Hd, Had.
  assert (Hlast : forall s, last_accessed s = touch_clock env ->
            by_recency (others env sid (sessions w) ++ [(sid, s)])
            /\ Forall (not_after (touch_clock env))
                 (others env sid (sessions w) ++ [(sid, s)])).
  { intros s Hs. split.
    - apply (sorted_snoc (touch_clock env)); [assumption..|lia].
    - apply Forall_app. split; [exact Had|].
      constructor; [unfold not_after; cbn; lia|constructor]. }
  unfold handled.
  destruct (fault env) as [[]|]; cbn [snd sessions set_sessions].
  - split; assumption.
  - split; assumption.
  - apply Hlast. reflexivity.
  - apply Hlast, after_extract_accessed.
  - apply Hlast. unfold after_respond. cbn. apply after_extract_accessed.
  - apply Hlast, after_history_accessed.
  - destruct (fires env text _) eqn:E; cbn [snd sessions set_sessions];
      apply Hlast; [apply after_history_accessed
                   |apply after_message_accessed].
  - destruct (fires env text _) eqn:E; cbn [snd sessions set_sessions];
      apply Hlast, after_message_accessed.
  - destruct (fires env text _) eqn:E; cbn [sessions set_sessions];
      apply Hlast, after_message_accessed.
Qed.

Lemma run_recency steps t w :
  clocks_from t steps ->
  by_recency (sessions w) -> Forall (not_after t) (sessions w) ->
  by_recency (sessions (run steps w)).
Proof.
  revert t w. induction steps as [|e steps IH]; intros t w Hc Hst Hall;
    [exact Hst|].
  rewrite run_cons.
  destruct e as [env key payload|now|net sid' s'|net|net attempt|attempt
                 |net sid' report];
    cbn [clocks_from do_step] in *.
  - destruct Hc as [Ht Hc].
    destruct (in_run_clocks env) as [Ea Et].
    destruct (honeypot_cases (in_run env) key payload w)
      as [E|[E|[E|[E|(sid & text & _ & _ & _ & E)]]]]; rewrite E; cbn [snd].
    1-4: apply (IH (touch_clock env)); [exact Hc|exact Hst|];
      apply (not_after_mono t); [lia|exact Hall].
    rewrite <- Ea, <- Et in Ht.
    destruct (handled_recency t (in_run env) sid text w Ht Hst Hall)
      as [H1 H2].
    rewrite Et in H2.
    apply (IH (touch_clock env)); assumption.
  - apply (IH t); [exact Hc| |].
    + unfold cleanup_cycle. cbn. apply sorted_foldl_del, Hst.
    + unfold cleanup_cycle. cbn. apply Forall_foldl_del, Hall.
  - destruct (send_callback_keeps net sid' s' w) as [Hs _].
    apply (IH t); [exact Hc|rewrite Hs; exact Hst|rewrite Hs; exact Hall].
  - destruct (breaker_gate_keeps net w) as [Hs _].
    apply (IH t); [exact Hc|rewrite Hs; exact Hst|rewrite Hs; exact Hall].
  - destruct (post_attempt_keeps net attempt w) as [Hs _].
    apply (IH t); [exact Hc|rewrite Hs; exact Hst|rewrite Hs; exact Hall].
  - apply (IH t); [exact Hc|exact Hst|exact Hall].
  - destruct (all_retries_failed_keeps net sid' report w) as [Hs _].
    apply (IH t); [exact Hc|rewrite Hs; exact Hst|rewrite Hs; exact Hall].
Qed.

End RecencyFacts.

(** C8. The store never holds more than 500 sessions in any state the
    service can reach, and its keys stay distinct.  An accepted message for
    an unknown identifier appends the new session and drops, from the front
    of the store, exactly the entries in excess of 500: none while there is
    room, the single oldest one when the store is full.  After any accepted
    message its session is the last entry of the store.  As long as the
    clock does not go backwards the store is ordered by the time of last
    access, so the entries dropped from the front are the least recently
    touched ones and the last entry is the most recently used. *)
Theorem C8_store_bounded_lru :
  (forall steps,
      length (sessions (run steps initial_world)) <= 500
      /\ NoDup (sessions (run steps initial_world)).*1)
  /\ (forall env sid text w,
        valid_request sid text = true ->
        fault env = None ->
        NoDup (sessions w).*1 ->
        lookup_session sid (sessions w) = None ->
        exists s',
          sessions (snd (honeypot env (Some (API_KEY env))
                           (Fields sid text) w))
          = drop (length (sessions w) + 1 - 500) (sessions w) ++ [(sid, s')])
  /\ (forall env sid text w,
        valid_request sid text = true ->
        fault env = None ->
        exists s',
          last (sessions (snd (honeypot env (Some (API_KEY env))
                                 (Fields sid text) w)))
          = Some (sid, s'))
  /\ (forall t steps,
        clocks_from t steps ->
        by_recency (sessions (run steps initial_world))).
Proof.
  split; [|split; [|split]]; cycle 3.
  - intros t steps Hc. apply (run_recency steps t); [exact Hc|constructor..].
  - intros steps. split.
    + apply run_length. cbn. lia.
    + apply run_NoDup. cbn. constructor.
  - intros env sid text w Hv Hf Hnd Hno.
    rewrite honeypot_closed by exact Hv. cbn [snd].
    rewrite handled_sessions by exact Hf.
    eexists. f_equal. unfold others.
    rewrite ensure_new by assumption.
    rewrite del_app. cbn [del_session]. rewrite String.eqb_refl, app_nil_r.
    apply del_absent, lookup_drop_None, Hno.
  - intros env sid text w Hv Hf.
    rewrite honeypot_closed by exact Hv. cbn [snd].
    rewrite handled_sessions by exact Hf.
    eexists. apply last_snoc.
Qed.
(* ===================================================================== *)
(** ** What the patterns match *)
(* ===================================================================== *)

Section PatternFacts.

Implicit Types (r : regex) (prev : option ascii) (s l : list ascii).

Lemma backtrack_sound (try : nat -> option nat) lo : forall k n,
  backtrack k lo try = Some n ->
  exists j m, lo <= j <= k /\ try j = Some m /\ n = j + m.
Proof.
  induction k as [|k IH]; intros n H; cbn [backtrack] in H;
    match type of H with
    | context [?a <? ?b] => destruct (Nat.ltb_spec a b)
    end; try discriminate.
  - destruct (try 0) as [m|] eqn:E; [|discriminate].
    injection H as <-. exists 0, m. repeat split; [lia|lia|exact E].
  - destruct (try (S k)) as [m|] eqn:E.
    + injection H as <-. exists (S k), m. repeat split; [lia|lia|exact E].
    + destruct (IH n H) as (j & m & Hj & Hm & Hn).
      exists j, m. repeat split; [lia|lia|exact Hm|exact Hn].
Qed.

Lemma backtrack_first (try : nat -> option nat) lo k m :
  lo <= k -> try k = Some m -> backtrack k lo try = Some (k + m).
Proof.
  intros Hk Hm. destruct k as [|k]; cbn [backtrack];
    match goal with
    | |- context [?a <? ?b] => destruct (Nat.ltb_spec a b); [lia|]
    end; rewrite Hm; reflexivity.
Qed.

Lemma span_upto_spec cls : forall s hi,
  span_upto cls hi s <= length s
  /\ Forall (fun c => cls c = true) (take (span_upto cls hi s) s)
  /\ (forall h, hi = Some h -> span_upto cls hi s <= h).
Proof.
  induction s as [|c s IH]; intros hi.
  - destruct hi as [[|h]|]; cbn; repeat split; try constructor;
      intros ? [= <-]; lia.
  - destruct hi as [[|h]|]; cbn [span_upto fmap option_fmap option_map
                                   Nat.pred].
    + cbn. repeat split; [lia|constructor|intros ? [= <-]; lia].
    + destruct (cls c) eqn:Ec.
      * destruct (IH (Some h)) as (H1 & H2 & H3). cbn [length take].
        repeat split; [lia|constructor; assumption|].
        intros h' [= <-]. specialize (H3 h eq_refl). lia.
      * cbn. repeat split; [lia|constructor|intros; lia].
    + destruct (cls c) eqn:Ec.
      * destruct (IH None) as (H1 & H2 & _). cbn [length take].
        repeat split; [lia|constructor; assumption|discriminate].
      * cbn. repeat split; [lia|constructor|discriminate].
Qed.

(** A run of class characters followed by none is taken as a whole. *)
Lemma span_upto_run cls l rest :
  Forall (fun c => cls c = true) l ->
  match head rest with Some c => cls c = false | None => True end ->
  span_upto cls None (l ++ rest) = length l.
Proof.
  intros Hl Hrest. induction Hl as [|c l Hc Hl IH]; cbn [app length].
  - destruct rest as [|c rest]; [reflexivity|]. cbn in Hrest |- *.
    rewrite Hrest. reflexivity.
  - cbn [span_upto fmap option_fmap option_map]. rewrite Hc, IH.
    reflexivity.
Qed.

Lemma prev_after_of prev k s :
  k <= length s -> prev_after prev k s = prev_of prev (take k s).
Proof.
  intros Hk. unfold prev_of. destruct k as [|k]; [reflexivity|].
  cbn [prev_after]. rewrite last_lookup, length_take_le by exact Hk.
  cbn [Nat.pred]. rewrite lookup_take_lt by lia.
  destruct (lookup_lt_is_Some_2 s k ltac:(lia)) as [c Hc]. rewrite Hc.
  reflexivity.
Qed.

(** The matcher is sound for the reading of patterns given by [derives]. *)
Lemma match_at_sound r : forall prev s n,
  match_at r prev s = Some n ->
  n <= length s /\ derives r prev (take n s) (drop n s).
Proof.
  induction r as [|a r IH]; intros prev s n H; cbn [match_at] in H.
  - injection H as <-. split; [lia|]. rewrite take_0. constructor.
  - destruct a as [c|cls lo hi| |].
    + destruct s as [|x s]; [discriminate|].
      destruct (Ascii.eqb_spec x c) as [->|_]; [|discriminate].
      destruct (match_at r (Some c) s) as [m|] eqn:E; [|discriminate].
      injection H as <-. destruct (IH _ _ _ E) as [H1 H2].
      split; [cbn; lia|]. cbn [take drop]. constructor. exact H2.
    + apply backtrack_sound in H as (j & m & Hj & Hm & ->).
      destruct (span_upto_spec cls s hi) as (S1 & S2 & S3).
      destruct (IH _ _ _ Hm) as [H1 H2]. rewrite length_drop in H1.
      split; [lia|].
      rewrite <- take_take_drop, <- drop_drop.
      rewrite prev_after_of in H2 by lia.
      constructor; [| | |exact H2].
      * replace (take j s) with (take j (take (span_upto cls hi s) s))
          by (rewrite take_take; f_equal; lia).
        apply Forall_take, S2.
      * rewrite length_take_le by lia. lia.
      * intros h Hh. rewrite length_take_le by lia.
        specialize (S3 h Hh). lia.
    + destruct (xorb (word_at prev) (word_at (head s))) eqn:Ex;
        [|discriminate].
      destruct (IH _ _ _ H) as [H1 H2]. split; [exact H1|].
      constructor; [|exact H2]. rewrite take_drop. exact Ex.
    + destruct s as [|c [|c' s]]; [| |discriminate].
      * destruct (IH _ _ _ H) as [H1 H2]. split; [exact H1|].
        constructor; [|exact H2]. left. apply take_drop.
      * destruct (Nat.eqb_spec (code c) 10) as [Hc|_]; [|discriminate].
        destruct (IH _ _ _ H) as [H1 H2]. split; [exact H1|].
        constructor; [|exact H2]. right. exists c.
        split; [apply take_drop|exact Hc].
Qed.

(** Every string of a [findall] stands in the text, and the pattern
    matches it there. *)
Lemma findall_from_sound r : forall s (pre : list ascii) skip x,
  x ∈ findall_from r (last pre) skip s ->
  exists before l after,
    pre ++ s = before ++ l ++ after
    /\ x = string_of_list_ascii l
    /\ derives r (last before) l after.
Proof.
  induction s as [|c s IH]; intros pre skip x Hx; cbn [findall_from] in Hx.
  - destruct skip as [|k]; [|apply elem_of_nil in Hx; contradiction].
    destruct (match_at r (last pre) []) as [n|] eqn:E;
      [|apply elem_of_nil in Hx; contradiction].
    apply list_elem_of_singleton in Hx as ->.
    destruct (match_at_sound _ _ _ _ E) as [H1 H2].
    rewrite take_nil, drop_nil in H2.
    exists pre, [], []. repeat split; assumption.
  - assert (Hnext : forall k,
              x ∈ findall_from r (Some c) k s ->
              exists before l after,
                pre ++ c :: s = before ++ l ++ after
                /\ x = string_of_list_ascii l
                /\ derives r (last before) l after).
    { intros k Hk. specialize (IH (pre ++ [c]) k x).
      rewrite last_snoc, <- app_assoc in IH. exact (IH Hk). }
    destruct skip as [|k]; [|exact (Hnext _ Hx)].
    destruct (match_at r (last pre) (c :: s)) as [n|] eqn:E;
      [|exact (Hnext _ Hx)].
    apply elem_of_cons in Hx as [->|Hx]; [|exact (Hnext _ Hx)].
    destruct (match_at_sound _ _ _ _ E) as [H1 H2].
    exists pre, (take n (c :: s)), (drop n (c :: s)).
    rewrite take_drop. repeat split. exact H2.
Qed.

Lemma findall_sound r message x :
  x ∈ findall r message -> found_in r message x.
Proof.
  intros Hx. unfold findall in Hx.
  destruct (findall_from_sound r _ [] 0 x Hx)
    as (before & l & after & H1 & -> & H3).
  exists before, after. rewrite list_ascii_of_string_of_list_ascii.
  split; assumption.
Qed.

Lemma length_list_ascii (x : string) :
  length (list_ascii_of_string x) = String.length x.
Proof. induction x as [|c x IH]; cbn; [reflexivity|]. rewrite IH. reflexivity. Qed.

Lemma code_inj (c : ascii) n : code c = n -> c = ascii_of_nat n.
Proof. intros <-. symmetry. apply ascii_nat_embedding. Qed.

Lemma digit_is_word c : is_digit c = true -> is_word c = true.
Proof.
  intros H. unfold is_word. rewrite H, orb_true_r. reflexivity.
Qed.

(** What the three patterns match. *)
Lemma bank_account_shape prev l rest :
  derives BANK_ACCOUNT_PATTERN prev l rest ->
  Forall (fun c => is_digit c = true) l
  /\ 9 <= length l <= 18
  /\ word_at prev = false
  /\ word_at (head rest) = false.
Proof.
  unfold BANK_ACCOUNT_PATTERN. intros H.
  inversion H as [| | |r0 p0 l0 rest0 Hb1 H1|]; subst. clear H.
  inversion H1 as [| |cls lo hi r0 p0 l1 l2 rest0 Hd Hlo Hhi H2| |]; subst.
  clear H1.
  inversion H2 as [| | |r0 p0 l0 rest0 Hb2 H3|]; subst. clear H2.
  inversion H3; subst. clear H3.
  rewrite app_nil_r in *. cbn [app] in Hb2.
  specialize (Hhi 18 eq_refl).
  destruct l1 as [|d l1]; [cbn in Hlo; lia|].
  split; [exact Hd|]. split; [lia|].
  assert (Hfirst : word_at (head ((d :: l1) ++ rest)) = true).
  { cbn. apply digit_is_word. inversion Hd; assumption. }
  assert (Hlast : word_at (prev_of prev (d :: l1)) = true).
  { unfold prev_of. destruct (last (d :: l1)) as [e|] eqn:El.
    - cbn. apply digit_is_word.
      apply last_Some_elem_of in El.
      rewrite Forall_forall in Hd. apply Hd, El.
    - apply last_None in El. discriminate. }
  rewrite Hfirst in Hb1. rewrite Hlast in Hb2.
  destruct (word_at prev); [discriminate|].
  destruct (word_at (head rest)); [discriminate|]. split; reflexivity.
Qed.

Lemma upi_shape prev l rest :
  derives UPI_PATTERN prev l rest ->
  exists handle provider,
    l = handle ++ "@"%char :: provider
    /\ Forall (fun c => upi_local c = true) handle
    /\ 2 <= length handle
    /\ Forall (fun c => is_alpha c = true) provider
    /\ 3 <= length provider.
Proof.
  unfold UPI_PATTERN. intros H.
  inversion H as [| |cls lo hi r0 p0 l1 l2 rest0 Hd Hlo Hhi H1| |]; subst.
  clear H.
  inversion H1 as [|c r0 p0 l0 rest0 H2| | |]; subst. clear H1.
  inversion H2 as [| |cls lo hi r0 p0 l3 l4 rest0 Hd' Hlo' Hhi' H3| |]; subst.
  clear H2. inversion H3; subst. clear H3. rewrite app_nil_r.
  exists l1, l3. repeat split; assumption.
Qed.

Lemma url_shape prev l rest :
  derives URL_PATTERN prev l rest ->
  exists tail,
    (l = list_ascii_of_string "http://" ++ tail
     \/ l = list_ascii_of_string "https://" ++ tail)
    /\ 1 <= length tail
    /\ Forall (fun c => is_space c = false) tail.
Proof.
  unfold URL_PATTERN, literal.
  cbn [list_ascii_of_string fmap list_fmap app]. intros H.
  inversion H as [|c r0 p0 l0 rest0 H1| | |]; subst. clear H.
  inversion H1 as [|c r0 p0 l1 rest0 H2| | |]; subst. clear H1.
  inversion H2 as [|c r0 p0 l2 rest0 H3| | |]; subst. clear H2.
  inversion H3 as [|c r0 p0 l3 rest0 H4| | |]; subst. clear H3.
  inversion H4 as [| |cls lo hi r0 p0 o l4 rest0 Ho _ Hhi H5| |]; subst.
  clear H4.
  inversion H5 as [|c r0 p0 l5 rest0 H6| | |]; subst. clear H5.
  inversion H6 as [|c r0 p0 l6 rest0 H7| | |]; subst. clear H6.
  inversion H7 as [|c r0 p0 l7 rest0 H8| | |]; subst. clear H7.
  inversion H8 as [| |cls lo hi r0 p0 tail l8 rest0 Ht Hlo _ H9| |]; subst.
  clear H8. inversion H9; subst. clear H9. rewrite app_nil_r.
  exists tail. split; [|split; [exact Hlo|]].
  - specialize (Hhi 1 eq_refl). destruct o as [|c [|c' o]].
    + left. reflexivity.
    + right. inversion Ho as [|? ? Hc _]; subst.
      apply Nat.eqb_eq, code_inj in Hc. subst c. reflexivity.
    + cbn in Hhi. lia.
  - eapply Forall_impl; [exact Ht|]. intros c Hc. cbv beta in Hc.
    apply negb_true_iff, Hc.
Qed.

(** What the extractor returns in a bucket is what [findall] gave. *)
Lemma extracted_accounts message session x :
  x ∈ accounts (found (fst (extract_intelligence message session))) ->
  x ∈ findall BANK_ACCOUNT_PATTERN message.
Proof.
  unfold extract_intelligence.
  destruct (len message <? 10);
    [intros H; apply elem_of_nil in H; contradiction|].
  destruct (scan_keywords (lower message)) as [hits score].
  destruct (0 <? score); cbn [fst found accounts]; [auto|].
  intros H; apply elem_of_nil in H; contradiction.
Qed.

Lemma extracted_upi message session x :
  x ∈ upi (found (fst (extract_intelligence message session))) ->
  x ∈ findall UPI_PATTERN message.
Proof.
  unfold extract_intelligence.
  destruct (len message <? 10);
    [intros H; apply elem_of_nil in H; contradiction|].
  destruct (scan_keywords (lower message)) as [hits score].
  destruct (0 <? score); cbn [fst found upi]; [auto|].
  intros H; apply elem_of_nil in H; contradiction.
Qed.

Lemma extracted_urls message session x :
  x ∈ urls (found (fst (extract_intelligence message session))) ->
  x ∈ findall URL_PATTERN message.
Proof.
  unfold extract_intelligence.
  destruct (len message <? 10);
    [intros H; apply elem_of_nil in H; contradiction|].
  destruct (scan_keywords (lower message)) as [hits score].
  destruct (0 <? score); cbn [fst found urls]; [auto|].
  intros H; apply elem_of_nil in H; contradiction.
Qed.

(** A run of class characters is taken, whatever follows it. *)
Lemma span_upto_ge cls l rest :
  Forall (fun c => cls c = true) l ->
  length l <= span_upto cls None (l ++ rest).
Proof.
  intros Hl. induction Hl as [|c l Hc Hl IH]; cbn [app length]; [lia|].
  cbn [span_upto fmap option_fmap option_map]. rewrite Hc. lia.
Qed.

(** The UPI pattern matches where a handle of at least 2 characters, an at
    sign and at least 3 letters stand. *)
Lemma upi_match prev handle provider rest :
  Forall (fun c => upi_local c = true) handle -> 2 <= length handle ->
  Forall (fun c => is_alpha c = true) provider -> 3 <= length provider ->
  is_Some (match_at UPI_PATTERN prev (handle ++ "@"%char :: provider ++ rest)).
Proof.
  intros Hh Hlh Hp Hlp. unfold UPI_PATTERN. cbn [match_at].
  rewrite span_upto_run by (assumption || reflexivity).
  pose proof (span_upto_ge is_alpha provider rest Hp) as Hspan.
  eexists. apply backtrack_first; [exact Hlh|].
  rewrite drop_app_length. cbn [match_at]. rewrite Ascii.eqb_refl.
  rewrite (backtrack_first _ 3 _ 0); [reflexivity|lia|reflexivity].
Qed.

(** A scan finds something in an input in which the pattern matches
    somewhere. *)
Lemma findall_from_nonempty r l : forall pre prev,
  (forall p, is_Some (match_at r p l)) ->
  findall_from r prev 0 (pre ++ l) <> [].
Proof.
  induction pre as [|c pre IH]; intros prev Hm.
  - cbn [app]. destruct (Hm prev) as [n Hn].
    destruct l as [|c l]; cbn [findall_from]; rewrite Hn; discriminate.
  - cbn [app findall_from].
    destruct (match_at r prev (c :: pre ++ l)); [discriminate|].
    apply IH, Hm.
Qed.

End PatternFacts.
(* ===================================================================== *)
(** ** Keyword counting and lazy extraction *)
(* ===================================================================== *)

Section KeywordFacts.

Implicit Types (sub s message keyword : string) (st : SessionState).

(** Of two prefixes of one string the shorter is a prefix of the longer. *)
Lemma prefix_of_prefix a b s :
  starts_with a s = true -> starts_with b s = true ->
  String.length b <= String.length a -> starts_with b a = true.
Proof.
  revert a s. induction b as [|cb b IH]; intros a s Ha Hb Hlen;
    [reflexivity|].
  destruct a as [|ca a]; [cbn in Hlen; lia|].
  destruct s as [|cs s]; [discriminate|].
  cbn in Ha, Hb, Hlen |- *.
  apply andb_true_iff in Ha as [Ha1 Ha2].
  apply andb_true_iff in Hb as [Hb1 Hb2].
  apply Ascii.eqb_eq in Ha1, Hb1. subst.
  rewrite Ascii.eqb_refl. cbn. apply (IH a s); [assumption..|lia].
Qed.

Lemma starts_with_sdrop j sub s :
  starts_with sub s = true -> starts_with (sdrop j sub) (sdrop j s) = true.
Proof.
  revert sub s. induction j as [|j IH]; intros sub s H; [exact H|].
  destruct sub as [|c sub]; [destruct s; reflexivity|].
  destruct s as [|c' s]; [discriminate|].
  cbn in H |- *. apply andb_true_iff in H as [_ H]. apply IH, H.
Qed.

Lemma length_sdrop j s : String.length (sdrop j s) <= String.length s.
Proof.
  revert s. induction j as [|j IH]; intros [|c s]; cbn; try lia.
  specialize (IH s). lia.
Qed.

(** Two occurrences of an unbordered word do not overlap. *)
Lemma unbordered_no_overlap sub s j :
  unbordered sub = true ->
  starts_with sub s = true ->
  1 <= j < String.length sub ->
  starts_with sub (sdrop j s) = false.
Proof.
  intros Hu Hs Hj.
  destruct (starts_with sub (sdrop j s)) eqn:E; [|reflexivity].
  exfalso.
  pose proof (prefix_of_prefix sub (sdrop j sub) (sdrop j s) E
                (starts_with_sdrop j sub s Hs) (length_sdrop j sub)) as Hb.
  unfold unbordered in Hu. rewrite forallb_forall in Hu.
  specialize (Hu j). rewrite Hb in Hu.
  assert (Hin : In j (seq 1 (String.length sub - 1))) by (apply in_seq; lia).
  specialize (Hu Hin). discriminate.
Qed.

(** The scan that skips behind each occurrence counts every occurrence of
    an unbordered word. *)
Lemma count_from_occurrences sub :
  unbordered sub = true ->
  forall s k,
    (forall i, i < k -> starts_with sub (sdrop i s) = false) ->
    count_from sub k s = occurrences sub s.
Proof.
  intros Hu. induction s as [|c s IH]; intros k Hclear; [reflexivity|].
  cbn [count_from occurrences].
  destruct k as [|k].
  - destruct (starts_with sub (String c s)) eqn:E.
    + rewrite IH; [reflexivity|].
      intros i Hi.
      apply (unbordered_no_overlap sub (String c s) (S i) Hu E). lia.
    + rewrite IH; [reflexivity|]. intros i Hi. lia.
  - pose proof (Hclear 0 ltac:(lia)) as H0. cbn [sdrop] in H0.
    rewrite H0. cbn [Nat.add].
    apply IH. intros i Hi. apply (Hclear (S i)). lia.
Qed.

Lemma str_count_occurrences s keyword :
  plain_keyword keyword = true ->
  str_count s keyword = occurrences keyword s.
Proof.
  unfold plain_keyword. intros H. apply andb_true_iff in H as [Hu Hne].
  destruct keyword as [|c keyword]; [discriminate|].
  unfold str_count. apply count_from_occurrences; [exact Hu|].
  intros i Hi. lia.
Qed.

Lemma vocabulary_plain keyword :
  keyword ∈ SCAM_KEYWORDS -> plain_keyword keyword = true.
Proof.
  intros H.
  assert (Hall : forallb plain_keyword SCAM_KEYWORDS = true)
    by (vm_compute; reflexivity).
  rewrite forallb_forall in Hall. apply Hall, list_elem_of_In, H.
Qed.

(** The first loop of the extractor, one keyword list at a time. *)
Lemma scan_fold ml l (acc : gmap string nat * nat) keyword :
  fst (foldl (fun acc keyword =>
                let cnt := str_count ml keyword in
                if 0 <? cnt
                then (<[keyword := cnt]> (fst acc), snd acc + cnt)
                else acc) acc l) !! keyword
  = if bool_decide (keyword ∈ l) && (0 <? str_count ml keyword)
    then Some (str_count ml keyword)
    else fst acc !! keyword.
Proof.
  revert acc. induction l as [|k l IH]; intros acc; [reflexivity|].
  cbn [foldl]. rewrite IH. cbv zeta.
  destruct (decide (keyword ∈ l)) as [Hin|Hnin].
  - rewrite !bool_decide_eq_true_2 by (try right; exact Hin). cbn [andb].
    destruct (0 <? str_count ml keyword) eqn:E; [reflexivity|].
    destruct (decide (k = keyword)) as [->|Hne].
    + rewrite E. reflexivity.
    + destruct (0 <? str_count ml k); cbn [fst]; [|reflexivity].
      apply lookup_insert_ne, Hne.
  - rewrite (bool_decide_eq_false_2 _ Hnin). cbn [andb].
    destruct (decide (k = keyword)) as [->|Hne].
    + rewrite bool_decide_eq_true_2 by left. cbn [andb].
      destruct (0 <? str_count ml keyword); cbn [fst]; [|reflexivity].
      apply lookup_insert_eq.
    + rewrite bool_decide_eq_false_2
        by (rewrite elem_of_cons; intros [?|?]; congruence).
      cbn [andb].
      destruct (0 <? str_count ml k); cbn [fst]; [|reflexivity].
      apply lookup_insert_ne, Hne.
Qed.

Lemma scan_fold_score ml l (acc : gmap string nat * nat) :
  snd (foldl (fun acc keyword =>
                let cnt := str_count ml keyword in
                if 0 <? cnt
                then (<[keyword := cnt]> (fst acc), snd acc + cnt)
                else acc) acc l)
  = snd acc + foldr (fun keyword n => str_count ml keyword + n) 0 l.
Proof.
  revert acc. induction l as [|k l IH]; intros acc; cbn [foldl foldr]; [lia|].
  rewrite IH. cbv zeta.
  destruct (Nat.ltb_spec 0 (str_count ml k)); cbn [snd]; lia.
Qed.

Lemma scan_keywords_score message :
  snd (scan_keywords (lower message)) = per_call_score message.
Proof. unfold scan_keywords. rewrite scan_fold_score. reflexivity. Qed.

Lemma scan_keywords_lookup ml keyword :
  keyword ∈ SCAM_KEYWORDS ->
  fst (scan_keywords ml) !! keyword
  = if 0 <? str_count ml keyword then Some (str_count ml keyword) else None.
Proof.
  intros H. unfold scan_keywords. rewrite scan_fold.
  rewrite bool_decide_eq_true_2 by exact H. cbn [andb fst].
  destruct (0 <? _); [reflexivity|apply lookup_empty].
Qed.

(** The second loop adds each per-call count to the cumulative one. *)
Lemma accumulate_lookup (hits counts : gmap string nat) keyword :
  accumulate hits counts !! keyword
  = match hits !! keyword with
    | Some c => Some (default 0 (counts !! keyword) + c)
    | None => counts !! keyword
    end.
Proof.
  unfold accumulate. revert keyword.
  apply (map_fold_weak_ind
           (fun acc (m : gmap string nat) =>
              forall keyword,
                acc !! keyword
                = match m !! keyword with
                  | Some c => Some (default 0 (counts !! keyword) + c)
                  | None => counts !! keyword
                  end)).
  - intros keyword. rewrite lookup_empty. reflexivity.
  - intros i x m r Hi IH keyword.
    destruct (decide (i = keyword)) as [->|Hne].
    + rewrite !lookup_insert_eq. rewrite (IH keyword), Hi. reflexivity.
    + rewrite !lookup_insert_ne by exact Hne. apply IH.
Qed.

(** The extractor on a message of at least 10 characters. *)
Lemma extract_long message st :
  10 <= len message ->
  extract_intelligence message st
  = ({| found :=
          if 0 <? per_call_score message
          then {| upi := findall UPI_PATTERN message;
                  accounts := findall BANK_ACCOUNT_PATTERN message;
                  urls := findall URL_PATTERN message |}
          else mkBuckets [] [] [];
        keywords_found := fst (scan_keywords (lower message)) |},
     set_keyword_counts
       (accumulate (fst (scan_keywords (lower message))) (keyword_counts st))
       st).
Proof.
  intros H. unfold extract_intelligence.
  replace (len message <? 10) with false
    by (symmetry; apply Nat.ltb_ge; exact H).
  rewrite <- scan_keywords_score.
  destruct (scan_keywords (lower message)) as [hits score]. cbn [fst snd].
  destruct (0 <? score); reflexivity.
Qed.

End KeywordFacts.

(** C10. On a message of at least 10 characters, each vocabulary term is
    counted once for every position of the lowercased text at which it
    occurs as a substring, inside a longer word or not; that number is the
    term's per-call count (the term is absent from the per-call map when it
    is 0) and is added to the session's cumulative count. *)
Theorem C10_keywords_counted_as_substrings message st keyword :
  10 <= len message ->
  keyword ∈ SCAM_KEYWORDS ->
  let n := occurrences keyword (lower message) in
  keywords_found (fst (extract_intelligence message st)) !! keyword
  = (if n =? 0 then None else Some n)
  /\ default 0 (keyword_counts (snd (extract_intelligence message st))
                  !! keyword)
     = default 0 (keyword_counts st !! keyword) + n.
Proof.
  intros Hlen Hin. cbv zeta.
  rewrite extract_long by exact Hlen. cbn [fst snd keywords_found].
  cbn [keyword_counts set_keyword_counts].
  rewrite accumulate_lookup, scan_keywords_lookup by exact Hin.
  rewrite (str_count_occurrences _ _ (vocabulary_plain _ Hin)).
  destruct (occurrences keyword (lower message)) as [|n]; cbn.
  - split; [reflexivity|]. lia.
  - split; reflexivity.
Qed.

(** C7, amended. A message shorter than 10 characters yields the empty
    result and leaves the session alone, whatever it contains.  On a
    message of at least 10 characters the three pattern scans run exactly
    when the per-call keyword score is positive: the buckets are then the
    matches of the three patterns, and are empty otherwise.  So a message
    of at least 10 characters with a scoring keyword, in which a handle of
    at least two characters (letters, digits, dot, hyphen, underscore), an
    at sign and at least three letters stand somewhere, has a UPI
    identifier extracted from it.  (The UPI pattern spells out its sets of
    characters, so this holds of every text, 7-bit or not; which identifier
    is extracted is the scan's choice: the leftmost, and of two candidates
    that share characters only the first.) *)
Theorem C7_lazy_extraction :
  (forall message st,
      len message < 10 ->
      extract_intelligence message st = (empty_extracted, st))
  /\ (forall message st,
        10 <= len message ->
        found (fst (extract_intelligence message st))
        = if 0 <? per_call_score message
          then {| upi := findall UPI_PATTERN message;
                  accounts := findall BANK_ACCOUNT_PATTERN message;
                  urls := findall URL_PATTERN message |}
          else mkBuckets [] [] [])
  /\ (forall message st before handle provider after,
        10 <= len message ->
        0 < per_call_score message ->
        list_ascii_of_string message
        = before ++ (handle ++ "@"%char :: provider) ++ after ->
        Forall (fun c => upi_local c = true) handle ->
        2 <= length handle ->
        Forall (fun c => is_alpha c = true) provider ->
        3 <= length provider ->
        upi (found (fst (extract_intelligence message st))) <> []).
Proof.
  split; [|split].
  - intros message st H. unfold extract_intelligence.
    replace (len message <? 10) with true
      by (symmetry; apply Nat.ltb_lt; exact H).
    reflexivity.
  - intros message st H. rewrite extract_long by exact H. reflexivity.
  - intros message st before handle provider after Hlen Hscore Hs Hh Hlh
      Hp Hlp.
    rewrite extract_long by exact Hlen. cbn [fst found].
    replace (0 <? per_call_score message) with true
      by (symmetry; apply Nat.ltb_lt; exact Hscore).
    cbn [upi]. unfold findall. rewrite Hs, <- app_assoc. cbn [app].
    apply findall_from_nonempty. intros p. apply upi_match; assumption.
Qed.
(* ===================================================================== *)
(** ** Further properties of the message handler *)
(* ===================================================================== *)

(** X1. Only an authorized, well-formed and validated message reaches the
    session store.  A request with a wrong or missing key is answered with
    status 401 whatever its body; an authorized request without a message
    gets the greeting; an authorized request whose body is a number other
    than 0 or [true] is not answered by the handler at all: the test for
    a message raises [TypeError], outside of any [try]; an authorized
    request whose fields are ill-typed or fail validation gets the fallback
    reply, with status success.  None of them changes the state. *)
Theorem rejected_requests_change_nothing env key payload w :
  (key <> Some (API_KEY env) ->
   honeypot env key payload w = (Ok Unauthorized, w))
  /\ (key = Some (API_KEY env) -> payload = NoMessage ->
      honeypot env key payload w = (Ok (Success "Hello? Who is this?"), w))
  /\ (key = Some (API_KEY env) -> payload = Scalar ->
      honeypot env key payload w = (Raised TypeError, w))
  /\ (key = Some (API_KEY env) ->
      (payload = Untyped
       \/ exists sid text,
            payload = Fields sid text /\ valid_request sid text = false) ->
      honeypot env key payload w = (Ok (Success fallback_reply), w)).
Proof.
  split; [|split; [|split]].
  - apply honeypot_unauthorized.
  - intros -> ->. apply honeypot_no_message.
  - intros -> ->. apply honeypot_scalar.
  - intros -> [->|(sid & text & -> & Hv)].
    + apply honeypot_untyped.
    + apply honeypot_invalid, Hv.
Qed.

Section AcceptedFacts.

Implicit Types (st : store) (sid text : string) (s : SessionState)
  (w : World) (env : Env).

Lemma current_intel env sid w :
  intel (current env sid (sessions w)) = intel_of sid w.
Proof.
  unfold intel_of. destruct (lookup_session sid (sessions w)) as [s|] eqn:E.
  - rewrite (current_stored _ _ _ _ E). reflexivity.
  - rewrite (current_fresh _ _ _ E). reflexivity.
Qed.

Lemma current_created env sid w :
  created_at (current env sid (sessions w))
  = created_of (created_clock env) sid w.
Proof.
  unfold created_of. destruct (lookup_session sid (sessions w)) as [s|] eqn:E.
  - rewrite (current_stored _ _ _ _ E). reflexivity.
  - rewrite (current_fresh _ _ _ E). reflexivity.
Qed.

Lemma after_message_created env text s :
  created_at (after_message env text s) = created_at s.
Proof.
  unfold after_message, after_history, after_respond, after_extract,
    after_touch.
  destruct (fires env text s); cbn; rewrite extract_session; reflexivity.
Qed.

Lemma after_message_intel env text s :
  intel (after_message env text s)
  = {| upi := upi (intel s) ++ upi (found (extraction env text s));
       accounts := accounts (intel s)
                     ++ accounts (found (extraction env text s));
       urls := urls (intel s) ++ urls (found (extraction env text s)) |}.
Proof.
  unfold after_message, after_history, after_respond, after_extract,
    after_touch.
  destruct (fires env text s); cbn; rewrite extract_session; reflexivity.
Qed.

Lemma extraction_of_text env text s :
  extraction env text s = fst (extract_intelligence text blank_session).
Proof. unfold extraction. apply extract_result_indep. Qed.

Lemma ensure_roomy env sid st :
  is_Some (lookup_session sid st) \/ length st < MAX_SESSIONS ->
  forall sid', sid' <> sid ->
    lookup_session sid' (ensure_session env sid st) = lookup_session sid' st.
Proof.
  intros H sid' Hne. unfold ensure_session.
  destruct (lookup_session sid st) as [s|] eqn:E.
  - rewrite bool_decide_eq_true_2 by eauto. reflexivity.
  - rewrite bool_decide_eq_false_2 by (intros [? ?]; congruence).
    destruct H as [[? ?]|Hlen]; [congruence|]. cbv zeta.
    assert (Hstop : forall n st0, length st0 <= MAX_SESSIONS ->
                                  evict_loop n st0 = st0).
    { intros [|n] st0 H0; cbn [evict_loop]; [reflexivity|].
      destruct (Nat.ltb_spec MAX_SESSIONS (length st0)); [lia|reflexivity]. }
    rewrite Hstop by (rewrite length_app; cbn [length]; lia).
    rewrite lookup_app. destruct (lookup_session sid' st); [reflexivity|].
    cbn. apply String.eqb_neq in Hne. rewrite String.eqb_sym, Hne.
    reflexivity.
Qed.

End AcceptedFacts.

(** X2. An accepted message increments the interaction count of its session
    by exactly one, stamps the session with the clock reading of the
    message, keeps the creation time of a session that existed (a new one
    gets the reading taken at creation), and never clears a flag that was
    set. *)
Theorem accepted_message_bookkeeping env sid text w :
  valid_request sid text = true ->
  fault env = None ->
  exists s',
    lookup_session sid
      (sessions (snd (honeypot env (Some (API_KEY env)) (Fields sid text) w)))
    = Some s'
    /\ count s' = count_of sid w + 1
    /\ last_accessed s' = touch_clock env
    /\ created_at s' = created_of (created_clock env) sid w
    /\ (flag sid w = true -> callback_sent s' = true).
Proof.
  intros Hv Hf. rewrite honeypot_closed by exact Hv. cbn [snd].
  eexists. split; [apply handled_lookup, Hf|].
  rewrite after_message_count, current_count.
  rewrite after_message_accessed.
  rewrite after_message_created, current_created.
  rewrite after_message_flag, current_flag.
  repeat split; try reflexivity. intros ->. reflexivity.
Qed.

(** X3. Accumulation is raw: after an accepted message each bucket of the
    session is the bucket it had before followed by this call's matches of
    that pattern, in order and with repetitions; nothing is removed and
    nothing is deduplicated. *)
Theorem intel_accumulates_raw env sid text w :
  valid_request sid text = true ->
  fault env = None ->
  let x := found (fst (extract_intelligence text blank_session)) in
  intel_of sid (snd (honeypot env (Some (API_KEY env)) (Fields sid text) w))
  = {| upi := upi (intel_of sid w) ++ upi x;
       accounts := accounts (intel_of sid w) ++ accounts x;
       urls := urls (intel_of sid w) ++ urls x |}.
Proof.
  intros Hv Hf. cbv zeta. rewrite honeypot_closed by exact Hv. cbn [snd].
  unfold intel_of at 1. rewrite handled_lookup by exact Hf.
  rewrite after_message_intel.
  rewrite (extraction_of_text env text (current env sid (sessions w))).
  rewrite current_intel. reflexivity.
Qed.

(** X4. The reply to an accepted message is the persona utterance that the
    random draw selects in the list of the stage reached by the incremented
    interaction count (early up to 5, middle up to 10, late beyond); it
    depends on nothing else, neither on the text nor on the category shown
    last, and it is never empty. *)
Theorem reply_selected_by_stage env sid text w :
  valid_request sid text = true ->
  fault env = None ->
  exists reply,
    fst (honeypot env (Some (API_KEY env)) (Fields sid text) w)
    = Ok (Success reply)
    /\ RESPONSES (category_of (count_of sid w + 1)) !! (draw env mod 5)
       = Some reply
    /\ reply <> "".
Proof.
  intros Hv Hf. rewrite honeypot_closed by exact Hv. cbn [fst].
  unfold handled. rewrite Hf. cbn [fst].
  eexists. split; [reflexivity|].
  unfold reply_for. rewrite after_extract_count, current_count.
  assert (Hlen : forall c, length (RESPONSES c) = 5) by (intros []; reflexivity).
  rewrite Hlen.
  destruct (choice_total (category_of (count_of sid w + 1)) (draw env))
    as [r Hr]. rewrite Hlen in Hr. rewrite Hr. cbn [default].
  split; [reflexivity|].
  assert (Hall : forall c, Forall (fun r => r <> "") (RESPONSES c)).
  { intros []; repeat constructor; discriminate. }
  specialize (Hall (category_of (count_of sid w + 1))).
  rewrite Forall_forall in Hall. apply Hall.
  eapply list_elem_of_lookup_2, Hr.
Qed.

(** X5. A message for a session that exists, or that is created while the
    store has room, leaves every other session exactly as it was, wherever
    the handler is interrupted: eviction is the only way a message touches
    a session other than its own. *)
Theorem other_sessions_untouched env sid text w sid' :
  valid_request sid text = true ->
  is_Some (lookup_session sid (sessions w))
    \/ length (sessions w) < MAX_SESSIONS ->
  sid' <> sid ->
  lookup_session sid'
    (sessions (snd (honeypot env (Some (API_KEY env)) (Fields sid text) w)))
  = lookup_session sid' (sessions w).
Proof.
  intros Hv Hroom Hne. rewrite honeypot_closed by exact Hv. cbn [snd].
  pose proof (ensure_roomy env sid (sessions w) Hroom sid' Hne) as He.
  assert (Hlast : forall s,
            lookup_session sid' (others env sid (sessions w) ++ [(sid, s)])
            = lookup_session sid' (sessions w)).
  { intros s. rewrite others_lookup_other by exact Hne. exact He. }
  unfold handled.
  destruct (fault env) as [[]|]; cbn [snd sessions set_sessions];
    try apply Hlast; try exact He; try reflexivity.
  all: destruct (fires _ _ _); cbn [snd sessions set_sessions]; apply Hlast.
Qed.
(* ===================================================================== *)
(** ** The cleanup cycle *)
(* ===================================================================== *)

Section CleanupFacts.

Implicit Types (st : store) (sid k : string) (s : SessionState)
  (w : World) (l : list string).

Lemma foldl_del_cons k s st l :
  foldl (fun st k => del_session k st) ((k, s) :: st) l
  = if bool_decide (k ∈ l)
    then foldl (fun st k => del_session k st) st l
    else (k, s) :: foldl (fun st k => del_session k st) st l.
Proof.
  revert st. induction l as [|k0 l IH]; intros st; [reflexivity|].
  cbn [foldl del_session].
  destruct (String.eqb_spec k k0) as [->|Hne].
  - rewrite bool_decide_eq_true_2 by left. reflexivity.
  - rewrite IH.
    destruct (decide (k ∈ l)) as [Hin|Hnin].
    + rewrite !bool_decide_eq_true_2 by (try right; exact Hin). reflexivity.
    + rewrite !bool_decide_eq_false_2;
        [reflexivity| |exact Hnin].
      rewrite elem_of_cons. intros [?|?]; congruence.
Qed.

Lemma foldl_del_filter (keep : string * SessionState -> Prop)
  `{!forall e, Decision (keep e)} (st : list (string * SessionState)) l :
  (forall k s, (k, s) ∈ st -> (k ∈ l <-> ~ keep (k, s))) ->
  foldl (fun st k => del_session k st) st l = filter keep st.
Proof.
  induction st as [|[k s] st IH]; intros Hl.
  - clear. induction l as [|k l IHl]; [reflexivity|exact IHl].
  - rewrite foldl_del_cons, filter_cons.
    assert (IH' : foldl (fun st k => del_session k st) st l = filter keep st).
    { apply IH. intros k' s' Hin. apply Hl. right. exact Hin. }
    specialize (Hl k s ltac:(left)).
    destruct (decide (keep (k, s))) as [Hk|Hk].
    + rewrite bool_decide_eq_false_2 by tauto. rewrite IH'. reflexivity.
    + rewrite bool_decide_eq_true_2 by tauto. exact IH'.
Qed.

Lemma keys_unique st k s s' :
  NoDup st.*1 -> (k, s) ∈ st -> (k, s') ∈ st -> s = s'.
Proof.
  induction st as [|[k0 s0] st IH]; cbn.
  - intros _ H. apply elem_of_nil in H. contradiction.
  - rewrite NoDup_cons, !elem_of_cons. intros [Hk Hnd] [E1|H1] [E2|H2].
    + congruence.
    + exfalso. apply Hk. injection E1 as -> ->.
      apply (list_elem_of_fmap_2 fst) in H2. exact H2.
    + exfalso. apply Hk. injection E2 as -> ->.
      apply (list_elem_of_fmap_2 fst) in H1. exact H1.
    + apply IH; assumption.
Qed.

Lemma lookup_foldl_del_in sid st l :
  sid ∈ l ->
  lookup_session sid (foldl (fun st k => del_session k st) st l) = None.
Proof.
  revert st. induction l as [|k l IH]; intros st H.
  - apply elem_of_nil in H. contradiction.
  - cbn [foldl]. apply elem_of_cons in H as [->|H]; [|apply IH, H].
    destruct (foldl_del_lookup k l (del_session k st)) as [E|E];
      [|exact E].
    rewrite E. apply lookup_del_same.
Qed.

End CleanupFacts.

(** X6. One cleanup cycle removes exactly the sessions last accessed more
    than 30 minutes before its clock reading: a session accessed at the
    cut-off or later stays, unchanged and in its place, and the metric of
    active sessions is set to the number of sessions left.  The task list,
    the failure counter and the breaker are not touched. *)
Theorem cleanup_removes_exactly_expired now w :
  NoDup (sessions w).*1 ->
  sessions (cleanup_cycle now w)
  = filter (fun e => (ttl_threshold now <= last_accessed (snd e))%Z)
           (sessions w)
  /\ active_sessions (metrics (cleanup_cycle now w))
     = length (sessions (cleanup_cycle now w))
  /\ tasks (cleanup_cycle now w) = tasks w
  /\ total_callbacks_failed (metrics (cleanup_cycle now w))
     = total_callbacks_failed (metrics w)
  /\ circuit_breaker_active (metrics (cleanup_cycle now w))
     = circuit_breaker_active (metrics w).
Proof.
  intros Hnd. split; [|repeat split].
  unfold cleanup_cycle. cbn [sessions set_metrics set_sessions].
  apply foldl_del_filter. intros k s Hin.
  fold (ttl_threshold now). split.
  - intros Hk. apply list_elem_of_fmap in Hk as ([k' s'] & -> & Hf).
    apply list_elem_of_filter in Hf as [Hexp Hin']. cbn [fst snd] in *.
    rewrite (keys_unique _ _ _ _ Hnd Hin Hin'). lia.
  - intros Hexp. apply (list_elem_of_fmap_2' fst _ (k, s)); [|reflexivity].
    apply list_elem_of_filter. split; [cbn [snd] in *; lia|exact Hin].
Qed.

(** X7. A session that a cleanup cycle has reaped starts afresh: the next
    accepted message under its identifier finds no session, creates one and
    leaves it with an interaction count of 1, a history of one entry, only
    this call's matches in its buckets and the creation time of the new
    session. *)
Theorem reaped_session_starts_afresh now env sid text w s :
  lookup_session sid (sessions w) = Some s ->
  (last_accessed s < ttl_threshold now)%Z ->
  valid_request sid text = true ->
  fault env = None ->
  let w' := snd (honeypot env (Some (API_KEY env)) (Fields sid text)
                   (cleanup_cycle now w)) in
  lookup_session sid (sessions (cleanup_cycle now w)) = None
  /\ count_of sid w' = 1
  /\ length (history_of sid w') = 1
  /\ intel_of sid w' = found (fst (extract_intelligence text blank_session))
  /\ created_of 0%Z sid w' = created_clock env.
Proof.
  intros Hs Hexp Hv Hf. cbv zeta.
  assert (Hgone : lookup_session sid (sessions (cleanup_cycle now w)) = None).
  { unfold cleanup_cycle. cbn [sessions set_metrics set_sessions].
    apply lookup_foldl_del_in.
    apply lookup_session_elem in Hs.
    apply (list_elem_of_fmap_2' fst _ (sid, s)); [|reflexivity].
    apply list_elem_of_filter. split; [exact Hexp|exact Hs]. }
  split; [exact Hgone|].
  rewrite honeypot_closed by exact Hv. cbn [snd].
  unfold count_of, history_of, intel_of, created_of.
  rewrite handled_lookup by exact Hf.
  rewrite (current_fresh _ _ _ Hgone).
  rewrite after_message_count, after_message_history,
    after_history_history, after_message_intel, after_message_created.
  rewrite extraction_of_text.
  split; [reflexivity|]. split; [reflexivity|].
  split; [|reflexivity].
  cbn [intel new_SessionState upi accounts urls app].
  destruct (found (fst (extract_intelligence text blank_session)));
    reflexivity.
Qed.
(* ===================================================================== *)
(** ** Further properties of the callback dispatcher *)
(* ===================================================================== *)

Section DeliveryFacts.

Implicit Types (net : Net) (w : World) (sid : string) (s : SessionState)
  (j : list effect).

Lemma posts_app j1 j2 : posts (j1 ++ j2) = posts j1 + posts j2.
Proof.
  induction j1 as [|e j1 IH]; [reflexivity|].
  destruct e; cbn; rewrite IH; reflexivity.
Qed.

Lemma seconds_slept_app j1 j2 :
  seconds_slept (j1 ++ j2) = seconds_slept j1 + seconds_slept j2.
Proof.
  induction j1 as [|e j1 IH]; [reflexivity|].
  destruct e; cbn; rewrite IH; lia.
Qed.

(** The retry loop when attempt [k] is the first one answered with 200. *)
Lemma deliver_success net k : forall remaining attempt w,
  attempt <= k < attempt + remaining ->
  outcome net k = Http 200 ->
  (forall a, attempt <= a < k -> outcome net a <> Http 200) ->
  let res := deliver net attempt remaining w in
  fst res = Ok true
  /\ metrics (snd res) = count_sent (metrics w)
  /\ failed_callbacks (snd res) = failed_callbacks w
  /\ posts (journal (snd res)) = posts (journal w) + (k - attempt + 1).
Proof.
  induction remaining as [|n IH]; intros attempt w Hk Hok Hfail; [lia|].
  cbv zeta. cbn [deliver].
  erewrite bind_ok by reflexivity. cbv beta.
  destruct (decide (attempt = k)) as [->|Hne].
  - rewrite Hok. cbn. rewrite posts_app. cbn.
    replace (k - k + 1) with 1 by lia. repeat split; reflexivity.
  - assert (H0 : outcome net attempt <> Http 200) by (apply Hfail; lia).
    assert (Hk' : S attempt <= k < S attempt + n) by lia.
    assert (Hfail' : forall a, S attempt <= a < k -> outcome net a <> Http 200)
      by (intros a Ha; apply Hfail; lia).
    destruct (outcome net attempt) as [status_code|].
    + destruct (Nat.eqb_spec status_code 200) as [->|_]; [congruence|].
      destruct (IH (S attempt) (log_effect (Posted attempt) w) Hk' Hok Hfail')
        as (H1 & H2 & H3 & H4).
      rewrite H1, H2, H3, H4. cbn [journal log_effect metrics
                                     failed_callbacks].
      rewrite posts_app. cbn. repeat split; try reflexivity. lia.
    + destruct (attempt <? MAX_CALLBACK_RETRIES - 1);
        erewrite bind_ok by reflexivity; cbv beta.
      * destruct (IH (S attempt)
                    (log_effect (Slept (2 ^ attempt))
                       (log_effect (Posted attempt) w)) Hk' Hok Hfail')
          as (H1 & H2 & H3 & H4).
        rewrite H1, H2, H3, H4. cbn [journal log_effect metrics
                                       failed_callbacks].
        rewrite !posts_app. cbn. repeat split; try reflexivity. lia.
      * destruct (IH (S attempt) (log_effect (Posted attempt) w)
                    Hk' Hok Hfail') as (H1 & H2 & H3 & H4).
        rewrite H1, H2, H3, H4. cbn [journal log_effect metrics
                                       failed_callbacks].
        rewrite posts_app. cbn. repeat split; try reflexivity. lia.
Qed.

Lemma pow_min a :
  (a = 0 /\ 2 ^ Nat.min a 2 = 1)
  \/ (a = 1 /\ 2 ^ Nat.min a 2 = 2 /\ 2 ^ a = 2)
  \/ (2 <= a /\ 2 ^ Nat.min a 2 = 4).
Proof.
  destruct a as [|[|a]]; [left|right; left|right; right].
  - split; reflexivity.
  - repeat split; reflexivity.
  - split; [lia|]. rewrite Nat.min_r by lia. reflexivity.
Qed.

(** The retry loop never raises; it touches the metrics only to count a
    success; it posts at least once and at most once per round; and from
    attempt 0 on it sleeps 3 seconds at most. *)
Lemma deliver_effort net : forall remaining attempt w,
  let res := deliver net attempt remaining w in
  (exists b, fst res = Ok b
             /\ metrics (snd res)
                = if b then count_sent (metrics w) else metrics w)
  /\ failed_callbacks (snd res) = failed_callbacks w
  /\ posts (journal (snd res)) <= posts (journal w) + remaining
  /\ (1 <= remaining -> posts (journal w) + 1 <= posts (journal (snd res)))
  /\ seconds_slept (journal (snd res)) + 2 ^ Nat.min attempt 2
     <= seconds_slept (journal w) + 4.
Proof.
  induction remaining as [|n IH]; intros attempt w; cbv zeta.
  - cbn [deliver ret fst snd]. split; [exists false; split; reflexivity|].
    split; [reflexivity|]. split; [lia|]. split; [lia|].
    destruct (pow_min attempt) as [[_ E]|[(_ & E & _)|[_ E]]]; rewrite E; lia.
  - cbn [deliver]. erewrite bind_ok by reflexivity. cbv beta.
    pose proof (pow_min attempt) as P0.
    pose proof (pow_min (S attempt)) as P1.
    destruct (outcome net attempt) as [status_code|].
    + destruct (status_code =? 200).
      * cbn [bind modify ret fst snd journal log_effect metrics set_metrics
               failed_callbacks].
        rewrite posts_app, seconds_slept_app. cbn [posts seconds_slept].
        split; [exists true; split; reflexivity|].
        split; [reflexivity|]. split; [lia|]. split; [lia|].
        destruct P0 as [[_ E]|[(_ & E & _)|[_ E]]]; rewrite E; lia.
      * destruct (IH (S attempt) (log_effect (Posted attempt) w))
          as ((b & H1 & H2) & H3 & H4 & H5 & H6).
        cbn [journal log_effect metrics failed_callbacks] in H2, H3, H4, H5,
          H6.
        rewrite posts_app in H4, H5. rewrite seconds_slept_app in H6.
        cbn [posts seconds_slept] in H4, H5, H6.
        split; [exists b; split; assumption|].
        split; [exact H3|].
        assert (Hpost : posts (journal w) + 1
                        <= posts (journal
                                    (snd (deliver net (S attempt) n
                                            (log_effect (Posted attempt) w))))).
        { destruct n as [|n'].
          - cbn [deliver ret snd journal log_effect]. rewrite posts_app.
            cbn [posts]. lia.
          - specialize (H5 ltac:(lia)). lia. }
        split; [lia|]. split; [intros _; exact Hpost|].
        destruct P0 as [[E0 E]|[(E0 & E & _)|[E0 E]]];
          destruct P1 as [[E1 E']|[(E1 & E' & _)|[E1 E']]];
          rewrite ?E, ?E' in *; lia.
    + destruct (Nat.ltb_spec attempt (MAX_CALLBACK_RETRIES - 1)) as [Hlt|Hge];
        erewrite bind_ok by reflexivity; cbv beta.
      * destruct (IH (S attempt)
                    (log_effect (Slept (2 ^ attempt))
                       (log_effect (Posted attempt) w)))
          as ((b & H1 & H2) & H3 & H4 & H5 & H6).
        cbn [journal log_effect metrics failed_callbacks] in H2, H3, H4, H5,
          H6.
        rewrite !posts_app in H4, H5. rewrite !seconds_slept_app in H6.
        cbn [posts seconds_slept] in H4, H5, H6.
        split; [exists b; split; assumption|].
        split; [exact H3|].
        assert (Hpost : posts (journal w) + 1
                        <= posts (journal
                                    (snd (deliver net (S attempt) n
                                            (log_effect (Slept (2 ^ attempt))
                                               (log_effect (Posted attempt)
                                                  w)))))).
        { destruct n as [|n'].
          - cbn [deliver ret snd journal log_effect]. rewrite !posts_app.
            cbn [posts]. lia.
          - specialize (H5 ltac:(lia)). lia. }
        split; [lia|]. split; [intros _; exact Hpost|].
        unfold MAX_CALLBACK_RETRIES in Hlt.
        assert (Ha : attempt = 0 \/ attempt = 1) by lia.
        destruct Ha as [-> | ->]; cbn in H6 |- *; lia.
      * destruct (IH (S attempt) (log_effect (Posted attempt) w))
          as ((b & H1 & H2) & H3 & H4 & H5 & H6).
        cbn [journal log_effect metrics failed_callbacks] in H2, H3, H4, H5,
          H6.
        rewrite posts_app in H4, H5. rewrite seconds_slept_app in H6.
        cbn [posts seconds_slept] in H4, H5, H6.
        split; [exists b; split; assumption|].
        split; [exact H3|].
        assert (Hpost : posts (journal w) + 1
                        <= posts (journal
                                    (snd (deliver net (S attempt) n
                                            (log_effect (Posted attempt) w))))).
        { destruct n as [|n'].
          - cbn [deliver ret snd journal log_effect]. rewrite posts_app.
            cbn [posts]. lia.
          - specialize (H5 ltac:(lia)). lia. }
        split; [lia|]. split; [intros _; exact Hpost|].
        destruct P0 as [[E0 E]|[(E0 & E & _)|[E0 E]]];
          destruct P1 as [[E1 E']|[(E1 & E' & _)|[E1 E']]];
          rewrite ?E, ?E' in *; lia.
Qed.

(** What the code behind the loop leaves. *)
Lemma all_retries_failed_run net sid payload w :
  all_retries_failed net sid payload w
  = (Ok tt,
     let f := total_callbacks_failed (metrics w) + 1 in
     let m := set_breaker (circuit_breaker_active (metrics w))
                (circuit_breaker_until (metrics w)) f (metrics w) in
     {| sessions := sessions w;
        metrics := if CIRCUIT_BREAKER_THRESHOLD <=? f
                   then set_breaker true
                          (Some (open_clock net + CIRCUIT_BREAKER_TIMEOUT)%Z)
                          f m
                   else m;
        failed_callbacks :=
          failed_callbacks w ++ [mkFailed sid payload (queue_clock net)];
        tasks := tasks w;
        journal := journal w |}).
Proof.
  unfold all_retries_failed, bind, modify, get, ret. cbv zeta.
  cbn [set_metrics metrics set_breaker total_callbacks_failed].
  destruct (CIRCUIT_BREAKER_THRESHOLD <=? _); reflexivity.
Qed.

Lemma handled_metrics env sid text w :
  metrics (snd (handled env sid text w)) = metrics w.
Proof.
  unfold handled. destruct (fault env) as [[]|]; cbn [snd]; try reflexivity.
  all: destruct (fires _ _ _); reflexivity.
Qed.

(** The ways through the breaker check. *)
Lemma breaker_gate_cases net w :
  breaker_gate net w = (Ok true, w)
  \/ (breaker_gate net w = (Raised TypeError, w)
      /\ circuit_breaker_active (metrics w) = true
      /\ circuit_breaker_until (metrics w) = None)
  \/ (breaker_gate net w = (Ok false, w)
      /\ circuit_breaker_active (metrics w) = false)
  \/ exists deadline,
       circuit_breaker_active (metrics w) = true
       /\ circuit_breaker_until (metrics w) = Some deadline
       /\ breaker_gate net w
          = (Ok false,
             set_metrics (set_breaker false (Some deadline) 0 (metrics w)) w).
Proof.
  unfold breaker_gate, bind, get. cbv beta iota zeta.
  destruct (circuit_breaker_active (metrics w)) eqn:Ea.
  - destruct (circuit_breaker_until (metrics w)) as [deadline|] eqn:Eu.
    + destruct (gate_clock net <? deadline)%Z; [left; reflexivity|].
      right; right; right. exists deadline. repeat split; reflexivity.
    + right; left. repeat split; reflexivity.
  - right; right; left. split; reflexivity.
Qed.

(** A dispatch that passes the check is its retry loop, followed on failure
    by the bookkeeping of the failure. *)
Lemma send_callback_proceeds net sid s w w0 :
  breaker_gate net w = (Ok false, w0) ->
  send_callback net sid s w
  = (let (r, w1) := deliver net 0 MAX_CALLBACK_RETRIES w0 in
     match r with
     | Ok true => (Ok true, w1)
     | Ok false =>
         (Ok false, snd (all_retries_failed net sid (build_report sid s) w1))
     | Raised e => (Raised e, w1)
     end).
Proof.
  intros Hg. unfold send_callback.
  erewrite bind_ok by exact Hg. cbv beta iota zeta.
  unfold bind at 1.
  destruct (deliver net 0 MAX_CALLBACK_RETRIES w0) as [[[|]|e] w1];
    try reflexivity.
  unfold bind. rewrite all_retries_failed_run. reflexivity.
Qed.

Lemma send_callback_stopped net sid s w r :
  breaker_gate net w = (r, w) -> r <> Ok false ->
  snd (send_callback net sid s w) = w.
Proof.
  intros Hg Hr. unfold send_callback, bind at 1. rewrite Hg.
  destruct r as [[|]|e]; [|congruence|]; reflexivity.
Qed.

Lemma send_callback_skips net sid s w :
  breaker_gate net w = (Ok true, w) ->
  fst (send_callback net sid s w) = Ok false.
Proof.
  intros Hg. unfold send_callback, bind at 1. rewrite Hg. reflexivity.
Qed.

Lemma count_sent_breaker_ok m : breaker_ok m -> breaker_ok (count_sent m).
Proof. unfold breaker_ok. destruct m; cbn. tauto. Qed.

(** One dispatch keeps the breaker consistent and does not raise. *)
Lemma send_callback_breaker net sid s w :
  breaker_ok (metrics w) ->
  (exists b, fst (send_callback net sid s w) = Ok b)
  /\ breaker_ok (metrics (snd (send_callback net sid s w))).
Proof.
  intros Hok.
  assert (Hgo : forall w0,
            breaker_gate net w = (Ok false, w0) ->
            circuit_breaker_active (metrics w0) = false ->
            total_callbacks_failed (metrics w0) < CIRCUIT_BREAKER_THRESHOLD ->
            (exists b, fst (send_callback net sid s w) = Ok b)
            /\ breaker_ok (metrics (snd (send_callback net sid s w)))).
  { intros w0 Hg Ha Hlt. rewrite (send_callback_proceeds _ _ _ _ _ Hg).
    destruct (deliver_effort net MAX_CALLBACK_RETRIES 0 w0)
      as ((b & Hb & Hm) & _).
    destruct (deliver net 0 MAX_CALLBACK_RETRIES w0) as [r w1].
    cbn [fst snd] in Hb, Hm. subst r. destruct b.
    - split; [eauto|]. cbn [snd]. rewrite Hm. apply count_sent_breaker_ok.
      unfold breaker_ok. rewrite Ha. exact Hlt.
    - split; [eauto|]. cbn [snd]. rewrite all_retries_failed_run.
      cbn [snd metrics]. rewrite Hm. unfold breaker_ok.
      destruct (Nat.leb_spec CIRCUIT_BREAKER_THRESHOLD
                  (total_callbacks_failed (metrics w0) + 1));
        cbn [circuit_breaker_active circuit_breaker_until
               total_callbacks_failed set_breaker].
      + split; [eauto|]. lia.
      + rewrite Ha. lia. }
  destruct (breaker_gate_cases net w)
    as [Hg|[(Hg & Ha & Hu)|[(Hg & Ha)|(deadline & Ha & Hu & Hg)]]].
  - rewrite (send_callback_stopped net sid s w _ Hg) by discriminate.
    split; [|exact Hok]. exists false. apply send_callback_skips, Hg.
  - unfold breaker_ok in Hok. rewrite Ha, Hu in Hok.
    destruct Hok as [[? ?] _]. discriminate.
  - apply (Hgo w Hg Ha). unfold breaker_ok in Hok. rewrite Ha in Hok.
    exact Hok.
  - apply (Hgo _ Hg); cbn; [reflexivity|]. unfold CIRCUIT_BREAKER_THRESHOLD.
    lia.
Qed.

Lemma step_breaker e w :
  whole e = true ->
  breaker_ok (metrics w) -> breaker_ok (metrics (do_step e w)).
Proof.
  destruct e as [env key payload|now|net sid' s'| | | |]; cbn [whole];
    try discriminate; intros _ H; cbn [do_step].
  - destruct (honeypot_cases (in_run env) key payload w)
      as [E|[E|[E|[E|(sid & text & _ & _ & _ & E)]]]]; rewrite E; cbn [snd];
      try exact H.
    rewrite handled_metrics. exact H.
  - unfold cleanup_cycle, breaker_ok in *. cbn. exact H.
  - apply send_callback_breaker, H.
Qed.

Lemma breaker_ok_sound m : breaker_ok m -> breaker_sound m.
Proof.
  unfold breaker_ok, breaker_sound.
  destruct (circuit_breaker_active m); [|tauto].
  intros [H1 H2]. split; [exact H1|lia].
Qed.

(** The bookkeeping of a failure keeps the breaker sound, whatever ran
    since the check. *)
Lemma all_retries_failed_sound net sid payload w :
  breaker_sound (metrics w) ->
  breaker_sound (metrics (snd (all_retries_failed net sid payload w))).
Proof.
  intros H. rewrite all_retries_failed_run. cbn [snd metrics].
  unfold breaker_sound in *.
  destruct (Nat.leb_spec CIRCUIT_BREAKER_THRESHOLD
              (total_callbacks_failed (metrics w) + 1));
    cbn [circuit_breaker_active circuit_breaker_until
           total_callbacks_failed set_breaker].
  - split; [eauto|lia].
  - destruct (circuit_breaker_active (metrics w)); [|assumption].
    destruct H as [_ H]. lia.
Qed.

Lemma breaker_gate_sound net w :
  breaker_sound (metrics w) ->
  (exists b, fst (breaker_gate net w) = Ok b)
  /\ breaker_sound (metrics (snd (breaker_gate net w))).
Proof.
  intros H.
  destruct (breaker_gate_cases net w)
    as [Hg|[(Hg & Ha & Hu)|[(Hg & Ha)|(deadline & Ha & Hu & Hg)]]];
    rewrite Hg; cbn [fst snd].
  - split; [eauto|exact H].
  - unfold breaker_sound in H. rewrite Ha, Hu in H.
    destruct H as [[? ?] _]. discriminate.
  - split; [eauto|exact H].
  - split; [eauto|]. unfold breaker_sound, CIRCUIT_BREAKER_THRESHOLD. cbn.
    lia.
Qed.

Lemma post_attempt_metrics net attempt w :
  metrics (post_attempt net attempt w) = metrics w
  \/ metrics (post_attempt net attempt w) = count_sent (metrics w).
Proof.
  unfold post_attempt. cbv zeta.
  destruct (outcome net attempt) as [status_code|]; [|left; reflexivity].
  destruct (status_code =? 200); [right|left]; reflexivity.
Qed.

Lemma count_sent_sound m : breaker_sound m -> breaker_sound (count_sent m).
Proof. unfold breaker_sound. destruct m; cbn. tauto. Qed.

(** One dispatch, interrupted or not, keeps the breaker sound; the whole
    of it does not raise. *)
Lemma send_callback_sound net sid s w :
  breaker_sound (metrics w) ->
  (exists b, fst (send_callback net sid s w) = Ok b)
  /\ breaker_sound (metrics (snd (send_callback net sid s w))).
Proof.
  intros Hok.
  destruct (breaker_gate_sound net w Hok) as [[b Hb] Hs].
  destruct (breaker_gate net w) as [r w0] eqn:Hg. cbn [fst snd] in Hb, Hs.
  subst r. destruct b.
  - assert (E : send_callback net sid s w = (Ok false, w0)).
    { unfold send_callback. erewrite bind_ok by exact Hg. reflexivity. }
    rewrite E. split; [eauto|exact Hs].
  - rewrite (send_callback_proceeds _ _ _ _ _ Hg).
    destruct (deliver_effort net MAX_CALLBACK_RETRIES 0 w0)
      as ((b & Hb & Hm) & _).
    destruct (deliver net 0 MAX_CALLBACK_RETRIES w0) as [r w1].
    cbn [fst snd] in Hb, Hm. subst r. destruct b.
    + split; [eauto|]. cbn [snd]. rewrite Hm.
      apply count_sent_sound, Hs.
    + split; [eauto|]. cbn [snd]. apply all_retries_failed_sound.
      rewrite Hm. exact Hs.
Qed.

Lemma step_sound e w :
  breaker_sound (metrics w) -> breaker_sound (metrics (do_step e w)).
Proof.
  intros H.
  destruct e as [env key payload|now|net sid' s'|net|net attempt|attempt
                |net sid' report]; cbn [do_step].
  - destruct (honeypot_cases (in_run env) key payload w)
      as [E|[E|[E|[E|(sid & text & _ & _ & _ & E)]]]]; rewrite E; cbn [snd];
      try exact H.
    rewrite handled_metrics. exact H.
  - exact H.
  - apply send_callback_sound, H.
  - apply breaker_gate_sound, H.
  - destruct (post_attempt_metrics net attempt w) as [E|E]; rewrite E;
      [exact H|apply count_sent_sound, H].
  - exact H.
  - apply all_retries_failed_sound, H.
Qed.

Lemma run_snoc steps1 steps2 w :
  run (steps1 ++ steps2) w = run steps2 (run steps1 w).
Proof. unfold run. apply foldl_app. Qed.

(** The retry loop left alone is the run of its phases. *)
Lemma deliver_phases net : forall remaining attempt w,
  deliver net attempt remaining w
  = (Ok (snd (loop_phases net attempt remaining)),
     run (fst (loop_phases net attempt remaining)) w).
Proof.
  induction remaining as [|remaining IH]; intros attempt w; [reflexivity|].
  cbn [deliver loop_phases]. unfold bind at 1, modify at 1.
  destruct (outcome net attempt) as [status_code|] eqn:Eo.
  - destruct (status_code =? 200) eqn:E200.
    + cbn [fst snd]. rewrite run_cons. cbn [do_step run foldl].
      unfold post_attempt. rewrite Eo, E200. reflexivity.
    + rewrite IH. destruct (loop_phases net (S attempt) remaining) as [l d].
      cbn [fst snd]. rewrite run_cons. cbn [do_step].
      unfold post_attempt. rewrite Eo, E200. reflexivity.
  - destruct (attempt <? MAX_CALLBACK_RETRIES - 1);
      unfold bind at 1, modify, ret; rewrite IH;
      destruct (loop_phases net (S attempt) remaining) as [l d];
      cbn [fst snd app]; rewrite !run_cons; cbn [do_step];
      unfold post_attempt; rewrite Eo; reflexivity.
Qed.

(** A dispatch left alone is the run of its phases. *)
Lemma dispatch_is_its_phases net sid s w :
  run (phases net sid s w) w = do_step (Dispatch net sid s) w.
Proof.
  unfold phases. rewrite run_cons. cbn [do_step].
  assert (Hgo : forall w0,
            breaker_gate net w = (Ok false, w0) ->
            run (let (l, delivered) :=
                   loop_phases net 0 MAX_CALLBACK_RETRIES in
                 l ++ (if delivered then []
                       else [DispatchFailed net sid (build_report sid s)]))
              w0
            = snd (send_callback net sid s w)).
  { intros w0 Hg. rewrite (send_callback_proceeds _ _ _ _ _ Hg).
    rewrite deliver_phases.
    destruct (loop_phases net 0 MAX_CALLBACK_RETRIES) as [l d].
    cbn [fst snd]. rewrite run_snoc. destruct d; reflexivity. }
  destruct (breaker_gate_cases net w)
    as [Hg|[(Hg & Ha & Hu)|[(Hg & Ha)|(deadline & Ha & Hu & Hg)]]].
  - rewrite (send_callback_stopped net sid s w _ Hg) by discriminate.
    rewrite Hg. reflexivity.
  - rewrite (send_callback_stopped net sid s w _ Hg) by discriminate.
    rewrite Hg. reflexivity.
  - rewrite Hg. cbn [fst snd]. apply Hgo, Hg.
  - rewrite Hg. cbn [fst snd]. apply Hgo, Hg.
Qed.

Lemma send_callback_requests net sid s w :
  total_requests (metrics (snd (send_callback net sid s w)))
  = total_requests (metrics w).
Proof.
  assert (Hgo : forall w0,
            breaker_gate net w = (Ok false, w0) ->
            total_requests (metrics w0) = total_requests (metrics w) ->
            total_requests (metrics (snd (send_callback net sid s w)))
            = total_requests (metrics w)).
  { intros w0 Hg H0. rewrite (send_callback_proceeds _ _ _ _ _ Hg).
    destruct (deliver_effort net MAX_CALLBACK_RETRIES 0 w0)
      as ((b & Hb & Hm) & _).
    destruct (deliver net 0 MAX_CALLBACK_RETRIES w0) as [r w1].
    cbn [fst snd] in Hb, Hm. subst r. rewrite <- H0. destruct b; cbn [snd].
    - rewrite Hm. reflexivity.
    - rewrite all_retries_failed_run. cbn [snd metrics]. rewrite Hm.
      destruct (CIRCUIT_BREAKER_THRESHOLD <=? _); reflexivity. }
  destruct (breaker_gate_cases net w)
    as [Hg|[(Hg & Ha & Hu)|[(Hg & Ha)|(deadline & Ha & Hu & Hg)]]].
  - rewrite (send_callback_stopped net sid s w _ Hg) by discriminate.
    reflexivity.
  - rewrite (send_callback_stopped net sid s w _ Hg) by discriminate.
    reflexivity.
  - apply (Hgo w Hg eq_refl).
  - apply (Hgo _ Hg). reflexivity.
Qed.

Lemma step_requests e w :
  total_requests (metrics (do_step e w)) = total_requests (metrics w).
Proof.
  destruct e as [env key payload|now|net sid' s'|net|net attempt|attempt
                |net sid' report]; cbn [do_step].
  - destruct (honeypot_cases (in_run env) key payload w)
      as [E|[E|[E|[E|(sid & text & _ & _ & _ & E)]]]]; rewrite E; cbn [snd];
      try reflexivity.
    rewrite handled_metrics. reflexivity.
  - reflexivity.
  - apply send_callback_requests.
  - destruct (breaker_gate_cases net w)
      as [Hg|[(Hg & Ha & Hu)|[(Hg & Ha)|(deadline & Ha & Hu & Hg)]]];
      rewrite Hg; reflexivity.
  - destruct (post_attempt_metrics net attempt w) as [E|E]; rewrite E;
      reflexivity.
  - reflexivity.
  - rewrite all_retries_failed_run. cbn [snd metrics].
    destruct (CIRCUIT_BREAKER_THRESHOLD <=? _); reflexivity.
Qed.

End DeliveryFacts.

(** X8. A dispatch through the closed breaker stops at the first attempt
    that is answered with status 200: it returns [True], has posted exactly
    the attempts up to that one, counts one callback sent, queues nothing
    and leaves the failure counter and the breaker as they were (a success
    does not reset the counter). *)
Theorem delivery_stops_at_first_success net sid s w k :
  circuit_breaker_active (metrics w) = false ->
  k < MAX_CALLBACK_RETRIES ->
  outcome net k = Http 200 ->
  (forall a, a < k -> outcome net a <> Http 200) ->
  let res := send_callback net sid s w in
  fst res = Ok true
  /\ posts (journal (snd res)) = posts (journal w) + k + 1
  /\ total_callbacks_sent (metrics (snd res))
     = total_callbacks_sent (metrics w) + 1
  /\ total_callbacks_failed (metrics (snd res))
     = total_callbacks_failed (metrics w)
  /\ circuit_breaker_active (metrics (snd res)) = false
  /\ failed_callbacks (snd res) = failed_callbacks w.
Proof.
  intros Ha Hk Hok Hfail. cbv zeta.
  rewrite (send_callback_proceeds net sid s w w (breaker_gate_closed _ _ Ha)).
  destruct (deliver_success net k MAX_CALLBACK_RETRIES 0 w)
    as (H1 & H2 & H3 & H4); [lia|exact Hok|intros a Hlt; apply Hfail; lia|].
  destruct (deliver net 0 MAX_CALLBACK_RETRIES w) as [r w1].
  cbn [fst snd] in *. subst r. cbn [fst snd]. rewrite H2, H3, H4.
  destruct (metrics w); cbn in *. repeat split; try lia; assumption.
Qed.

Lemma delivery_stops_at_first_success_witness :
  let net := {| gate_clock := 0%Z;
                outcome := fun a => if a =? 1 then Http 200
                                    else TransportError;
                open_clock := 0%Z; queue_clock := 0%Z |} in
  fst (send_callback net "s1" blank_session (world_failed 4)) = Ok true
  /\ total_callbacks_failed
       (metrics (snd (send_callback net "s1" blank_session (world_failed 4))))
     = 4.
Proof.
  cbv zeta.
  match goal with |- fst (send_callback ?n _ _ _) = _ /\ _ =>
    destruct (delivery_stops_at_first_success n "s1" blank_session
                (world_failed 4) 1) as (H1 & _ & _ & H4 & _)
  end.
  - reflexivity.
  - unfold MAX_CALLBACK_RETRIES. lia.
  - reflexivity.
  - intros a Ha. assert (a = 0) as -> by lia. discriminate.
  - split; [exact H1|exact H4].
Defined.

(** X9. A dispatch through the closed breaker whose attempts all fail
    appends exactly one record to the failure queue: the identifier, the
    report it tried to deliver and the clock reading at that moment; the
    count of callbacks sent, the session store and the task list stay as
    they were. *)
Theorem exhausted_dispatch_is_queued net sid s w :
  circuit_breaker_active (metrics w) = false ->
  (forall a, a < MAX_CALLBACK_RETRIES -> outcome net a <> Http 200) ->
  let res := send_callback net sid s w in
  fst res = Ok false
  /\ failed_callbacks (snd res)
     = failed_callbacks w
         ++ [mkFailed sid (build_report sid s) (queue_clock net)]
  /\ total_callbacks_sent (metrics (snd res))
     = total_callbacks_sent (metrics w)
  /\ sessions (snd res) = sessions w
  /\ tasks (snd res) = tasks w.
Proof.
  intros Ha Hfail. cbv zeta.
  rewrite (send_callback_proceeds net sid s w w (breaker_gate_closed _ _ Ha)).
  destruct (deliver_all_fail net 0 MAX_CALLBACK_RETRIES w)
    as (H1 & H2 & H3 & H4 & H5); [intros a Hlt; apply Hfail; lia|].
  destruct (deliver net 0 MAX_CALLBACK_RETRIES w) as [r w1].
  cbn [fst snd] in *. subst r. rewrite all_retries_failed_run.
  cbn [fst snd failed_callbacks sessions tasks metrics]. rewrite H2, H3, H4, H5.
  repeat split; try reflexivity.
  destruct (CIRCUIT_BREAKER_THRESHOLD <=? _); reflexivity.
Qed.

Lemma exhausted_dispatch_is_queued_witness :
  failed_callbacks
    (snd (send_callback net_unreachable "s1" blank_session initial_world))
  = [mkFailed "s1" (build_report "s1" blank_session) 1000%Z].
Proof.
  destruct (exhausted_dispatch_is_queued net_unreachable "s1" blank_session
              initial_world) as (_ & H & _).
  - reflexivity.
  - intros a _. discriminate.
  - exact H.
Defined.

(** X10. The report built at dispatch time carries each bucket of the
    session with set semantics: no entry twice and exactly the entries the
    bucket holds; the suspicious keywords are exactly the keywords counted
    so far, each once; the phone numbers are always empty, the scam flag is
    always set and the message total is the interaction count. *)
Theorem report_deduplicates_buckets sid s :
  let r := build_report sid s in
  (NoDup (upiIds r) /\ forall x, x ∈ upiIds r <-> x ∈ upi (intel s))
  /\ (NoDup (bankAccounts r)
      /\ forall x, x ∈ bankAccounts r <-> x ∈ accounts (intel s))
  /\ (NoDup (phishingLinks r)
      /\ forall x, x ∈ phishingLinks r <-> x ∈ urls (intel s))
  /\ (NoDup (suspiciousKeywords r)
      /\ forall k, k ∈ suspiciousKeywords r
                   <-> is_Some (keyword_counts s !! k))
  /\ phoneNumbers r = []
  /\ scamDetected r = true
  /\ totalMessagesExchanged r = count s
  /\ sessionId r = sid.
Proof.
  cbv zeta. unfold build_report, dedup.
  cbn [upiIds bankAccounts phishingLinks suspiciousKeywords phoneNumbers
         scamDetected totalMessagesExchanged sessionId].
  assert (Hset : forall l : list string,
            NoDup (elements (list_to_set l : gset string))
            /\ forall x, x ∈ elements (list_to_set l : gset string) <-> x ∈ l).
  { intros l. split; [apply NoDup_elements|].
    intros x. rewrite elem_of_elements, elem_of_list_to_set. reflexivity. }
  split; [apply Hset|]. split; [apply Hset|]. split; [apply Hset|].
  split; [|repeat split; reflexivity].
  split; [apply NoDup_fst_map_to_list|].
  intros k. split.
  - intros Hk. apply list_elem_of_fmap in Hk as ([k' v] & -> & Hkv).
    apply elem_of_map_to_list in Hkv. eauto.
  - intros [v Hv]. apply (list_elem_of_fmap_2' fst _ (k, v)); [|reflexivity].
    apply elem_of_map_to_list, Hv.
Qed.

(** X11. A dispatch suspends at every POST and at every sleep, and other
    dispatches run in between.  However they interleave, in every state
    the service can reach the breaker is open exactly when 5 failures or
    more are counted, and an open breaker has a deadline: so the check of
    the breaker never raises, and a dispatch that is left alone from there
    returns a boolean.  If no dispatch of the run is interrupted, an open
    breaker has exactly 5 on the counter, which therefore never exceeds 5.
    Overlapping dispatches break that bound: six of them that pass the
    check together and all fail leave 6 on the counter. *)
Theorem breaker_always_consistent steps net sid s :
  let w := run steps initial_world in
  breaker_sound (metrics w)
  /\ (exists b, fst (breaker_gate net w) = Ok b)
  /\ (exists b, fst (send_callback net sid s w) = Ok b)
  /\ (forallb whole steps = true ->
      breaker_ok (metrics w)
      /\ total_callbacks_failed (metrics w) <= CIRCUIT_BREAKER_THRESHOLD)
  /\ (let w6 := run (overlapping ["s1"; "s2"; "s3"; "s4"; "s5"; "s6"])
                  initial_world in
      circuit_breaker_active (metrics w6) = true
      /\ circuit_breaker_until (metrics w6) = Some 1300%Z
      /\ total_callbacks_failed (metrics w6) = 6).
Proof.
  cbv zeta.
  assert (H : forall steps w, breaker_sound (metrics w) ->
                              breaker_sound (metrics (run steps w))).
  { clear steps. induction steps as [|e steps IH]; intros w Hw; [exact Hw|].
    rewrite run_cons. apply IH, step_sound, Hw. }
  assert (Hw : forall steps w, forallb whole steps = true ->
                               breaker_ok (metrics w) ->
                               breaker_ok (metrics (run steps w))).
  { clear steps H. induction steps as [|e steps IH]; intros w Hall Hw;
      [exact Hw|].
    cbn [forallb] in Hall. apply andb_true_iff in Hall as [He Hall].
    rewrite run_cons. apply IH; [exact Hall|]. apply step_breaker; assumption. }
  assert (Hok : breaker_sound (metrics (run steps initial_world))).
  { apply H. unfold breaker_sound, CIRCUIT_BREAKER_THRESHOLD. cbn. lia. }
  split; [exact Hok|]. split; [apply breaker_gate_sound, Hok|].
  split; [apply send_callback_sound, Hok|]. split.
  - intros Hall.
    assert (Hb : breaker_ok (metrics (run steps initial_world))).
    { apply Hw; [exact Hall|].
      unfold breaker_ok, CIRCUIT_BREAKER_THRESHOLD. cbn. lia. }
    split; [exact Hb|]. unfold breaker_ok in Hb.
    destruct (circuit_breaker_active _); [destruct Hb; lia|lia].
  - vm_compute. repeat split; reflexivity.
Qed.

(** X12. Whatever the collector answers and whatever the state, one
    dispatch posts at most 3 times and sleeps at most 3 seconds in all;
    with the breaker closed it posts at least once. *)
Theorem dispatch_effort_bounded net sid s w :
  let res := send_callback net sid s w in
  posts (journal (snd res)) <= posts (journal w) + 3
  /\ seconds_slept (journal (snd res)) <= seconds_slept (journal w) + 3
  /\ (circuit_breaker_active (metrics w) = false ->
      posts (journal w) + 1 <= posts (journal (snd res))).
Proof.
  cbv zeta.
  assert (Hgo : forall w0,
            breaker_gate net w = (Ok false, w0) -> journal w0 = journal w ->
            posts (journal (snd (send_callback net sid s w)))
              <= posts (journal w) + 3
            /\ seconds_slept (journal (snd (send_callback net sid s w)))
               <= seconds_slept (journal w) + 3
            /\ posts (journal w) + 1
               <= posts (journal (snd (send_callback net sid s w)))).
  { intros w0 Hg Hj. rewrite (send_callback_proceeds _ _ _ _ _ Hg).
    destruct (deliver_effort net MAX_CALLBACK_RETRIES 0 w0)
      as ((b & Hb & _) & _ & H1 & H2 & H3).
    specialize (H2 ltac:(unfold MAX_CALLBACK_RETRIES; lia)).
    destruct (deliver net 0 MAX_CALLBACK_RETRIES w0) as [r w1].
    cbn [fst snd] in *. subst r. rewrite Hj in *.
    unfold MAX_CALLBACK_RETRIES in H1. cbn [Nat.min Nat.pow Nat.mul] in H3.
    destruct b; cbn [snd]; [|rewrite all_retries_failed_run; cbn [snd journal]];
      lia. }
  destruct (breaker_gate_cases net w)
    as [Hg|[(Hg & Ha & Hu)|[(Hg & Ha)|(deadline & Ha & Hu & Hg)]]].
  - rewrite (send_callback_stopped net sid s w _ Hg) by discriminate.
    split; [lia|]. split; [lia|].
    intros Ha. rewrite (breaker_gate_closed _ _ Ha) in Hg. discriminate.
  - rewrite (send_callback_stopped net sid s w _ Hg) by discriminate.
    split; [lia|]. split; [lia|]. congruence.
  - destruct (Hgo w Hg eq_refl) as (H1 & H2 & H3). auto.
  - destruct (Hgo _ Hg eq_refl) as (H1 & H2 & H3). auto.
Qed.

Lemma dispatch_effort_bounded_witness :
  posts (journal (snd (send_callback net_unreachable "s1" blank_session
                         initial_world))) <= 3
  /\ 1 <= posts (journal (snd (send_callback net_unreachable "s1"
                                 blank_session initial_world))).
Proof.
  destruct (dispatch_effort_bounded net_unreachable "s1" blank_session
              initial_world) as (H1 & _ & H3).
  split; [exact H1|exact (H3 eq_refl)].
Defined.

(** X13. The request counter that the metrics endpoint reports is never
    written: no message, cleanup cycle or dispatch changes it, so it reads
    0 in every state the service can reach. *)
Theorem request_counter_never_moves steps :
  total_requests (metrics (run steps initial_world)) = 0.
Proof.
  assert (H : forall steps w,
            total_requests (metrics (run steps w))
            = total_requests (metrics w)).
  { clear steps. induction steps as [|e steps IH]; intros w; [reflexivity|].
    rewrite run_cons, IH. apply step_requests. }
  rewrite H. reflexivity.
Qed.
(* ===================================================================== *)
(** ** The cumulative keyword score *)
(* ===================================================================== *)

Section ScoreFacts.

Implicit Types (m hits counts : gmap string nat).

Lemma sum_values_empty : sum_values ∅ = 0.
Proof. reflexivity. Qed.

Lemma sum_values_insert_fresh m k v :
  m !! k = None -> sum_values (<[k := v]> m) = v + sum_values m.
Proof.
  intros H. unfold sum_values.
  rewrite map_fold_insert_L; [reflexivity| |exact H].
  intros. lia.
Qed.

Lemma sum_values_insert m k v :
  sum_values (<[k := v]> m) + default 0 (m !! k) = v + sum_values m.
Proof.
  destruct (m !! k) as [x|] eqn:E; cbn [default from_option id].
  - assert (H1 : sum_values m = x + sum_values (delete k m)).
    { rewrite <- (insert_delete_id m k x E) at 1.
      apply sum_values_insert_fresh, lookup_delete_eq. }
    assert (H2 : sum_values (<[k := v]> m) = v + sum_values (delete k m)).
    { rewrite <- (insert_delete_eq m k v).
      apply sum_values_insert_fresh, lookup_delete_eq. }
    lia.
  - rewrite sum_values_insert_fresh by exact E. lia.
Qed.

(** The second loop of the extractor adds the per-call counts up. *)
Lemma sum_values_accumulate hits counts :
  sum_values (accumulate hits counts) = sum_values counts + sum_values hits.
Proof.
  unfold accumulate.
  apply (map_fold_weak_ind
           (fun acc (m : gmap string nat) =>
              sum_values acc = sum_values counts + sum_values m)).
  - rewrite sum_values_empty. lia.
  - intros k c m acc Hk IH.
    pose proof (sum_values_insert acc k (default 0 (acc !! k) + c)) as H.
    rewrite (sum_values_insert_fresh m k c Hk). lia.
Qed.

(** The first loop: the per-call map adds up to the per-call score. *)
Lemma scan_fold_sum ml l : forall acc : gmap string nat * nat,
  NoDup l ->
  (forall k, k ∈ l -> fst acc !! k = None) ->
  sum_values (fst acc) = snd acc ->
  let res := foldl (fun acc keyword =>
                      let cnt := str_count ml keyword in
                      if 0 <? cnt
                      then (<[keyword := cnt]> (fst acc), snd acc + cnt)
                      else acc) acc l in
  sum_values (fst res) = snd res.
Proof.
  induction l as [|k l IH]; intros acc Hnd Hfresh Hsum; [exact Hsum|].
  cbn [foldl]. apply NoDup_cons in Hnd as [Hk Hnd]. apply IH; [exact Hnd| |].
  - intros k' Hk'. cbv zeta. destruct (0 <? str_count ml k); cbn [fst].
    + rewrite lookup_insert_ne by (intros ->; exact (Hk Hk')).
      apply Hfresh. right. exact Hk'.
    + apply Hfresh. right. exact Hk'.
  - cbv zeta. destruct (0 <? str_count ml k); cbn [fst snd]; [|exact Hsum].
    rewrite sum_values_insert_fresh by (apply Hfresh; left). lia.
Qed.

Lemma scan_keywords_sum message :
  sum_values (fst (scan_keywords (lower message))) = per_call_score message.
Proof.
  rewrite <- scan_keywords_score. unfold scan_keywords.
  apply scan_fold_sum; [|intros; apply lookup_empty|reflexivity].
  apply (bool_decide_unpack _). vm_compute. exact I.
Qed.

Lemma current_score env sid w :
  sum_values (keyword_counts (current env sid (sessions w))) = score_of sid w.
Proof.
  unfold score_of. destruct (lookup_session sid (sessions w)) as [s|] eqn:E.
  - rewrite (current_stored _ _ _ _ E). reflexivity.
  - rewrite (current_fresh _ _ _ E). reflexivity.
Qed.

Lemma after_message_score env text s :
  keyword_counts (after_message env text s)
  = keyword_counts (snd (extract_intelligence text (after_touch env s))).
Proof.
  rewrite after_message_keywords.
  unfold after_history, after_respond, after_extract. reflexivity.
Qed.

End ScoreFacts.

(** X14. The cumulative keyword score of a session, the sum the trigger
    compares with 3, grows with each accepted message by exactly the number
    of keyword occurrences counted in that message, and does not move for a
    message shorter than 10 characters; no accepted message lowers it. *)
Theorem score_grows_by_keyword_count env sid text w :
  valid_request sid text = true ->
  fault env = None ->
  score_of sid (snd (honeypot env (Some (API_KEY env)) (Fields sid text) w))
  = score_of sid w
    + (if len text <? 10 then 0 else per_call_score text).
Proof.
  intros Hv Hf. rewrite honeypot_closed by exact Hv. cbn [snd].
  unfold score_of at 1. rewrite handled_lookup by exact Hf.
  rewrite after_message_score, <- (current_score env).
  destruct (Nat.ltb_spec (len text) 10) as [Hlt|Hge].
  - unfold extract_intelligence.
    rewrite (proj2 (Nat.ltb_lt _ _) Hlt). cbn [snd]. unfold after_touch.
    cbn. lia.
  - rewrite extract_long by exact Hge. cbn [snd keyword_counts
                                              set_keyword_counts].
    rewrite sum_values_accumulate, scan_keywords_sum. reflexivity.
Qed.
(* ===================================================================== *)
(** ** The rate limiter *)
(* ===================================================================== *)

Section RateFacts.

Implicit Types (st : gmap string (list time)) (sid : string) (now : time)
  (calls : list (time * string)).

Local Open Scope Z_scope.

(** One call in closed form: the stored readings of the identifier are cut
    down to the window, and the call is recorded unless 10 remain. *)
Lemma check_rate_limit_closed now sid st :
  check_rate_limit now sid st
  = let recent := in_window now (default [] (st !! sid)) in
    if (RATE_LIMIT_REQUESTS <=? length recent)%nat
    then (false, <[sid := recent]> st)
    else (true, <[sid := recent ++ [now]]> st).
Proof.
  unfold check_rate_limit, in_window. cbv zeta.
  destruct (st !! sid) as [l|] eqn:E.
  - rewrite E. cbn [default from_option id].
    destruct (_ <=? _)%nat; [reflexivity|]. rewrite insert_insert_eq.
    reflexivity.
  - rewrite lookup_insert_eq. cbn [default from_option id].
    rewrite !insert_insert_eq. destruct (_ <=? _)%nat; reflexivity.
Qed.

Lemma check_rate_limit_own now sid st :
  default [] (snd (check_rate_limit now sid st) !! sid)
  = in_window now (default [] (st !! sid))
      ++ (if fst (check_rate_limit now sid st) then [now] else []).
Proof.
  rewrite check_rate_limit_closed. cbv zeta.
  destruct (_ <=? _)%nat; cbn [fst snd]; rewrite lookup_insert_eq;
    cbn [default from_option id]; [rewrite app_nil_r|]; reflexivity.
Qed.

Lemma check_rate_limit_other now sid st sid' :
  sid <> sid' ->
  snd (check_rate_limit now sid st) !! sid' = st !! sid'.
Proof.
  intros H. rewrite check_rate_limit_closed. cbv zeta.
  destruct (_ <=? _)%nat; cbn [snd]; apply lookup_insert_ne, H.
Qed.

Lemma check_rate_limit_answer now sid st :
  fst (check_rate_limit now sid st)
  = bool_decide (length (in_window now (default [] (st !! sid)))
                 < RATE_LIMIT_REQUESTS)%nat.
Proof.
  rewrite check_rate_limit_closed. cbv zeta.
  destruct (Nat.leb_spec RATE_LIMIT_REQUESTS
              (length (in_window now (default [] (st !! sid))))); cbn [fst].
  - rewrite bool_decide_eq_false_2 by lia. reflexivity.
  - rewrite bool_decide_eq_true_2 by lia. reflexivity.
Qed.

Lemma in_window_app now (l1 l2 : list time) :
  in_window now (l1 ++ l2) = in_window now l1 ++ in_window now l2.
Proof. apply filter_app. Qed.

Lemma in_window_later t now (l : list time) :
  t <= now -> in_window now (in_window t l) = in_window now l.
Proof.
  intros H. unfold in_window. apply list_filter_filter_l.
  intros ts. unfold RATE_LIMIT_WINDOW. lia.
Qed.

Lemma in_window_now now : in_window now [now] = [now].
Proof.
  unfold in_window. rewrite filter_cons, decide_True; [reflexivity|].
  unfold RATE_LIMIT_WINDOW. lia.
Qed.

Lemma rate_calls_cons now sid calls st :
  rate_calls ((now, sid) :: calls) st
  = (fst (check_rate_limit now sid st)
       :: fst (rate_calls calls (snd (check_rate_limit now sid st))),
     snd (rate_calls calls (snd (check_rate_limit now sid st)))).
Proof.
  cbn [rate_calls]. destruct (check_rate_limit now sid st) as [a st1].
  cbn [fst snd]. destruct (rate_calls calls st1); reflexivity.
Qed.

Lemma rate_calls_app calls1 : forall calls2 st,
  rate_calls (calls1 ++ calls2) st
  = (fst (rate_calls calls1 st)
       ++ fst (rate_calls calls2 (snd (rate_calls calls1 st))),
     snd (rate_calls calls2 (snd (rate_calls calls1 st)))).
Proof.
  induction calls1 as [|[now sid] calls1 IH]; intros calls2 st.
  - cbn. destruct (rate_calls calls2 st); reflexivity.
  - rewrite <- app_comm_cons, !rate_calls_cons, IH. reflexivity.
Qed.

(** The window property of a list of granted readings: no 60 seconds hold
    more than 10 of them. *)
Lemma spread_snoc (G : list time) now :
  (forall u : time, length (filter (fun ts => (u - RATE_LIMIT_WINDOW < ts <= u)%Z) G)
             <= RATE_LIMIT_REQUESTS)%nat ->
  (length (in_window now G) < RATE_LIMIT_REQUESTS)%nat ->
  forall u : time,
    (length (filter (fun ts => (u - RATE_LIMIT_WINDOW < ts <= u)%Z) (G ++ [now]))
     <= RATE_LIMIT_REQUESTS)%nat.
Proof.
  intros HG Hroom u. destruct (Z.lt_ge_cases u now) as [Hlt|Hge].
  - rewrite filter_app, filter_cons, decide_False by lia.
    rewrite filter_nil, app_nil_r. apply HG.
  - rewrite <- (list_filter_filter_l
                  (fun ts => (u - RATE_LIMIT_WINDOW < ts <= u)%Z)
                  (fun ts => now - ts < RATE_LIMIT_WINDOW))
      by (intros ts; lia).
    assert (E : (length (in_window now (G ++ [now]))
                 <= RATE_LIMIT_REQUESTS)%nat).
    { rewrite in_window_app, in_window_now, length_app. cbn [length]. lia. }
    etransitivity; [apply length_filter|exact E].
Qed.

(** Along calls with a clock that never goes back, the readings stored for
    an identifier are, within any later window, those of its granted
    calls; and the granted calls are spread as above. *)
Lemma rate_calls_history sid calls : forall st (G : list time) lo,
  (forall now, lo <= now ->
               in_window now (default [] (st !! sid)) = in_window now G) ->
  (forall u : time, length (filter (fun ts => (u - RATE_LIMIT_WINDOW < ts <= u)%Z) G)
             <= RATE_LIMIT_REQUESTS)%nat ->
  Forall (fun t => lo <= t) calls.*1 ->
  StronglySorted Z.le calls.*1 ->
  let res := rate_calls calls st in
  let G' := G ++ granted sid calls (fst res) in
  (forall now, Forall (fun t => t <= now) calls.*1 -> lo <= now ->
               in_window now (default [] (snd res !! sid))
               = in_window now G')
  /\ (forall u : time,
        length (filter (fun ts => (u - RATE_LIMIT_WINDOW < ts <= u)%Z) G')
        <= RATE_LIMIT_REQUESTS)%nat.
Proof.
  induction calls as [|[t sid'] calls IH]; intros st G lo Hst HG Hlo Hsorted;
    cbv zeta.
  - cbn [rate_calls granted fst snd]. rewrite app_nil_r. split; [|exact HG].
    intros now _ Hnow. apply Hst, Hnow.
  - rewrite rate_calls_cons. cbn [fst snd granted].
    rewrite fmap_cons in Hlo, Hsorted. cbn [fst] in Hlo, Hsorted.
    apply Forall_cons in Hlo as [Ht Hlo].
    apply StronglySorted_inv in Hsorted as [Hsorted Hafter].
    destruct (decide (sid' = sid)) as [->|Hne].
    + rewrite bool_decide_eq_true_2 by reflexivity. rewrite andb_true_r.
      pose proof (check_rate_limit_answer t sid st) as Hans.
      pose proof (check_rate_limit_own t sid st) as Hown.
      rewrite (Hst t Ht) in Hans, Hown.
      destruct (fst (check_rate_limit t sid st)) eqn:Ea.
      * symmetry in Hans. apply bool_decide_eq_true_1 in Hans.
        destruct (IH (snd (check_rate_limit t sid st)) (G ++ [t]) t)
          as [H1 H2]; [| |exact Hafter|exact Hsorted|].
        { intros now Hnow. rewrite Hown, !in_window_app.
          rewrite in_window_later by exact Hnow. reflexivity. }
        { apply spread_snoc; assumption. }
        cbv zeta in H1, H2. rewrite <- app_assoc in H1, H2. cbn [app] in H1, H2.
        split; [|exact H2].
        intros now Hnow _. rewrite fmap_cons in Hnow.
        apply Forall_cons in Hnow as [Hnow1 Hnow2]. cbn [fst] in Hnow1.
        apply H1; assumption.
      * destruct (IH (snd (check_rate_limit t sid st)) G t)
          as [H1 H2]; [|exact HG|exact Hafter|exact Hsorted|].
        { intros now Hnow. rewrite Hown, app_nil_r.
          apply in_window_later, Hnow. }
        cbv zeta in H1, H2. split; [|exact H2].
        intros now Hnow _. rewrite fmap_cons in Hnow.
        apply Forall_cons in Hnow as [Hnow1 Hnow2]. cbn [fst] in Hnow1.
        apply H1; assumption.
    + rewrite bool_decide_eq_false_2 by exact Hne. rewrite andb_false_r.
      destruct (IH (snd (check_rate_limit t sid' st)) G lo)
        as [H1 H2]; [|exact HG|exact Hlo|exact Hsorted|].
      { intros now Hnow. rewrite check_rate_limit_other by exact Hne.
        apply Hst, Hnow. }
      cbv zeta in H1, H2. split; [|exact H2].
      intros now Hnow Hlo'. rewrite fmap_cons in Hnow.
      apply Forall_cons in Hnow as [Hnow1 Hnow2]. apply H1; assumption.
Qed.

Lemma sorted_bounds (l : list time) now :
  StronglySorted Z.le (l ++ [now]) ->
  Forall (fun t => t <= now) l /\ StronglySorted Z.le l.
Proof.
  induction l as [|a l IH]; intros H; [split; constructor|].
  cbn in H. apply StronglySorted_inv in H as [H1 H2].
  destruct (IH H1) as [H3 H4].
  apply Forall_app in H2 as [H2a H2b]. split.
  - constructor; [|exact H3]. exact (proj1 (Forall_singleton _ _) H2b).
  - constructor; [exact H4|exact H2a].
Qed.

(** The identifiers a run of calls leaves in the store, and the length of
    what is stored under each. *)
Lemma rate_calls_footprint calls : forall st,
  dom (snd (rate_calls calls st)) = dom st ∪ list_to_set calls.*2
  /\ (map_Forall (fun _ l => length l <= RATE_LIMIT_REQUESTS)%nat st ->
      map_Forall (fun _ l => length l <= RATE_LIMIT_REQUESTS)%nat
                 (snd (rate_calls calls st))).
Proof.
  induction calls as [|[t sid] calls IH]; intros st.
  - cbn. split; [|auto]. rewrite union_empty_r_L. reflexivity.
  - rewrite rate_calls_cons. cbn [snd]. rewrite fmap_cons. cbn [snd].
    destruct (IH (snd (check_rate_limit t sid st))) as [H1 H2].
    assert (Hdom : dom (snd (check_rate_limit t sid st)) = {[sid]} ∪ dom st).
    { rewrite check_rate_limit_closed. cbv zeta.
      destruct (_ <=? _)%nat; cbn [snd]; apply leibniz_equiv, dom_insert. }
    split.
    + rewrite H1, Hdom. cbn [list_to_set].
      rewrite (comm_L (∪) {[sid]} (dom st)), <- (assoc_L (∪)). reflexivity.
    + intros Hst. apply H2. intros k l Hk. cbv beta.
      destruct (decide (sid = k)) as [->|Hne].
      * pose proof (check_rate_limit_own t k st) as Hown.
        rewrite Hk in Hown. cbn [default from_option id] in Hown.
        rewrite Hown. rewrite check_rate_limit_answer.
        case_bool_decide as Hd; rewrite length_app; cbn [length]; [lia|].
        assert (Hle : (length (in_window t (default [] (st !! k)))
                       <= length (default [] (st !! k)))%nat)
          by apply length_filter.
        destruct (st !! k) as [l0|] eqn:E; cbn [default from_option id] in *.
        -- specialize (Hst k l0 E). cbv beta in Hst. lia.
        -- cbn [length] in Hle. unfold RATE_LIMIT_REQUESTS. lia.
      * rewrite check_rate_limit_other in Hk by exact Hne.
        exact (Hst k l Hk).
Qed.

End RateFacts.

(** X15. With a clock that never goes back, a call of the rate limiter is
    allowed exactly when fewer than 10 calls of the same identifier were
    allowed during the 60 seconds before it; refused calls and the calls of
    other identifiers do not count. *)
Theorem rate_limit_exact (earlier : list (time * string)) now sid :
  StronglySorted Z.le ((earlier ++ [(now, sid)]).*1) ->
  last (fst (rate_calls (earlier ++ [(now, sid)]) ∅))
  = Some (bool_decide
            (length (in_window now
                       (granted sid earlier (fst (rate_calls earlier ∅))))
             < RATE_LIMIT_REQUESTS)).
Proof.
  intros Hs. rewrite fmap_app in Hs. cbn in Hs.
  apply sorted_bounds in Hs as [Hle Hs].
  rewrite rate_calls_app. cbn [fst]. rewrite rate_calls_cons. cbn [fst].
  cbn [rate_calls fst]. rewrite last_snoc. f_equal.
  rewrite check_rate_limit_answer.
  assert (Hin : in_window now
                  (default [] (snd (rate_calls earlier ∅) !! sid))
                = in_window now
                    (granted sid earlier (fst (rate_calls earlier ∅)))).
  { destruct earlier as [|[t0 sid0] earlier']; [reflexivity|].
    destruct (rate_calls_history sid ((t0, sid0) :: earlier') ∅ [] t0)
      as [H _].
    - intros t _. rewrite lookup_empty. reflexivity.
    - intros u. cbn. lia.
    - rewrite fmap_cons in Hs |- *. cbn [fst] in Hs |- *.
      apply StronglySorted_inv in Hs as [_ Hs].
      constructor; [lia|exact Hs].
    - exact Hs.
    - cbv zeta in H. cbn [app] in H. apply H; [exact Hle|].
      rewrite fmap_cons in Hle. apply Forall_cons in Hle as [Hle _].
      exact Hle. }
  rewrite Hin. reflexivity.
Qed.

Lemma rate_limit_exact_witness :
  last (fst (rate_calls (((fun i => (Z.of_nat i, "s1")) <$> seq 0 10)
                           ++ [(59%Z, "s1")]) ∅)) = Some false
  /\ last (fst (rate_calls (((fun i => (Z.of_nat i, "s1")) <$> seq 0 10)
                              ++ [(60%Z, "s1")]) ∅)) = Some true.
Proof.
  split.
  - rewrite (rate_limit_exact ((fun i => (Z.of_nat i, "s1")) <$> seq 0 10)
               59%Z "s1").
    + vm_compute. reflexivity.
    + apply (bool_decide_unpack _). vm_compute. exact I.
  - rewrite (rate_limit_exact ((fun i => (Z.of_nat i, "s1")) <$> seq 0 10)
               60%Z "s1").
    + vm_compute. reflexivity.
    + apply (bool_decide_unpack _). vm_compute. exact I.
Defined.

(** X16. With a clock that never goes back, the rate limiter allows at most
    10 calls of one identifier in any 60 seconds: of the readings of the
    calls it allowed, no more than 10 lie in a window of that length,
    whichever it is. *)
Theorem at_most_ten_per_window (calls : list (time * string)) sid (u : time) :
  StronglySorted Z.le calls.*1 ->
  length (filter (fun ts => (u - RATE_LIMIT_WINDOW < ts <= u)%Z)
                 (granted sid calls (fst (rate_calls calls ∅))))
  <= RATE_LIMIT_REQUESTS.
Proof.
  intros Hs. destruct calls as [|[t0 sid0] calls']; [cbn; lia|].
  destruct (rate_calls_history sid ((t0, sid0) :: calls') ∅ [] t0)
    as [_ H].
  - intros t _. rewrite lookup_empty. reflexivity.
  - intros v. cbn. lia.
  - rewrite fmap_cons in Hs |- *. cbn [fst] in Hs |- *.
    apply StronglySorted_inv in Hs as [_ Hs].
    constructor; [lia|exact Hs].
  - exact Hs.
  - cbv zeta in H. cbn [app] in H. apply H.
Qed.

Lemma at_most_ten_per_window_witness :
  length (filter (fun ts => (30 - RATE_LIMIT_WINDOW < ts <= 30)%Z)
            (granted "s1" ((fun i => (Z.of_nat i, "s1")) <$> seq 0 25)
               (fst (rate_calls ((fun i => (Z.of_nat i, "s1")) <$> seq 0 25)
                       ∅))))
  <= RATE_LIMIT_REQUESTS.
Proof.
  apply (at_most_ten_per_window ((fun i => (Z.of_nat i, "s1")) <$> seq 0 25)
           "s1" 30%Z).
  apply (bool_decide_unpack _). vm_compute. exact I.
Defined.

(** X17. The store of the rate limiter only grows in identifiers: after any
    calls, starting from the empty store, it holds exactly the identifiers
    that were ever checked, none is ever removed, and no more than 10
    readings are kept under any of them. *)
Theorem rate_store_footprint (calls : list (time * string)) sid l :
  let st := snd (rate_calls calls ∅) in
  dom st = list_to_set calls.*2
  /\ (st !! sid = Some l -> length l <= RATE_LIMIT_REQUESTS).
Proof.
  cbv zeta. destruct (rate_calls_footprint calls ∅) as [H1 H2]. split.
  - rewrite H1, dom_empty_L. apply union_empty_l_L.
  - intros Hl. apply (H2 (map_Forall_empty _) sid l Hl).
Qed.

Lemma rate_store_footprint_witness :
  exists l,
    snd (rate_calls ((fun i => (Z.of_nat i, "s1")) <$> seq 0 25) ∅) !! "s1"
    = Some l
    /\ length l <= RATE_LIMIT_REQUESTS.
Proof.
  eexists. split; [vm_compute; reflexivity|].
  eapply (rate_store_footprint ((fun i => (Z.of_nat i, "s1")) <$> seq 0 25)
            "s1").
  vm_compute. reflexivity.
Defined.
(* ===================================================================== *)
(** ** What the extractor returns and what the identifier check accepts *)
(* ===================================================================== *)

(** X18. Every bank account the extractor returns is a run of 9 to 18
    digits that stands in the message, with no word character (letter,
    digit or underscore) right before it or right after it: a longer run of
    digits yields no account, not even its first 18 digits. *)
Theorem extracted_accounts_are_digit_runs message session x :
  x ∈ accounts (found (fst (extract_intelligence message session))) ->
  exists before after,
    list_ascii_of_string message = before ++ list_ascii_of_string x ++ after
    /\ Forall (fun c => is_digit c = true) (list_ascii_of_string x)
    /\ 9 <= String.length x <= 18
    /\ word_at (last before) = false
    /\ word_at (head after) = false.
Proof.
  intros Hx. apply extracted_accounts, findall_sound in Hx.
  destruct Hx as (before & after & Hs & Hd).
  apply bank_account_shape in Hd as (H1 & H2 & H3 & H4).
  rewrite length_list_ascii in H2.
  exists before, after. repeat split; try assumption; lia.
Qed.

(** X19. Every UPI identifier the extractor returns stands in the message
    and reads handle, at sign, provider: at least 2 characters out of
    letters, digits, dot, hyphen and underscore, then [@], then at least 3
    letters. *)
Theorem extracted_upi_ids_are_handles message session x :
  x ∈ upi (found (fst (extract_intelligence message session))) ->
  exists before after handle provider,
    list_ascii_of_string message = before ++ list_ascii_of_string x ++ after
    /\ list_ascii_of_string x = handle ++ "@"%char :: provider
    /\ Forall (fun c => upi_local c = true) handle
    /\ 2 <= length handle
    /\ Forall (fun c => is_alpha c = true) provider
    /\ 3 <= length provider.
Proof.
  intros Hx. apply extracted_upi, findall_sound in Hx.
  destruct Hx as (before & after & Hs & Hd).
  apply upi_shape in Hd as (handle & provider & H1 & H2 & H3 & H4 & H5).
  exists before, after, handle, provider. repeat split; assumption.
Qed.

(** X20. Every link the extractor returns stands in the message, begins
    with [http://] or [https://] in lower case, and goes on with at least
    one character, none of which is white space. *)
Theorem extracted_links_are_http_urls message session x :
  x ∈ urls (found (fst (extract_intelligence message session))) ->
  exists before after tail,
    list_ascii_of_string message = before ++ list_ascii_of_string x ++ after
    /\ (list_ascii_of_string x = list_ascii_of_string "http://" ++ tail
        \/ list_ascii_of_string x = list_ascii_of_string "https://" ++ tail)
    /\ 1 <= length tail
    /\ Forall (fun c => is_space c = false) tail.
Proof.
  intros Hx. apply extracted_urls, findall_sound in Hx.
  destruct Hx as (before & after & Hs & Hd).
  apply url_shape in Hd as (tail & H1 & H2 & H3).
  exists before, after, tail. repeat split; assumption.
Qed.

(** X21. The identifier check accepts exactly the non-empty strings of
    letters, digits, underscores and hyphens, and those strings followed by
    one line feed: the end anchor of the pattern also holds before a final
    line feed. *)
Theorem session_id_accepted_iff (v : string) :
  validate_session_id v = true
  <-> exists body,
        body <> []
        /\ Forall (fun c => id_char c = true) body
        /\ (list_ascii_of_string v = body
            \/ list_ascii_of_string v = body ++ [line_feed]).
Proof.
  unfold validate_session_id, re_match. rewrite bool_decide_eq_true.
  split.
  - intros [n Hn]. apply match_at_sound in Hn as [_ Hd].
    unfold SESSION_ID_PATTERN in Hd.
    inversion Hd as [| |cls lo hi r0 p0 body l2 rest0 Hb Hlo _ H1 Hr Hp Hl|
                     |]; subst.
    inversion H1 as [| | | |r0 p0 l0 rest0 Hend H2]; subst. clear H1.
    inversion H2; subst. clear H2. rewrite app_nil_r in Hl.
    cbn [app] in Hend.
    exists body. split; [intros ->; cbn in Hlo; lia|]. split; [exact Hb|].
    rewrite <- (take_drop n (list_ascii_of_string v)), <- Hl.
    destruct Hend as [->|(c & -> & Hc)].
    + left. apply app_nil_r.
    + right. apply code_inj in Hc. subst c. reflexivity.
  - intros (body & Hne & Hb & Hv).
    assert (Hs : exists rest,
               list_ascii_of_string v = body ++ rest
               /\ (rest = [] \/ rest = [line_feed])).
    { destruct Hv as [Hv|Hv]; [exists []|exists [line_feed]];
        rewrite Hv, ?app_nil_r; split; auto. }
    destruct Hs as (rest & -> & Hrest).
    unfold SESSION_ID_PATTERN. cbn [match_at].
    rewrite span_upto_run;
      [|exact Hb|destruct Hrest as [->| ->]; [exact I|reflexivity]].
    erewrite backtrack_first; [eauto| |].
    + destruct body; [contradiction|cbn; lia].
    + rewrite drop_app_length.
      destruct Hrest as [->| ->]; reflexivity.
Qed.

Lemma session_id_accepted_iff_witness :
  validate_session_id (String "a" (String line_feed EmptyString)) = true.
Proof.
  apply (proj2 (session_id_accepted_iff _)). exists ["a"%char].
  split; [discriminate|]. split; [repeat constructor|]. right. reflexivity.
Defined.
(* ===================================================================== *)
(** ** The content filter *)
(* ===================================================================== *)

Section FilterFacts.

Implicit Types (sub s pre post : string).

Lemma append_cons c s1 s2 :
  (String c s1 ++ s2)%string = String c (s1 ++ s2)%string.
Proof. reflexivity. Qed.

Lemma starts_with_app sub post : starts_with sub (sub ++ post)%string = true.
Proof.
  induction sub as [|c sub IH]; [reflexivity|].
  rewrite append_cons. cbn [starts_with]. rewrite Ascii.eqb_refl. exact IH.
Qed.

Lemma contains_app sub pre post :
  contains sub (pre ++ sub ++ post)%string = true.
Proof.
  induction pre as [|c pre IH].
  - change (("" ++ sub ++ post)%string) with ((sub ++ post)%string).
    pose proof (starts_with_app sub post) as H.
    destruct (sub ++ post)%string; cbn [contains]; rewrite H; reflexivity.
  - rewrite append_cons. cbn [contains]. rewrite IH. apply orb_true_r.
Qed.

(** The patterns of the filter are texts of 7-bit characters, and so are
    their lower-case forms. *)
Lemma suspicious_patterns_plain pattern :
  pattern ∈ suspicious_patterns ->
  ascii_only (lower pattern) = true.
Proof.
  intros H. unfold suspicious_patterns in H.
  repeat (apply elem_of_cons in H as [->|H];
          [rewrite lower_ascii by reflexivity; reflexivity|]).
  apply elem_of_nil in H. contradiction.
Qed.

End FilterFacts.

(** X22. The content filter looks for its four patterns anywhere in the
    text and in any mix of upper and lower case: a message that holds one
    of them, however it is written, is not processed; the caller gets the
    fallback reply and the state stays as it was. *)
Theorem suspicious_text_in_any_case_rejected env sid pre v post pattern w :
  pattern ∈ suspicious_patterns ->
  lower v = lower pattern ->
  validate_message (pre ++ v ++ post)%string = false
  /\ honeypot env (Some (API_KEY env)) (Fields sid (pre ++ v ++ post)%string) w
     = (Ok (Success fallback_reply), w).
Proof.
  intros Hp Hv.
  assert (Hm : validate_message (pre ++ v ++ post)%string = false).
  { unfold validate_message. apply andb_false_iff. left.
    apply negb_false_iff, existsb_exists. exists pattern.
    split; [apply list_elem_of_In, Hp|].
    destruct (lower_within pre v post) as (b & a & E).
    { rewrite Hv. apply suspicious_patterns_plain, Hp. }
    rewrite E, Hv. apply contains_app. }
  split; [exact Hm|]. apply honeypot_invalid. unfold valid_request.
  rewrite Hm. apply andb_false_r.
Qed.
End Service.

(* ===================================================================== *)
(** ** The statements at concrete inputs

    The inputs below are texts of 7-bit characters, on which [str.lower] is
    what [seven_bit] says, whatever its tables are elsewhere
    ([honeypot_plain], [run_plain]). *)
(* ===================================================================== *)

#[global] Existing Instance seven_bit.

Section PlainText.

Context (U : Unicode).

Implicit Types (sid text message : string) (w : World) (env : Env).

Lemma extract_intelligence_plain message :
  ascii_only message = true ->
  @extract_intelligence U message = @extract_intelligence seven_bit message.
Proof.
  intros H. unfold extract_intelligence.
  rewrite (@lower_ascii U message H). reflexivity.
Qed.

Lemma valid_request_plain sid text :
  ascii_only text = true ->
  @valid_request U sid text = @valid_request seven_bit sid text.
Proof.
  intros H. unfold valid_request, validate_message, suspicious_patterns.
  cbn [existsb].
  rewrite !(@lower_ascii U) by (exact H || reflexivity). reflexivity.
Qed.

Lemma handled_plain env sid text w :
  ascii_only text = true ->
  @handled U env sid text w = @handled seven_bit env sid text w.
Proof.
  intros H.
  unfold handled, after_message, fires, after_history, after_respond,
    reply_for, after_extract, extraction.
  rewrite (extract_intelligence_plain text H). reflexivity.
Qed.

(** The handler on a text of 7-bit characters does not depend on the
    tables of [str.lower]. *)
Lemma honeypot_plain env key payload w :
  match payload with
  | Fields _ text => ascii_only text = true
  | _ => True
  end ->
  @honeypot U env key payload w = @honeypot seven_bit env key payload w.
Proof.
  intros H. destruct (decide (key = Some (API_KEY env))) as [->|Hk].
  - destruct payload as [| | |sid text].
    + rewrite !honeypot_no_message. reflexivity.
    + rewrite !honeypot_scalar. reflexivity.
    + rewrite !honeypot_untyped. reflexivity.
    + pose proof (valid_request_plain sid text H) as Hv.
      destruct (@valid_request seven_bit sid text) eqn:E.
      * rewrite !honeypot_closed by assumption.
        rewrite (handled_plain env sid text w H). reflexivity.
      * rewrite !honeypot_invalid by assumption. reflexivity.
  - rewrite !honeypot_unauthorized by exact Hk. reflexivity.
Qed.

(** So does a run all of whose messages are texts of 7-bit characters. *)
Lemma run_plain steps : forall w,
  Forall (fun e => match e with
                   | Message _ _ (Fields _ text) => ascii_only text = true
                   | _ => True
                   end) steps ->
  @run U steps w = @run seven_bit steps w.
Proof.
  induction steps as [|e steps IH]; intros w H; [reflexivity|].
  apply Forall_cons in H as [He H]. rewrite !run_cons, <- (IH _ H).
  f_equal. destruct e as [env key payload| | | | | |]; try reflexivity.
  cbn [do_step]. rewrite honeypot_plain; [reflexivity|].
  destruct payload; (exact I || exact He).
Qed.

End PlainText.

(** C2 at a concrete input: the first message of a session, carrying three
    keywords and a URL. *)
Lemma C2_trigger_iff_witness :
  valid_request "s1" scam_text = true
  /\ fault demo_env = None
  /\ let w' := snd (honeypot demo_env (Some (API_KEY demo_env))
                      (Fields "s1" scam_text) initial_world) in
     let x := extraction demo_env scam_text
                (current demo_env "s1" (sessions initial_world)) in
     exists s',
       lookup_session "s1" (sessions w') = Some s'
       /\ let condition :=
            ((3 <= sum_values (keyword_counts s')
              /\ (upi (found x) <> [] \/ accounts (found x) <> []
                  \/ urls (found x) <> []))
             \/ 15 <= count s')
            /\ flag "s1" initial_world = false in
          (tasks w' = tasks initial_world ++ ["s1"] <-> condition)
          /\ (tasks w' = tasks initial_world <-> ~ condition).
Proof.
  refine (conj _ (conj _
            (C2_trigger_iff demo_env "s1" scam_text initial_world _ _)));
    vm_compute; reflexivity.
Defined.

(** C3, as stated, fails: in the run of the handler that fires the trigger,
    the assignment of the flag does not come before the scheduling of the
    dispatch. *)
Lemma C3_flag_after_scheduling :
  let w' := snd (honeypot demo_env demo_key (Fields "s1" scam_text)
                   initial_world) in
  tasks w' = ["s1"]
  /\ ~ precedes (FlagSet "s1") (Scheduled "s1") (journal w').
Proof.
  cbv zeta. split; [vm_compute; reflexivity|].
  assert (E : journal (snd (honeypot demo_env demo_key (Fields "s1" scam_text)
                              initial_world))
              = [Scheduled "s1"; FlagSet "s1"]) by (vm_compute; reflexivity).
  rewrite E. intros (i & k & Hik & Hi & Hk).
  destruct k as [|[|k]]; [lia| |]; simpl in Hk; [discriminate|].
  destruct k; discriminate.
Qed.

Lemma C3_schedule_then_flag_witness :
  journal (snd (honeypot demo_env demo_key (Fields "s1" scam_text)
                  initial_world)) = [Scheduled "s1"; FlagSet "s1"]
  /\ flag "s1" (snd (honeypot demo_env demo_key (Fields "s1" scam_text)
                       initial_world)) = true.
Proof.
  apply (C3_schedule_then_flag demo_env "s1" scam_text initial_world).
  - vm_compute. reflexivity.
  - reflexivity.
  - vm_compute. reflexivity.
Defined.

Lemma C1_callback_at_most_once_witness :
  births "s1" three_scams waiting_world = 0
  /\ rises "s1" three_scams waiting_world <= 1
  /\ scheduled "s1" (run three_scams waiting_world)
     <= scheduled "s1" waiting_world + 1.
Proof.
  destruct (C1_callback_at_most_once "s1" three_scams waiting_world)
    as (_ & _ & H).
  split; [vm_compute; reflexivity|].
  apply H. vm_compute. reflexivity.
Defined.



Lemma C9_history_bounded_witness :
  length (history_of "s1" ten_deep_world) = 10
  /\ history_of "s1" (snd (honeypot demo_env (Some (API_KEY demo_env))
                             (Fields "s1" scam_text) ten_deep_world))
     = drop 1 (history_of "s1" ten_deep_world)
         ++ [mkExchange scam_text
               "What is your name and company? I want to verify this."].
Proof.
  assert (Hlen : length (history_of "s1" ten_deep_world) = 10)
    by (vm_compute; reflexivity).
  split; [exact Hlen|].
  destruct (proj2 C9_history_bounded demo_env "s1" scam_text ten_deep_world)
    as (reply & Hr & _ & _ & Hfull).
  - vm_compute. reflexivity.
  - reflexivity.
  - rewrite (Hfull Hlen). vm_compute in Hr. injection Hr as <-.
    reflexivity.
Defined.

Lemma C8_store_bounded_lru_witness :
  length (sessions full_world) = 500
  /\ head (sessions full_world).*1 = Some "aa"
  /\ (exists s',
       sessions (snd (honeypot demo_env (Some (API_KEY demo_env))
                        (Fields "zz" scam_text) full_world))
       = drop 1 (sessions full_world) ++ [("zz", s')])
  /\ by_recency (sessions (run three_scams initial_world)).
Proof.
  split; [vm_compute; reflexivity|]. split; [vm_compute; reflexivity|].
  destruct C8_store_bounded_lru as (_ & H & _ & Hrec).
  split.
  - apply (H demo_env "zz" scam_text full_world).
    + vm_compute. reflexivity.
    + reflexivity.
    + apply (bool_decide_unpack _). vm_compute. exact I.
    + vm_compute. reflexivity.
  - apply (Hrec 0%Z). cbn. lia.
Defined.

(** The score of the sample message of the test suite. *)
Example weighted_score_sample :
  per_call_score "urgent urgent urgent verify verify otp" = 6.
Proof. vm_compute. reflexivity. Qed.

Lemma C10_keywords_counted_as_substrings_witness :
  keywords_found
    (fst (extract_intelligence "Your ACCOUNTANT needs confirmation"
            blank_session)) !! "account" = Some 1
  /\ keywords_found
       (fst (extract_intelligence "Your ACCOUNTANT needs confirmation"
               blank_session)) !! "confirm" = Some 1
  /\ default 0 (keyword_counts
                  (snd (extract_intelligence
                          "Your ACCOUNTANT needs confirmation" blank_session))
                  !! "confirm") = 1.
Proof.
  assert (Hlen : 10 <= len "Your ACCOUNTANT needs confirmation")
    by (vm_compute; lia).
  assert (Ha : "account" ∈ SCAM_KEYWORDS)
    by (apply (bool_decide_unpack _); vm_compute; exact I).
  assert (Hc : "confirm" ∈ SCAM_KEYWORDS)
    by (apply (bool_decide_unpack _); vm_compute; exact I).
  destruct (C10_keywords_counted_as_substrings
              "Your ACCOUNTANT needs confirmation" blank_session "account"
              Hlen Ha) as [H1 _].
  destruct (C10_keywords_counted_as_substrings
              "Your ACCOUNTANT needs confirmation" blank_session "confirm"
              Hlen Hc) as [H2 H3].
  split; [exact H1|]. split; [exact H2|exact H3].
Defined.

(** C7, as stated, fails: [a@bcd] is not of the shape the UPI pattern
    accepts (its local part has one character), so a message of at least
    10 characters that contains it next to a scoring keyword yields no
    identifier at all. *)
Lemma C7_one_letter_local_part_not_extracted :
  let message := "urgent a@bcd" in
  10 <= len message
  /\ 0 < per_call_score message
  /\ contains "a@bcd" message = true
  /\ upi (found (fst (extract_intelligence message blank_session))) = []
  /\ "a@bcd" ∉ upi (found (fst (extract_intelligence message blank_session))).
Proof.
  cbv zeta.
  assert (E : upi (found (fst (extract_intelligence "urgent a@bcd"
                                 blank_session))) = [])
    by (vm_compute; reflexivity).
  rewrite E.
  split; [vm_compute; lia|]. split; [vm_compute; lia|].
  split; [vm_compute; reflexivity|]. split; [reflexivity|].
  apply not_elem_of_nil.
Qed.

(** Where two candidates share characters the scan returns the first:
    [bcd@efg] stands in the last message below, and [ab@bcd] is what is
    extracted from it. *)
Lemma C7_lazy_extraction_witness :
  extract_intelligence "a@bcd" blank_session = (empty_extracted, blank_session)
  /\ found (fst (extract_intelligence "pay to ab@bcd" blank_session))
     = mkBuckets [] [] []
  /\ found (fst (extract_intelligence "urgent ab@bcd" blank_session))
     = mkBuckets ["ab@bcd"] [] []
  /\ upi (found (fst (extract_intelligence "urgent ab@bcd@efg"
                        blank_session))) <> []
  /\ upi (found (fst (extract_intelligence "urgent ab@bcd@efg"
                        blank_session))) = ["ab@bcd"].
Proof.
  destruct C7_lazy_extraction as (Hshort & Hlong & Hupi).
  split; [apply Hshort; vm_compute; lia|].
  split; [|split; [|split]].
  - rewrite Hlong by (vm_compute; lia). vm_compute. reflexivity.
  - rewrite Hlong by (vm_compute; lia). vm_compute. reflexivity.
  - apply (Hupi "urgent ab@bcd@efg" blank_session
             (list_ascii_of_string "urgent ab@") (list_ascii_of_string "bcd")
             (list_ascii_of_string "efg") []).
    + vm_compute. lia.
    + vm_compute. lia.
    + reflexivity.
    + repeat constructor.
    + vm_compute. lia.
    + repeat constructor.
    + vm_compute. lia.
  - rewrite Hlong by (vm_compute; lia). vm_compute. reflexivity.
Defined.

Lemma rejected_requests_change_nothing_witness :
  honeypot demo_env (Some "guess") (Fields "s1" scam_text) waiting_world
  = (Ok Unauthorized, waiting_world)
  /\ honeypot demo_env demo_key NoMessage waiting_world
     = (Ok (Success "Hello? Who is this?"), waiting_world)
  /\ honeypot demo_env demo_key Scalar waiting_world
     = (Raised TypeError, waiting_world)
  /\ honeypot demo_env demo_key (Fields "no spaces allowed" scam_text)
       waiting_world
     = (Ok (Success fallback_reply), waiting_world).
Proof.
  destruct (rejected_requests_change_nothing demo_env (Some "guess")
              (Fields "s1" scam_text) waiting_world) as (H1 & _).
  destruct (rejected_requests_change_nothing demo_env demo_key
              NoMessage waiting_world) as (_ & H2 & _).
  destruct (rejected_requests_change_nothing demo_env demo_key
              Scalar waiting_world) as (_ & _ & H3 & _).
  destruct (rejected_requests_change_nothing demo_env demo_key
              (Fields "no spaces allowed" scam_text) waiting_world)
    as (_ & _ & _ & H4).
  split; [apply H1; discriminate|].
  split; [apply H2; reflexivity|].
  split; [apply H3; reflexivity|].
  apply H4; [reflexivity|]. right. eexists _, _. split; [reflexivity|].
  vm_compute. reflexivity.
Defined.

Lemma accepted_message_bookkeeping_witness :
  exists s',
    lookup_session "s1"
      (sessions (snd (honeypot demo_env (Some (API_KEY demo_env))
                        (Fields "s1" scam_text) waiting_world)))
    = Some s'
    /\ count s' = 2
    /\ last_accessed s' = 100%Z.
Proof.
  destruct (accepted_message_bookkeeping demo_env "s1" scam_text
              waiting_world) as (s' & H1 & H2 & H3 & _).
  - vm_compute. reflexivity.
  - reflexivity.
  - exists s'. split; [exact H1|]. split; [|exact H3].
    rewrite H2. vm_compute. reflexivity.
Defined.

Lemma intel_accumulates_raw_witness :
  urls (intel_of "s1"
          (snd (honeypot demo_env (Some (API_KEY demo_env))
                  (Fields "s1" scam_text)
                  (run [scam_message "s1"] initial_world))))
  = ["http://pay.example/x"; "http://pay.example/x"].
Proof.
  assert (Hv : valid_request "s1" scam_text = true)
    by (vm_compute; reflexivity).
  pose proof (intel_accumulates_raw demo_env "s1" scam_text
                (run [scam_message "s1"] initial_world) Hv eq_refl) as H.
  cbv zeta in H. rewrite H. vm_compute. reflexivity.
Defined.

Lemma reply_selected_by_stage_witness :
  fst (honeypot demo_env (Some (API_KEY demo_env)) (Fields "s1" scam_text)
         ten_deep_world)
  = Ok (Success "What is your name and company? I want to verify this.").
Proof.
  destruct (reply_selected_by_stage demo_env "s1" scam_text ten_deep_world)
    as (reply & H1 & H2 & _).
  - vm_compute. reflexivity.
  - reflexivity.
  - rewrite H1. vm_compute in H2. congruence.
Defined.

Lemma other_sessions_untouched_witness :
  lookup_session "s1"
    (sessions (snd (honeypot demo_env (Some (API_KEY demo_env))
                      (Fields "s2" scam_text) waiting_world)))
  = lookup_session "s1" (sessions waiting_world).
Proof.
  apply (other_sessions_untouched demo_env "s2" scam_text waiting_world "s1").
  - vm_compute. reflexivity.
  - right. vm_compute. lia.
  - discriminate.
Defined.

Lemma cleanup_removes_exactly_expired_witness :
  sessions (cleanup_cycle 1900%Z waiting_world) = sessions waiting_world
  /\ sessions (cleanup_cycle 1901%Z waiting_world) = [].
Proof.
  assert (Hnd : NoDup (sessions waiting_world).*1)
    by (apply (bool_decide_unpack _); vm_compute; exact I).
  destruct (cleanup_removes_exactly_expired 1900%Z waiting_world Hnd)
    as [H1 _].
  destruct (cleanup_removes_exactly_expired 1901%Z waiting_world Hnd)
    as [H2 _].
  rewrite H1, H2. split; vm_compute; reflexivity.
Defined.

Lemma reaped_session_starts_afresh_witness :
  count_of "s1" ten_deep_world = 10
  /\ count_of "s1"
       (snd (honeypot demo_env (Some (API_KEY demo_env))
               (Fields "s1" scam_text) (cleanup_cycle 5000%Z ten_deep_world)))
     = 1.
Proof.
  split; [vm_compute; reflexivity|].
  assert (Hs : exists s, lookup_session "s1" (sessions ten_deep_world)
                         = Some s /\ (last_accessed s < ttl_threshold 5000%Z)%Z).
  { eexists. split; [vm_compute; reflexivity|]. vm_compute. reflexivity. }
  destruct Hs as (s & Hs & Hexp).
  destruct (reaped_session_starts_afresh 5000%Z demo_env "s1" scam_text
              ten_deep_world s Hs Hexp) as (_ & H & _).
  - vm_compute. reflexivity.
  - reflexivity.
  - exact H.
Defined.

Lemma score_grows_by_keyword_count_witness :
  score_of "s1" (snd (honeypot demo_env (Some (API_KEY demo_env))
                        (Fields "s1" scam_text)
                        (run [scam_message "s1"] initial_world)))
  = 6.
Proof.
  assert (Hv : valid_request "s1" scam_text = true)
    by (vm_compute; reflexivity).
  rewrite (score_grows_by_keyword_count demo_env "s1" scam_text
             (run [scam_message "s1"] initial_world) Hv eq_refl).
  vm_compute. reflexivity.
Defined.

Lemma extracted_accounts_are_digit_runs_witness :
  exists before after,
    list_ascii_of_string "urgent: pay to 123456789012 now"
    = before ++ list_ascii_of_string "123456789012" ++ after
    /\ word_at (last before) = false
    /\ word_at (head after) = false.
Proof.
  destruct (extracted_accounts_are_digit_runs
              "urgent: pay to 123456789012 now" blank_session "123456789012")
    as (before & after & H1 & _ & _ & H4 & H5).
  - apply (bool_decide_unpack _). vm_compute. exact I.
  - exists before, after. repeat split; assumption.
Defined.

Lemma extracted_upi_ids_are_handles_witness :
  exists handle provider,
    list_ascii_of_string "scam.pay@okbank" = handle ++ "@"%char :: provider
    /\ 2 <= length handle
    /\ 3 <= length provider.
Proof.
  destruct (extracted_upi_ids_are_handles
              "verify now: send to scam.pay@okbank" blank_session
              "scam.pay@okbank")
    as (_ & _ & handle & provider & _ & H2 & _ & H4 & _ & H6).
  - apply (bool_decide_unpack _). vm_compute. exact I.
  - exists handle, provider. repeat split; assumption.
Defined.

Lemma extracted_links_are_http_urls_witness :
  exists tail,
    (list_ascii_of_string "http://pay.example/x"
     = list_ascii_of_string "http://" ++ tail
     \/ list_ascii_of_string "http://pay.example/x"
        = list_ascii_of_string "https://" ++ tail)
    /\ 1 <= length tail.
Proof.
  destruct (extracted_links_are_http_urls scam_text blank_session
              "http://pay.example/x")
    as (_ & _ & tail & _ & H2 & H3 & _).
  - apply (bool_decide_unpack _). vm_compute. exact I.
  - exists tail. split; assumption.
Defined.

Lemma suspicious_text_in_any_case_rejected_witness :
  honeypot demo_env demo_key
    (Fields "s1" "urgent verify <ScRiPt>otp</script>") waiting_world
  = (Ok (Success fallback_reply), waiting_world).
Proof.
  apply (suspicious_text_in_any_case_rejected demo_env "s1" "urgent verify "
           "<ScRiPt" ">otp</script>" "<script" waiting_world).
  - apply (bool_decide_unpack _). vm_compute. exact I.
  - reflexivity.
Defined.

Lemma breaker_always_consistent_witness :
  forallb whole
    (three_scams ++ [Dispatch net_unreachable "s1" blank_session]) = true
  /\ breaker_ok
       (metrics (run (three_scams
                        ++ [Dispatch net_unreachable "s1" blank_session])
                   initial_world))
  /\ total_callbacks_failed
       (metrics (run (three_scams
                        ++ [Dispatch net_unreachable "s1" blank_session])
                   initial_world)) = 1.
Proof.
  assert (Hall : forallb whole
                   (three_scams
                      ++ [Dispatch net_unreachable "s1" blank_session])
                 = true) by reflexivity.
  destruct (breaker_always_consistent
              (three_scams ++ [Dispatch net_unreachable "s1" blank_session])
              net_unreachable "s1" blank_session) as (_ & _ & _ & H & _).
  split; [exact Hall|]. split; [apply (H Hall)|].
  vm_compute. reflexivity.
Defined.
